(** * The template helper of ztp/internal/template.go

    A shallow embedding of the Go package [internal] (file
    [ztp/internal/template.go]): the [TemplateBuilder] with its setters and
    [Build], the discovery and parsing passes ([findFiles], [parseFiles],
    [parseFile]), [Execute], [Names] and the three template functions
    [base64Func], [executeFunc] and [jsonFunc].

    The package is a thin layer over the Go standard library.  The parts of
    the library it calls are modelled first, one module per Go package
    ([base64], [fmt], [utf8], [json], [io], [bytes], [logr], [fs], [tmpl],
    [slices]), each as far as the calls made by the package need it.  Go
    strings and byte slices are both sequences of bytes and are both
    represented by [string]. *)

From Stdlib Require Import ZArith String Ascii List Lia.
From Stdlib Require Import DecimalString HexadecimalString DecimalPos DecimalZ DecimalFacts.
From stdpp Require Import gmap strings list fin_maps.

Open Scope string_scope.
Set Warnings "-register-all".
Set Default Proof Using "Type".

(** ** Errors, panics and outcomes *)

(** The run-time panics the package can raise. *)
Inductive panicval :=
| NilPointerDereference  (* runtime error: invalid memory address or nil pointer dereference *)
| InvalidWriteCount      (* bytes.Buffer.WriteTo: invalid Write count *)
| IndexOutOfRange.       (* runtime error: index out of range *)

(** Diagnostics of the template parser. *)
Inductive parse_diag :=
| UnclosedAction
| UnterminatedQuotedString
| BadCharacter (c : ascii)
| FunctionNotDefined (f : string)
| UnexpectedInOperand
| MissingValueForCommand
| MissingCommand
| NonExecutableCommand (stage : nat)
| UnexpectedEOF
| Unexpected (what : string)
| MultipleDefinition (name : string).

(** Go [error] values, one constructor per place that creates one. *)
Inductive error :=
| ErrorString (msg : string)                    (* errors.New(msg) *)
| PathError (op path cause : string)            (* *fs.PathError *)
| ParseError (name : string) (d : parse_diag)   (* text/template parse failure *)
| NoTemplateError (name root : string)          (* ExecuteTemplate: no template NAME associated with template ROOT *)
| ExecError (name : string) (cause : error)     (* text/template.ExecError *)
| CallError (fname : string) (cause : error)    (* error calling FNAME: CAUSE *)
| RuntimeError (p : panicval)                   (* a panic recovered as an error *)
| WrongNumberOfArgs (fname : string) (want got : nat)
| WrongTypeForValue (expected got : string)
| InvalidValue (expected : string)
| NotAFunction (what : string)                  (* can't give argument to non-function *)
| NotADefinedFunction (fname : string)          (* FNAME is not a defined function *)
| CannotPrint (type : string)                   (* can't print ... of type ... *)
| DontKnowHowToEncode (type : string)           (* base64Func: don't know how to encode value of type %T *)
| UnsupportedTypeError (type : string)          (* *json.UnsupportedTypeError *)
| UnsupportedValueError (msg : string)          (* *json.UnsupportedValueError *)
| ErrShortWrite                                 (* io.ErrShortWrite *)
| WriteError (msg : string).                    (* an error of the destination writer *)

(** What a call can do: return normally, return a non-nil error, panic, or
    exhaust the goroutine stack (fatal, cannot be recovered).  The standard
    library is modelled in part; [Outside what] says that the call has met
    something the model does not cover ([what]), and that nothing is known
    of what the program does from there on. *)
Inductive outcome (A : Type) :=
| Ok (a : A)
| Err (e : error)
| Panic (p : panicval)
| StackOverflow
| Outside (what : string).
Arguments Ok {A} a.
Arguments Err {A} e.
Arguments Panic {A} p.
Arguments StackOverflow {A}.
Arguments Outside {A} what.

(** Sequencing stops at the first call that does not return normally;
    written [x ← o; k] below. *)
#[global] Instance outcome_bind : MBind outcome := fun A B k o =>
  match o with
  | Ok a => k a
  | Err e => Err e
  | Panic p => Panic p
  | StackOverflow => StackOverflow
  | Outside w => Outside w
  end.

#[global] Instance outcome_ret : MRet outcome := fun A a => Ok a.

(** The error taxonomy of the specification, read off the error values. *)
Definition is_ConfigurationError (e : error) : Prop :=
  e = ErrorString "logger is mandatory" \/ e = ErrorString "filesystem is mandatory".

Definition is_TemplateSyntaxError (e : error) : Prop :=
  exists name d, e = ParseError name d.

Definition is_TemplateNotFoundError (name : string) (e : error) : Prop :=
  exists root, e = NoTemplateError name root.


Definition is_SerializationError (e : error) : Prop :=
  (exists ty, e = UnsupportedTypeError ty) \/ (exists msg, e = UnsupportedValueError msg).

(** ** Values of type [any] *)

(** The Go values that the functions of the package are followed on.  A
    slice, a map and a byte slice are nil or not, which Go tells apart
    where it encodes them.  Pointers appear in two forms: the nil pointer of
    a type whose String method dereferences its receiver, and a pointer into
    a structure that contains itself. *)
Inductive value :=
| VNil                                   (* the nil interface *)
| VBool (b : bool)
| VInt (z : Z)
| VString (s : string)                   (* string *)
| VBytes (s : string)                    (* a []byte that is not nil *)
| VNilBytes                              (* []byte(nil) *)
| VStringer (type str : string) (repr : value)
    (* a value of the defined type [type] with a String method returning
       [str] and no method of its own for JSON or text marshalling; [repr]
       is its underlying data *)
| VNilStringer (type : string)
    (* the nil pointer of the pointer type [type], whose String method
       dereferences its receiver, as that of *url.URL does *)
| VList (l : list value)                 (* a []any that is not nil *)
| VNilList                               (* []any(nil) *)
| VMap (m : list (string * value))       (* a map[string]any that is not nil *)
| VNilMap                                (* map[string]any(nil) *)
| VChan (elem : string) (addr : N)       (* chan elem, a non-nil channel at address addr *)
| VFunc (type : string) (addr : N)       (* a non-nil function of type [type] *)
| VCyclic (type : string) (addr : N) (printed : string).
    (* a pointer of type [type], at address [addr], to a structure that
       contains this pointer; [printed] is the default format of the
       structure *)

(** ** Strings and sorting *)

Module strs.

Definition slash : ascii := "/"%char.

(** The double quote, and a text between double quotes. *)
Definition dquote : ascii := "034"%char.

Definition quoted (s : string) : string :=
  String dquote (s +:+ String dquote "").

(** Split at every occurrence of [sep] (strings.Split with a one-byte
    separator): the result is never empty. *)
Fixpoint Split (sep : ascii) (s : string) : list string :=
  match s with
  | "" => [""]
  | String c r =>
      if Ascii.eqb c sep then "" :: Split sep r
      else match Split sep r with
           | [] => [String c ""]
           | w :: ws => String c w :: ws
           end
  end.

Fixpoint Join (sep : string) (l : list string) : string :=
  match l with
  | [] => ""
  | [x] => x
  | x :: r => x +:+ sep +:+ Join sep r
  end.

Fixpoint Contains (c : ascii) (s : string) : bool :=
  match s with
  | "" => false
  | String d r => Ascii.eqb d c || Contains c r
  end.

Fixpoint HasPrefix (p s : string) : bool :=
  match p, s with
  | "", _ => true
  | String a p', String b s' => Ascii.eqb a b && HasPrefix p' s'
  | _, _ => false
  end.

Fixpoint drop (n : nat) (s : string) : string :=
  match n, s with
  | O, _ => s
  | S n', String _ r => drop n' r
  | S _, "" => ""
  end.

Fixpoint take (n : nat) (s : string) : string :=
  match n, s with
  | O, _ => ""
  | S n', String c r => String c (take n' r)
  | S _, "" => ""
  end.

(** The UTF-8 encodings of the characters that are white space for Unicode
    ([unicode.IsSpace]). *)
Definition bytesOf (l : list N) : string := string_of_list_ascii (map ascii_of_N l).

Definition whiteSpace : list string :=
  map bytesOf
    [[9]; [10]; [11]; [12]; [13]; [32]; [194; 133]; [194; 160]; [225; 154; 128];
     [226; 128; 128]; [226; 128; 129]; [226; 128; 130]; [226; 128; 131];
     [226; 128; 132]; [226; 128; 133]; [226; 128; 134]; [226; 128; 135];
     [226; 128; 136]; [226; 128; 137]; [226; 128; 138];
     [226; 128; 168]; [226; 128; 169]; [226; 128; 175]; [226; 129; 159];
     [227; 128; 128]]%N.

(** [bytes.TrimSpace] leaves nothing: the bytes are the encodings of white
    space, one after the other.  [pass] bytes of a character are still to
    be stepped over. *)
Fixpoint allSpace (pass : nat) (s : string) : bool :=
  match s with
  | "" => true
  | String _ r =>
      match pass with
      | S p => allSpace p r
      | O =>
          match List.find (fun w => HasPrefix w s) whiteSpace with
          | Some w => allSpace (String.length w - 1) r
          | None => false
          end
      end
  end.

Fixpoint all (p : ascii -> bool) (s : string) : bool :=
  match s with
  | "" => true
  | String c r => p c && all p r
  end.

(** Insertion into a list ordered by key, in front of the first key that
    is not smaller. *)
Fixpoint insert_by_key {A} (k : string) (a : A) (l : list (string * A))
  : list (string * A) :=
  match l with
  | [] => [(k, a)]
  | (k', a') :: r =>
      if String.ltb k' k then (k', a') :: insert_by_key k a r
      else (k, a) :: l
  end.

(** Sort by key, bytewise, as Go compares strings. *)
Fixpoint sort_by_key {A} (l : list (string * A)) : list (string * A) :=
  match l with
  | [] => []
  | (k, a) :: r => insert_by_key k a (sort_by_key r)
  end.

End strs.

(** ** encoding/base64 *)

Module base64.

Definition encodeStd : string :=
  "ABCDEFGHIJKLMNOPQRSTUVWXYZabcdefghijklmnopqrstuvwxyz0123456789+/".

Definition StdPadding : ascii := "="%char.

(** [enc.encode[i]] *)
Definition encode (i : N) : ascii :=
  match String.get (N.to_nat i) encodeStd with
  | Some c => c
  | None => StdPadding
  end.

Definition sextet (val : N) (shift : N) : ascii :=
  encode (N.land (N.shiftr val shift) 63).

(** [StdEncoding.EncodeToString]: three bytes give four characters; a
    remainder of one or two bytes is padded with [=].  Nothing else is
    emitted, in particular no line break. *)
Fixpoint EncodeToString (src : string) : string :=
  match src with
  | "" => ""
  | String a "" =>
      let val := N.shiftl (N_of_ascii a) 16 in
      String (sextet val 18) (String (sextet val 12)
        (String StdPadding (String StdPadding "")))
  | String a (String b "") =>
      let val := N.lor (N.shiftl (N_of_ascii a) 16) (N.shiftl (N_of_ascii b) 8) in
      String (sextet val 18) (String (sextet val 12)
        (String (sextet val 6) (String StdPadding "")))
  | String a (String b (String c rest)) =>
      let val := N.lor (N.lor (N.shiftl (N_of_ascii a) 16)
                              (N.shiftl (N_of_ascii b) 8)) (N_of_ascii c) in
      String (sextet val 18) (String (sextet val 12)
        (String (sextet val 6) (String (sextet val 0) (EncodeToString rest))))
  end.

(** The characters of an encoding: the 64 of the alphabet and the padding. *)
Definition isStd (c : ascii) : bool :=
  strs.Contains c encodeStd || Ascii.eqb c StdPadding.

End base64.

(** ** fmt: the default format of a value and the name of its type *)

Module fmt.

Definition itoa (z : Z) : string :=
  DecimalString.NilZero.string_of_int (Z.to_int z).

Definition hex (n : N) : string :=
  HexadecimalString.NilZero.string_of_uint (N.to_hex_uint n).

(** [%T] *)
Definition TypeOf (v : value) : string :=
  match v with
  | VNil => "<nil>"
  | VBool _ => "bool"
  | VInt _ => "int"
  | VString _ => "string"
  | VBytes _ | VNilBytes => "[]uint8"
  | VStringer type _ _ => type
  | VNilStringer type => type
  | VList _ | VNilList => "[]interface {}"
  | VMap _ | VNilMap => "map[string]interface {}"
  | VChan elem _ => "chan " +:+ elem
  | VFunc type _ => type
  | VCyclic type _ _ => type
  end.

Definition bytes_of (s : string) : list string :=
  map (fun c => itoa (Z.of_N (N_of_ascii c))) (list_ascii_of_string s).

(** [%v], as [fmt.Fprint] writes an operand: a Stringer through its String
    method, a nil pointer with a String method as [<nil>] ([fmt] recovers
    the panic of the method), a map with its keys in ascending order, a
    channel, a function and a pointer below the top level as their
    address. *)
Fixpoint Sprint (v : value) : string :=
  match v with
  | VNil => "<nil>"
  | VBool b => if b then "true" else "false"
  | VInt z => itoa z
  | VString s => s
  | VBytes s => "[" +:+ strs.Join " " (bytes_of s) +:+ "]"
  | VNilBytes | VNilList => "[]"
  | VStringer _ str _ => str
  | VNilStringer _ => "<nil>"
  | VList l => "[" +:+ strs.Join " " (map Sprint l) +:+ "]"
  | VMap m =>
      "map[" +:+
      strs.Join " "
        (map (fun kv => fst kv +:+ ":" +:+ snd kv)
           (strs.sort_by_key (map (fun kv => (fst kv, Sprint (snd kv))) m)))
      +:+ "]"
  | VNilMap => "map[]"
  | VChan _ addr | VFunc _ addr | VCyclic _ addr _ => "0x" +:+ hex addr
  end.

End fmt.

(** ** unicode/utf8 *)

Module utf8.

Definition between (lo hi : N) (c : ascii) : bool :=
  ((lo <=? N_of_ascii c) && (N_of_ascii c <=? hi))%N.

(** [utf8.DecodeRuneInString] at a byte of 0x80 or more: the size of the
    encoding that starts there, or [None] for [RuneError] with size 1. *)
Definition DecodeRuneSize (s : string) : option nat :=
  match s with
  | String b0 r =>
      if between 194 223 b0 then
        match r with
        | String b1 _ => if between 128 191 b1 then Some 2 else None
        | _ => None
        end
      else if between 224 239 b0 then
        match r with
        | String b1 (String b2 _) =>
            let lo := (if between 224 224 b0 then 160 else 128)%N in
            let hi := (if between 237 237 b0 then 159 else 191)%N in
            if between lo hi b1 && between 128 191 b2 then Some 3 else None
        | _ => None
        end
      else if between 240 244 b0 then
        match r with
        | String b1 (String b2 (String b3 _)) =>
            let lo := (if between 240 240 b0 then 144 else 128)%N in
            let hi := (if between 244 244 b0 then 143 else 191)%N in
            if between lo hi b1 && between 128 191 b2 && between 128 191 b3
            then Some 4 else None
        | _ => None
        end
      else None
  | "" => None
  end.

(** [utf8.ValidString]; [pass] bytes of an accepted rune are still to be
    stepped over. *)
Fixpoint valid (pass : nat) (s : string) : bool :=
  match s with
  | "" => true
  | String c r =>
      match pass with
      | S p => valid p r
      | O =>
          if (N_of_ascii c <? 128)%N then valid O r
          else match DecodeRuneSize s with
               | Some size => valid (size - 1) r
               | None => false
               end
      end
  end.

Definition ValidString (s : string) : bool := valid 0 s.

End utf8.

(** ** encoding/json *)

Module json.

Definition hexdigit (n : N) : ascii :=
  match String.get (N.to_nat n) "0123456789abcdef" with
  | Some c => c
  | None => "0"%char
  end.

(** [htmlSafeSet]: the ASCII bytes written as they are. *)
Definition htmlSafe (b : N) : bool :=
  ((32 <=? b) && (b <? 128) &&
   negb ((b =? 34) || (b =? 38) || (b =? 60) || (b =? 62) || (b =? 92)))%N.

(** The escape of an ASCII byte outside [htmlSafeSet]. *)
Definition escapeByte (c : ascii) : string :=
  let b := N_of_ascii c in
  if ((b =? 92) || (b =? 34))%N then String "\" (String c "")
  else if (b =? 10)%N then "\n"
  else if (b =? 13)%N then "\r"
  else if (b =? 9)%N then "\t"
  else "\u00" +:+ String (hexdigit (N.shiftr b 4)) (String (hexdigit (N.land b 15)) "").

(** U+2028 and U+2029, which are E2 80 A8 and E2 80 A9 in UTF-8. *)
Definition lineSeparator (s : string) : option ascii :=
  match s with
  | String b0 (String b1 (String b2 _)) =>
      if utf8.between 226 226 b0 && utf8.between 128 128 b1
         && utf8.between 168 169 b2
      then Some (hexdigit (N.land (N_of_ascii b2) 15)) else None
  | _ => None
  end.

(** The body of [appendString] with HTML escaping on, the mode of
    [Marshal].  [pass] bytes of an accepted rune are still to be copied,
    [skip] bytes of an escaped one are still to be dropped.  Control
    characters other than newline, carriage return and tab take the
    six-character form. *)
Fixpoint escape (pass skip : nat) (s : string) : string :=
  match s with
  | "" => ""
  | String c r =>
      match pass, skip with
      | S p, _ => String c (escape p skip r)
      | O, S k => escape O k r
      | O, O =>
          if (N_of_ascii c <? 128)%N then
            (if htmlSafe (N_of_ascii c) then String c "" else escapeByte c)
            +:+ escape O O r
          else
            match utf8.DecodeRuneSize s with
            | None => "\ufffd" +:+ escape O O r
            | Some size =>
                match lineSeparator s with
                | Some d => "\u202" +:+ String d (escape O 2 r)
                | None => String c (escape (size - 1) O r)
                end
            end
      end
  end.

Definition quote : string := String strs.dquote "".

(** A Go string as a JSON string, quotes included. *)
Definition appendString (s : string) : string :=
  quote +:+ escape 0 0 s +:+ quote.

(** The outcomes of a list of encodings, in order, up to the first that
    fails. *)
Fixpoint collect (l : list (outcome string)) : outcome (list string) :=
  match l with
  | [] => Ok []
  | o :: r => x ← o; xs ← collect r; Ok (x :: xs)
  end.

Fixpoint collect_fields (l : list (string * outcome string))
  : outcome (list string) :=
  match l with
  | [] => Ok []
  | (k, o) :: r =>
      x ← o; xs ← collect_fields r; Ok ((appendString k +:+ ":" +:+ x) :: xs)
  end.

(** [json.Marshal]: compact output, map keys in ascending order, byte
    slices as Base64 strings, a defined type through its underlying data,
    [null] for what is nil; a channel and a function have no encoding, and
    a cycle is an error. *)
Fixpoint Marshal (v : value) : outcome string :=
  match v with
  | VNil => Ok "null"
  | VBool b => Ok (if b then "true" else "false")
  | VInt z => Ok (fmt.itoa z)
  | VString s => Ok (appendString s)
  | VBytes s => Ok (quote +:+ base64.EncodeToString s +:+ quote)
  | VNilBytes | VNilList | VNilMap | VNilStringer _ => Ok "null"
  | VStringer _ _ repr => Marshal repr
  | VList l =>
      xs ← collect (map Marshal l);
      Ok ("[" +:+ strs.Join "," xs +:+ "]")
  | VMap m =>
      xs ← collect_fields
             (strs.sort_by_key (map (fun kv => (fst kv, Marshal (snd kv))) m));
      Ok ("{" +:+ strs.Join "," xs +:+ "}")
  | VChan elem _ => Err (UnsupportedTypeError ("chan " +:+ elem))
  | VFunc type _ => Err (UnsupportedTypeError type)
  | VCyclic type _ _ => Err (UnsupportedValueError ("encountered a cycle via " +:+ type))
  end.

End json.

(** ** io.Writer and bytes.Buffer *)

Module io.

(** The interface [io.Writer]: [Write w p] gives the writer after the
    call, the number of bytes it took and its error, if any. *)
Class Writer (W : Type) := Write : W -> string -> W * (nat * option error).

End io.

Module bytes.

(** A [bytes.Buffer], as its unread contents. *)
Definition Buffer := string.

Definition empty : Buffer := "".

#[global] Instance Buffer_Writer : io.Writer Buffer :=
  fun b p => (b +:+ p, (String.length p, None)).

Definition String (b : Buffer) : string := b.

(** [Buffer.WriteTo]: one [Write] of the whole contents, none when the
    buffer is empty; the bytes taken leave the buffer, and a buffer that
    was drained is reset. *)
Definition WriteTo {W} `{io.Writer W} (b : Buffer) (w : W)
  : (Buffer * W) * outcome unit :=
  let nBytes := String.length b in
  if (0 <? nBytes)%nat then
    let '(w', (m, e)) := io.Write w b in
    if (nBytes <? m)%nat then ((b, w'), Panic InvalidWriteCount)
    else
      let b' := strs.drop m b in
      match e with
      | Some err => ((b', w'), Err err)
      | None =>
          if negb (m =? nBytes)%nat then ((b', w'), Err ErrShortWrite)
          else ((empty, w'), Ok tt)
      end
  else ((empty, w), Ok tt).

End bytes.

(** ** Observable effects *)

(** What a build or an execution does besides returning: the calls on the
    source filesystem, the parses, and the messages handed to the log
    sink. *)
Inductive event :=
| EvStat (path : string)      (* fs.Stat, by the Stat method or by opening the file *)
| EvReadDir (path : string)
| EvReadFile (path : string)
| EvParse (name : string)
| EvInfo (msg : string) (kvs : list (string * value)).

(** ** logr *)

Module logr.

(** A sink that takes the messages of the levels up to [verbosity]. *)
Record LogSink := { verbosity : Z }.

Record Logger := { sink : option LogSink; level : Z }.

(** The zero value [logr.Logger{}]. *)
Definition zero : Logger := {| sink := None; level := 0 |}.

Definition GetSink (l : Logger) : option LogSink := sink l.

(** The level is an [int]: 64 bits, two's complement. *)
Definition wrap (z : Z) : Z := (z + 2 ^ 63) mod 2 ^ 64 - 2 ^ 63.

Definition V (l : Logger) (lvl : Z) : Logger :=
  match sink l with
  | None => l
  | Some _ => {| sink := sink l; level := wrap (level l + Z.max lvl 0) |}
  end.

(** A logger without sink logs nothing.  [Build] puts no such logger into
    a [Template]. *)
Definition Enabled (l : Logger) : bool :=
  match sink l with
  | None => false
  | Some s => (level l <=? verbosity s)%Z
  end.

Definition Info (l : Logger) (msg : string) (kvs : list (string * value))
  : list event :=
  if Enabled l then [EvInfo msg kvs] else [].

End logr.

(** ** io/fs and path *)

Module fs.

(** A source filesystem is a finite tree.  A directory lists its entries
    by name; entry names are path elements (not empty, no slash, neither
    [.] nor [..]). *)
Inductive node :=
| File (data : string)
| Unreadable                               (* a regular file whose contents cannot be read *)
| Dir (entries : list (string * node))
| Unlistable.                              (* a directory whose entries cannot be listed *)

Definition IsDir (n : node) : bool :=
  match n with
  | Dir _ | Unlistable => true
  | File _ | Unreadable => false
  end.

(** An [fs.FS]: a tree, seen from the directory [dir] of it ([.] for the
    tree itself, anything else for the result of [Sub]). *)
Record FS := { tree : node; dir : string }.

Definition validElem (e : string) : bool :=
  negb (String.eqb e "") && negb (String.eqb e ".") && negb (String.eqb e "..").

Definition ValidPath (name : string) : bool :=
  utf8.ValidString name &&
  (String.eqb name "." || forallb validElem (strs.Split strs.slash name)).

(** [path.Join] of two valid paths. *)
Definition Join (a b : string) : string :=
  if String.eqb a "." then b
  else if String.eqb b "." then a
  else a +:+ "/" +:+ b.

Definition elements (p : string) : list string :=
  if String.eqb p "." then [] else strs.Split strs.slash p.

Fixpoint assoc (k : string) (es : list (string * node)) : option node :=
  match es with
  | [] => None
  | (k', n) :: r => if String.eqb k k' then Some n else assoc k r
  end.

Fixpoint lookup (elems : list string) (n : node) : option node :=
  match elems with
  | [] => Some n
  | e :: r =>
      match n with
      | Dir es => match assoc e es with
                  | Some c => lookup r c
                  | None => None
                  end
      | _ => None
      end
  end.

(** [fs.Sub]: no access to the tree, only the name is checked.  The cause
    in the error for a name that is not valid is [invalid name] up to Go
    1.20 and [invalid argument] from Go 1.21 on; no property below depends
    on it. *)
Definition Sub (fsys : FS) (d : string) : outcome FS :=
  if negb (ValidPath d) then Err (PathError "sub" d "invalid name")
  else if String.eqb d "." then Ok fsys
  else Ok {| tree := tree fsys; dir := Join (dir fsys) d |}.

(** The node that [name] denotes in [fsys]. *)
Definition open (op : string) (fsys : FS) (name : string) : outcome node :=
  if negb (ValidPath name) then Err (PathError op name "invalid argument")
  else match lookup (elements (Join (dir fsys) name)) (tree fsys) with
       | Some n => Ok n
       | None => Err (PathError op name "file does not exist")
       end.

(** [fs.Stat]: the filesystem that [Sub] returns has no Stat method, so
    the file is opened, and an error is the error of that. *)
Definition Stat (fsys : FS) (name : string) : outcome node :=
  open (if String.eqb (dir fsys) "." then "stat" else "open") fsys name.

(** [fs.ReadDir]: the entries sorted by name. *)
Definition ReadDir (fsys : FS) (name : string)
  : outcome (list (string * node)) :=
  n ← open "open" fsys name;
  match n with
  | Dir es => Ok (strs.sort_by_key es)
  | Unlistable => Err (PathError "readdir" name "input/output error")
  | _ => Err (PathError "readdir" name "not implemented")
  end.

Definition ReadFile (fsys : FS) (name : string) : outcome string :=
  n ← open "open" fsys name;
  match n with
  | File data => Ok data
  | Unreadable => Err (PathError "read" name "input/output error")
  | _ => Err (PathError "read" name "is a directory")
  end.

(** A [WalkDirFunc] closing over a state [S]: the path, the entry (absent,
    or whether it is a directory), the error reported to it. *)
Definition WalkDirFunc (S : Type) : Type :=
  string -> option bool -> option error -> S -> S * outcome unit.

(** The loop of [walkDir] over the walks of the entries. *)
Fixpoint walkEntries {S} (ws : list (string * (S -> (S * list event) * outcome unit)))
    (s : S) : (S * list event) * outcome unit :=
  match ws with
  | [] => ((s, []), Ok tt)
  | (_, w) :: r =>
      match w s with
      | ((s1, evs1), Ok _) =>
          let '((s2, evs2), res) := walkEntries r s1 in
          ((s2, (evs1 ++ evs2)%list), res)
      | other => other
      end
  end.

(** [walkDir]: the callback on the entry itself, then for a directory the
    entries in the order of [ReadDir]; a failing [ReadDir] is reported to
    the callback in a second call.  The callbacks of this package never
    answer [SkipDir] or [SkipAll]. *)
Fixpoint walkDir {S} (fn : WalkDirFunc S) (name : string) (n : node) (s : S)
    {struct n} : (S * list event) * outcome unit :=
  match fn name (Some (IsDir n)) None s with
  | (s1, Ok _) =>
      match n with
      | File _ | Unreadable => ((s1, []), Ok tt)
      | Unlistable =>
          let '(s2, res) :=
            fn name (Some true)
               (Some (PathError "readdir" name "input/output error")) s1 in
          ((s2, [EvReadDir name]), res)
      | Dir es =>
          let '((s2, evs), res) :=
            walkEntries
              (strs.sort_by_key
                 (map (fun e => (fst e, walkDir fn (Join name (fst e)) (snd e))) es))
              s1 in
          ((s2, EvReadDir name :: evs), res)
      end
  | (s1, res) => ((s1, []), res)
  end.

Definition WalkDir {S} (fsys : FS) (root : string) (fn : WalkDirFunc S) (s : S)
  : (S * list event) * outcome unit :=
  match Stat fsys root with
  | Ok n =>
      let '((s1, evs), res) := walkDir fn root n s in
      ((s1, EvStat root :: evs), res)
  | Err e =>
      let '(s1, res) := fn root None (Some e) s in
      ((s1, [EvStat root]), res)
  | Panic p => ((s, [EvStat root]), Panic p)
  | StackOverflow => ((s, [EvStat root]), StackOverflow)
  | Outside w => ((s, [EvStat root]), Outside w)
  end.

End fs.

(** ** text/template

    The part of the template language that the package's functions are
    made for: text, actions [{{ pipeline }}] whose commands are built from
    the dot, double-quoted ASCII strings without escapes and calls of the
    registered functions, and templates defined in a text with
    [{{define "name"}} ... {{end}}].  On this part the lexer and the parser
    do what those of the library do, errors included.  Where a text leaves
    it (fields, variables, numbers, control structures, [template] and
    [block], comments, trim markers, parentheses, the predefined functions,
    escapes and raw strings) they stop with [Outside]: the library goes on
    there, and the model says nothing about what it makes of the text. *)

Module tmpl.

(** *** Trees *)

Inductive operand :=
| DotNode
| StringNode (text : string)
| IdentifierNode (ident : string).

Definition CommandNode := list operand.
Definition PipeNode := list CommandNode.

Inductive Node :=
| TextNode (text : string)
| ActionNode (pipe : PipeNode).

Definition Tree := list Node.

(** *** Lexing *)

Inductive item :=
| itemText (text : string)
| itemLeftDelim
| itemRightDelim
| itemSpace
| itemDot
| itemPipe
| itemString (text : string)
| itemIdentifier (word : string)
| itemDefine
| itemEnd
| itemError (d : parse_diag)
| itemOutside (what : string).

Inductive lexState :=
| lexText (acc : string)
| lexInsideAction
| lexQuote (acc : string)
| lexIdentifier (acc : string).

Definition isSpace (c : ascii) : bool :=
  let n := N_of_ascii c in
  ((n =? 32) || (n =? 9) || (n =? 13) || (n =? 10))%N.

Definition isDigit (c : ascii) : bool := utf8.between 48 57 c.

Definition isAlphaNumeric (c : ascii) : bool :=
  utf8.between 95 95 c || utf8.between 65 90 c || utf8.between 97 122 c
  || isDigit c.

(** The input at a position where a word may end. *)
Definition atTerminator (s : string) : bool :=
  match s with
  | "" => true
  | String c _ =>
      isSpace c
      || existsb (Ascii.eqb c) ["."; ","; "|"; ":"; ")"; "("]%char
      || strs.HasPrefix "}}" s
  end.

Definition snoc (acc : string) (c : ascii) : string := acc +:+ String c "".

Definition emitText (acc : string) (rest : list item) : list item :=
  if String.eqb acc "" then rest else itemText acc :: rest.

(** The key words and the predefined functions that the model leaves
    out. *)
Definition reserved : list string :=
  ["block"; "break"; "continue"; "else"; "if"; "range";
   "nil"; "template"; "with"; "true"; "false";
   "and"; "call"; "html"; "index"; "slice"; "js"; "len"; "not"; "or";
   "print"; "printf"; "println"; "urlquery";
   "eq"; "ge"; "gt"; "le"; "lt"; "ne"].

Definition emitWord (w : string) : item :=
  if String.eqb w "define" then itemDefine
  else if String.eqb w "end" then itemEnd
  else if existsb (String.eqb w) reserved then itemOutside w
  else itemIdentifier w.

(** A byte that cannot follow a word or a dot is an error; what the
    library makes of a byte that is not ASCII, which may belong to a
    letter, and of a single closing brace, which older releases take for
    the end of the word, is left out. *)
Definition badCharacter (d : ascii) : item :=
  if (128 <=? N_of_ascii d)%N then itemOutside "non-ASCII"
  else if Ascii.eqb d "}" then itemOutside "}"
  else itemError (BadCharacter d).

(** The lexer, one byte at a time; it stops at the first error and at the
    first thing that the model leaves out. *)
Fixpoint lex (st : lexState) (s : string) : list item :=
  match st, s with
  | lexText acc, "" => emitText acc []
  | lexText acc, String c r =>
      if strs.HasPrefix "{{" s then
        match r with
        | String _ r' =>
            if strs.HasPrefix "-" r' || strs.HasPrefix "/*" r'
            then emitText acc [itemOutside "{{- or {{/*"]
            else emitText acc (itemLeftDelim :: lex lexInsideAction r')
        | "" => emitText acc []
        end
      else lex (lexText (snoc acc c)) r
  | lexInsideAction, "" => [itemError UnclosedAction]
  | lexInsideAction, String c r =>
      if strs.HasPrefix "}}" s then
        match r with
        | String _ r' => itemRightDelim :: lex (lexText "") r'
        | "" => []
        end
      else if isSpace c then
        if strs.HasPrefix "-}}" r
        then [itemOutside "-}}"]
        else itemSpace :: lex lexInsideAction r
      else if Ascii.eqb c "|" then itemPipe :: lex lexInsideAction r
      else if Ascii.eqb c strs.dquote then lex (lexQuote "") r
      else if Ascii.eqb c "." then
        match r with
        | "" => [itemOutside "number"]
        | String d _ =>
            if isDigit d then [itemOutside "number"]
            else if atTerminator r then itemDot :: lex lexInsideAction r
            else if isAlphaNumeric d then [itemOutside "field"]
            else [badCharacter d]
        end
      else if isDigit c then [itemOutside "number"]
      else if isAlphaNumeric c then
        if atTerminator r then emitWord (String c "") :: lex lexInsideAction r
        else match r with
             | String d _ =>
                 if isAlphaNumeric d then lex (lexIdentifier (String c "")) r
                 else [badCharacter d]
             | "" => [emitWord (String c "")]
             end
      else [itemOutside (String c "")]
  | lexQuote acc, "" => [itemError UnterminatedQuotedString]
  | lexQuote acc, String c r =>
      if Ascii.eqb c strs.dquote then itemString acc :: lex lexInsideAction r
      else if Ascii.eqb c "010" then [itemError UnterminatedQuotedString]
      else if Ascii.eqb c "\" then [itemOutside "escape"]
      else if (128 <=? N_of_ascii c)%N then [itemOutside "non-ASCII"]
      else lex (lexQuote (snoc acc c)) r
  | lexIdentifier acc, "" => [emitWord acc]
  | lexIdentifier acc, String c r =>
      if atTerminator r then emitWord (snoc acc c) :: lex lexInsideAction r
      else match r with
           | String d _ =>
               if isAlphaNumeric d then lex (lexIdentifier (snoc acc c)) r
               else [badCharacter d]
           | "" => [emitWord (snoc acc c)]
           end
  end.

(** *** Parsing *)

(** The command being read: its operands, and whether the last item was
    an operand, after which only a space, a pipe or the end may follow. *)
Definition pending := option (CommandNode * bool).

Definition close (cmds : PipeNode) (cur : pending) : PipeNode :=
  match cur with
  | Some (c, _) => (cmds ++ [c])%list
  | None => cmds
  end.

(** Only the first command of a pipeline may start with an operand that
    is not executable. *)
Fixpoint checkStages (stage : nat) (cmds : PipeNode) : option parse_diag :=
  match cmds with
  | [] => None
  | (DotNode :: _) :: _ | (StringNode _ :: _) :: _ => Some (NonExecutableCommand stage)
  | _ :: r => checkStages (S stage) r
  end.

Definition checkPipeline (pipe : PipeNode) : option parse_diag :=
  match pipe with
  | [] => Some MissingValueForCommand
  | _ :: r => checkStages 2 r
  end.

Definition fail {A} (name : string) (d : parse_diag) : outcome A :=
  Err (ParseError name d).

(** An operand is added to the command being read, or starts one; an
    identifier must name a registered function. *)
Definition operandOf (it : item) : option operand :=
  match it with
  | itemDot => Some DotNode
  | itemString text => Some (StringNode text)
  | itemIdentifier w => Some (IdentifierNode w)
  | _ => None
  end.

Definition defined (funcs : list string) (o : operand) : option parse_diag :=
  match o with
  | IdentifierNode w =>
      if existsb (String.eqb w) funcs then None else Some (FunctionNotDefined w)
  | _ => None
  end.

Definition addOperand (name : string) (funcs : list string) (cur : pending)
    (o : operand) : outcome pending :=
  match cur with
  | Some (_, true) => fail name UnexpectedInOperand
  | _ =>
      match defined funcs o with
      | Some d => fail name d
      | None =>
          match cur with
          | Some (c, _) => Ok (Some ((c ++ [o])%list, true))
          | None => Ok (Some ([o], true))
          end
      end
  end.

(** What an item does to the pipeline being read: it goes on, with the
    commands read and the command being read, or the right delimiter closes
    it. *)
Inductive stepped :=
| Continue (cmds : PipeNode) (cur : pending)
| Closed (pipe : PipeNode).

Definition pipeStep (name : string) (funcs : list string) (cmds : PipeNode)
    (cur : pending) (it : item) : outcome stepped :=
  match it with
  | itemRightDelim =>
      let pipe := close cmds cur in
      match checkPipeline pipe with
      | Some d => fail name d
      | None => Ok (Closed pipe)
      end
  | itemSpace =>
      match cur with
      | Some (c, _) => Ok (Continue cmds (Some (c, false)))
      | None => Ok (Continue cmds cur)
      end
  | itemPipe =>
      match cur with
      | Some (c, _) => Ok (Continue (cmds ++ [c])%list None)
      | None => fail name MissingCommand
      end
  | _ =>
      match operandOf it with
      | Some o => cur' ← addOperand name funcs cur o; Ok (Continue cmds cur')
      | None => fail name UnexpectedInOperand
      end
  end.

(** [parse.IsEmptyTree]: nothing but white space. *)
Definition IsEmptyTree (t : Tree) : bool :=
  forallb (fun n => match n with
                    | TextNode text => strs.allSpace 0 text
                    | ActionNode _ => false
                    end) t.

(** The trees of one text: the templates it defines and its own, by
    name. *)
Definition TreeSet := list (string * Tree).

Fixpoint treeOf (n : string) (set : TreeSet) : option Tree :=
  match set with
  | [] => None
  | (k, tr) :: r => if String.eqb n k then Some tr else treeOf n r
  end.

Fixpoint replace (n : string) (tr : Tree) (set : TreeSet) : TreeSet :=
  match set with
  | [] => []
  | (k, old) :: r => if String.eqb n k then (k, tr) :: r else (k, old) :: replace n tr r
  end.

(** [Tree.add]: a tree takes the place of an empty one of its name; two
    trees of one name that are not empty are an error of the text [name]. *)
Definition add (name : string) (n : string) (tr : Tree) (set : TreeSet)
  : outcome TreeSet :=
  match treeOf n set with
  | None => Ok (set ++ [(n, tr)])%list
  | Some old =>
      if IsEmptyTree old then Ok (replace n tr set)
      else if negb (IsEmptyTree tr) then fail name (MultipleDefinition n)
      else Ok set
  end.

(** Where the parser is in the text. *)
Inductive place :=
| inText                                       (* between actions *)
| atOpen                                       (* after a left delimiter *)
| inPipe (cmds : PipeNode) (cur : pending)     (* in the pipeline of an action *)
| inDefine (n : option string)                 (* after [define]; its name, once read *)
| inEnd.                                       (* after [end] *)

(** A node is appended to the definition being read, if there is one, and
    to the tree of the text otherwise. *)
Definition emit (main : Tree) (def : option (string * Tree)) (node : Node)
  : Tree * option (string * Tree) :=
  match def with
  | Some (d, body) => (main, Some (d, (body ++ [node])%list))
  | None => ((main ++ [node])%list, None)
  end.

(** The parser over the items of the text [name], with the names [funcs] of
    the registered functions: [set] holds the definitions read, [main] the
    nodes of the text itself, [def] the definition being read.  A [define]
    may stand at the top level only, and its [end] closes it; at the end of
    the text its own tree is added to the set. *)
Fixpoint parse (name : string) (funcs : list string) (set : TreeSet) (main : Tree)
    (def : option (string * Tree)) (at_ : place) (items : list item)
  : outcome TreeSet :=
  match items with
  | [] =>
      match at_, def with
      | inText, None => add name name main set
      | inText, Some _ => fail name UnexpectedEOF
      | _, _ => fail name UnclosedAction
      end
  | itemError d :: _ => fail name d
  | itemOutside w :: _ => Outside w
  | it :: r =>
      let step cmds cur :=
        match pipeStep name funcs cmds cur it with
        | Ok (Continue cmds' cur') => parse name funcs set main def (inPipe cmds' cur') r
        | Ok (Closed pipe) =>
            let '(main', def') := emit main def (ActionNode pipe) in
            parse name funcs set main' def' inText r
        | Err e => Err e
        | Panic p => Panic p
        | StackOverflow => StackOverflow
        | Outside w => Outside w
        end in
      match at_ with
      | inText =>
          match it with
          | itemText text =>
              let '(main', def') := emit main def (TextNode text) in
              parse name funcs set main' def' inText r
          | itemLeftDelim => parse name funcs set main def atOpen r
          | _ => fail name UnexpectedInOperand
          end
      | atOpen =>
          match it, def with
          | itemSpace, _ => parse name funcs set main def atOpen r
          | itemDefine, None => parse name funcs set main def (inDefine None) r
          | itemDefine, Some _ => fail name (Unexpected "define")
          | itemEnd, Some _ => parse name funcs set main def inEnd r
          | itemEnd, None => fail name (Unexpected "end")
          | _, _ => step [] None
          end
      | inPipe cmds cur => step cmds cur
      | inDefine None =>
          match it with
          | itemSpace => parse name funcs set main def at_ r
          | itemString n => parse name funcs set main def (inDefine (Some n)) r
          | _ => fail name (Unexpected "define clause")
          end
      | inDefine (Some n) =>
          match it with
          | itemSpace => parse name funcs set main def at_ r
          | itemRightDelim => parse name funcs set main (Some (n, [])) inText r
          | _ => fail name (Unexpected "define clause")
          end
      | inEnd =>
          match it, def with
          | itemSpace, _ => parse name funcs set main def inEnd r
          | itemRightDelim, Some (d, body) =>
              match add name d body set with
              | Ok set' => parse name funcs set' main None inText r
              | Err e => Err e
              | Panic p => Panic p
              | StackOverflow => StackOverflow
              | Outside w => Outside w
              end
          | _, _ => fail name (Unexpected "end")
          end
      end
  end.

(** [parse.Parse]: the trees of a text. *)
Definition parseTrees (name : string) (funcs : list string) (text : string)
  : outcome TreeSet :=
  parse name funcs [] [] None inText (lex (lexText "") text).

(** *** Template sets *)

(** A [*Template] with the namespace it shares with the templates
    associated with it: the names of the registered functions and the
    parsed trees by name. *)
Record Template := {
  name : string;
  parseFuncs : list string;
  common : gmap string Tree
}.

(** [template.New(name)] *)
Definition New (n : string) : Template :=
  {| name := n; parseFuncs := []; common := ∅ |}.

(** [t.Funcs(funcMap)], as far as parsing is concerned: the names. *)
Definition Funcs (t : Template) (names : list string) : Template :=
  {| name := name t; parseFuncs := (parseFuncs t ++ names)%list; common := common t |}.

(** [associate], called by [AddParseTree]: a tree is registered under its
    name, unless it is empty and the name already has one. *)
Definition associate (c : gmap string Tree) (entry : string * Tree) : gmap string Tree :=
  match c !! fst entry with
  | Some _ => if IsEmptyTree (snd entry) then c else <[fst entry := snd entry]> c
  | None => <[fst entry := snd entry]> c
  end.

(** [t.New(n).Parse(text)], as the namespace of [t] sees it: every tree of
    the text, the templates it defines and its own, is associated. *)
Definition Parse (t : Template) (n : string) (text : string) : outcome Template :=
  set ← parseTrees n (parseFuncs t) text;
  Ok {| name := name t; parseFuncs := parseFuncs t;
        common := fold_left associate set (common t) |}.

(** [t.Lookup(n)]: the template of that name, [None] for the nil pointer. *)
Definition Lookup (t : Template) (n : string) : option (string * Tree) :=
  match common t !! n with
  | Some tr => Some (n, tr)
  | None => None
  end.

(** *** Execution *)

(** The parameter types of the registered functions. *)
Inductive paramType := stringType | anyType.

(** A registered function: its parameter types and what a call does. *)
Record Func := { params : list paramType; impl : list value -> outcome value }.

Definition FuncMap := list (string * Func).

Fixpoint findFunction (fm : FuncMap) (fname : string) : option Func :=
  match fm with
  | [] => None
  | (n, f) :: r => if String.eqb fname n then Some f else findFunction r fname
  end.

(** [validateType]: the nil value fits an interface type only; a string
    parameter takes values of type string only. *)
Definition validateType (v : value) (typ : paramType) : outcome value :=
  match typ, v with
  | anyType, _ => Ok v
  | stringType, VString _ => Ok v
  | stringType, VNil => Err (InvalidValue "string")
  | stringType, _ => Err (WrongTypeForValue "string" (fmt.TypeOf v))
  end.

(** [safeCall] and the test of its error in [evalCall]: a panic of the
    function is recovered and becomes its error. *)
Definition safeCall (fname : string) (f : Func) (argv : list value) : outcome value :=
  match impl f argv with
  | Ok v => Ok v
  | Err e => Err (CallError fname e)
  | Panic p => Err (CallError fname (RuntimeError p))
  | StackOverflow => StackOverflow
  | Outside w => Outside w
  end.

(** A function named as an argument is called without arguments. *)
Definition evalFunctionNoArgs (fm : FuncMap) (fname : string) : outcome value :=
  match findFunction fm fname with
  | None => Err (NotADefinedFunction fname)
  | Some f =>
      if negb (0 =? length (params f))%nat
      then Err (WrongNumberOfArgs fname (length (params f)) 0)
      else safeCall fname f []
  end.

Definition evalArg (fm : FuncMap) (dot : value) (typ : paramType) (n : operand)
  : outcome value :=
  match n with
  | DotNode => validateType dot typ
  | IdentifierNode fname => v ← evalFunctionNoArgs fm fname; validateType v typ
  | StringNode text => Ok (VString text)
  end.

Fixpoint evalArgs (fm : FuncMap) (dot : value) (types : list paramType)
    (args : list operand) : outcome (list value) :=
  match args, types with
  | a :: r, typ :: ts =>
      v ← evalArg fm dot typ a; vs ← evalArgs fm dot ts r; Ok (v :: vs)
  | _, _ => Ok []
  end.

(** [evalCall]: [final] is the value piped in from the previous command,
    if there is one; it is the last argument. *)
Definition evalCall (fm : FuncMap) (dot : value) (fname : string)
    (args : list operand) (final : option value) : outcome value :=
  match findFunction fm fname with
  | None => Err (NotADefinedFunction fname)
  | Some f =>
      let numIn := (length args + match final with Some _ => 1 | None => 0 end)%nat in
      if negb (numIn =? length (params f))%nat
      then Err (WrongNumberOfArgs fname (length (params f)) numIn)
      else
        argv ← evalArgs fm dot (params f) args;
        last ← match final with
               | Some v =>
                   v' ← validateType v (nth (length args) (params f) anyType);
                   Ok [v']
               | None => Ok []
               end;
        safeCall fname f (argv ++ last)%list
  end.

Definition notAFunction (what : string) (args : list operand) (final : option value)
    (v : value) : outcome value :=
  match args, final with
  | [], None => Ok v
  | _, _ => Err (NotAFunction what)
  end.

Definition evalCommand (fm : FuncMap) (dot : value) (cmd : CommandNode)
    (final : option value) : outcome value :=
  match cmd with
  | [] => Panic IndexOutOfRange
  | IdentifierNode fname :: args => evalCall fm dot fname args final
  | DotNode :: args => notAFunction "." args final dot
  | StringNode text :: args => notAFunction text args final (VString text)
  end.

Fixpoint evalPipeline (fm : FuncMap) (dot : value) (pipe : PipeNode)
    (final : option value) : outcome (option value) :=
  match pipe with
  | [] => Ok final
  | cmd :: r => v ← evalCommand fm dot cmd final; evalPipeline fm dot r (Some v)
  end.

(** [printValue]: what an action writes for the value of its pipeline; a
    pointer is followed first. *)
Definition printValue (v : option value) : outcome string :=
  match v with
  | None | Some VNil => Ok "<no value>"
  | Some (VChan elem _) => Err (CannotPrint ("chan " +:+ elem))
  | Some (VFunc type _) => Err (CannotPrint type)
  | Some (VCyclic _ _ printed) => Ok printed
  | Some v => Ok (fmt.Sprint v)
  end.

(** [state.walk] over the nodes of a tree: the output goes to the buffer
    piece by piece, so what precedes a failure has been written. *)
Fixpoint walk (fm : FuncMap) (dot : value) (nodes : Tree) (wr : bytes.Buffer)
  : bytes.Buffer * outcome unit :=
  match nodes with
  | [] => (wr, Ok tt)
  | TextNode text :: r => walk fm dot r (fst (io.Write wr text))
  | ActionNode pipe :: r =>
      match v ← evalPipeline fm dot pipe None; printValue v with
      | Ok text => walk fm dot r (fst (io.Write wr text))
      | Err e => (wr, Err e)
      | Panic p => (wr, Panic p)
      | StackOverflow => (wr, StackOverflow)
      | Outside w => (wr, Outside w)
      end
  end.

(** [t.Execute(wr, data)] on the result of a [Lookup]: the nil pointer is
    dereferenced, and that panic is of the kind [errRecover] lets
    through; an execution error is an [ExecError] of the template. *)
Definition Execute (fm : FuncMap) (t : option (string * Tree)) (wr : bytes.Buffer)
    (data : value) : bytes.Buffer * outcome unit :=
  match t with
  | None => (wr, Panic NilPointerDereference)
  | Some (n, tr) =>
      match walk fm data tr wr with
      | (wr', Err e) => (wr', Err (ExecError n e))
      | other => other
      end
  end.

(** [t.ExecuteTemplate(wr, n, data)]: here the lookup is tested. *)
Definition ExecuteTemplate (fm : FuncMap) (t : Template) (wr : bytes.Buffer)
    (n : string) (data : value) : bytes.Buffer * outcome unit :=
  match Lookup t n with
  | None => (wr, Err (NoTemplateError n (name t)))
  | Some found => Execute fm (Some found) wr data
  end.

End tmpl.

(** ** Slices of strings and golang.org/x/exp/slices *)

Module slices.

(** The backing arrays allocated so far; the address of an array is its
    index, and an allocation never moves the arrays before it. *)
Abbreviation memory := (list (list string)).

(** A slice header: the backing array ([None] for the nil slice) and the
    length; the capacity is the length of the array. *)
Record slice := { array : option nat; len : nat }.

Definition nil : slice := {| array := None; len := 0 |}.

Definition backing (m : memory) (s : slice) : list string :=
  match array s with
  | Some a => default [] (m !! a)
  | None => []
  end.

Definition cap (m : memory) (s : slice) : nat := length (backing m s).

(** The elements [s[0]], ..., [s[len(s)-1]]. *)
Definition contents (m : memory) (s : slice) : list string :=
  take (len s) (backing m s).

Definition alloc (m : memory) (arr : list string) : memory * nat :=
  ((m ++ [arr])%list, length m).

(** [s[i] = v] *)
Definition store (m : memory) (s : slice) (i : nat) (v : string) : outcome memory :=
  match array s with
  | Some a =>
      if (i <? len s)%nat then Ok (<[a := <[i := v]> (backing m s)]> m)
      else Panic IndexOutOfRange
  | None => Panic IndexOutOfRange
  end.

(** [append(s, v)]: in place while the array has room, otherwise into a
    new, larger array.  (How much larger is not observable here.) *)
Definition append (m : memory) (s : slice) (v : string) : memory * slice :=
  match array s with
  | Some a =>
      if (len s <? cap m s)%nat then
        (<[a := <[len s := v]> (backing m s)]> m, {| array := Some a; len := S (len s) |})
      else
        let '(m', a') :=
          alloc m (contents m s ++ v :: replicate (len s) "")%list in
        (m', {| array := Some a'; len := S (len s) |})
  | None =>
      let '(m', a') := alloc m [v] in
      (m', {| array := Some a'; len := 1 |})
  end.

(** [slices.Clone]: nil for nil, otherwise [append(S([]E{}), s...)], a
    new array with the elements of [s]. *)
Definition Clone (m : memory) (s : slice) : memory * slice :=
  match array s with
  | None => (m, nil)
  | Some _ =>
      let '(m', a') := alloc m (contents m s) in
      (m', {| array := Some a'; len := len s |})
  end.

End slices.

(** * Package internal: template.go *)

(** ** The types *)

(** [TemplateBuilder]; the fields [logger], [fsys] and [dir] carry the
    prefix [b_] to keep them apart from those of [Template].  An interface
    field that is nil is [None]. *)
Record TemplateBuilder := {
  b_logger : logr.Logger;
  b_fsys : option fs.FS;
  b_dir : string
}.

Record Template := {
  logger : logr.Logger;
  names : slices.slice;
  template : tmpl.Template
}.

(** ** The builder *)

Definition NewTemplate : TemplateBuilder :=
  {| b_logger := logr.zero; b_fsys := None; b_dir := "" |}.

Definition SetLogger (b : TemplateBuilder) (value : logr.Logger) : TemplateBuilder :=
  {| b_logger := value; b_fsys := b_fsys b; b_dir := b_dir b |}.

Definition SetFS (b : TemplateBuilder) (value : option fs.FS) : TemplateBuilder :=
  {| b_logger := b_logger b; b_fsys := value; b_dir := b_dir b |}.

Definition SetDir (b : TemplateBuilder) (value : string) : TemplateBuilder :=
  {| b_logger := b_logger b; b_fsys := b_fsys b; b_dir := value |}.

(** ** The template functions *)

Definition base64Func (t : Template) (value : value) : outcome string :=
  data ← match value with
         | VBytes typed => Ok typed
         | VNilBytes => Ok ""
         | VString typed => Ok typed
         | VStringer _ str _ => Ok str
         | VNilStringer _ => Panic NilPointerDereference
         | _ => Err (DontKnowHowToEncode (fmt.TypeOf value))
         end;
  Ok (base64.EncodeToString data).

Definition jsonFunc (t : Template) (data : value) : outcome string :=
  text ← json.Marshal data;
  Ok text.

(** The function map registered by [Build], given what a call of
    [t.executeFunc] does.  The engine checks the number and the types of the
    arguments before it calls. *)
Definition funcMap (t : Template) (execute : string -> value -> outcome string)
  : tmpl.FuncMap :=
  [("base64",
    {| tmpl.params := [tmpl.anyType];
       tmpl.impl := fun argv =>
         match argv with
         | [v] => r ← base64Func t v; Ok (VString r)
         | _ => Err (WrongNumberOfArgs "base64" 1 (length argv))
         end |});
   ("execute",
    {| tmpl.params := [tmpl.stringType; tmpl.anyType];
       tmpl.impl := fun argv =>
         match argv with
         | [VString n; data] => r ← execute n data; Ok (VString r)
         | _ => Err (WrongNumberOfArgs "execute" 2 (length argv))
         end |});
   ("json",
    {| tmpl.params := [tmpl.anyType];
       tmpl.impl := fun argv =>
         match argv with
         | [v] => r ← jsonFunc t v; Ok (VString r)
         | _ => Err (WrongNumberOfArgs "json" 1 (length argv))
         end |})].

(** [executeFunc]: the result of the lookup is executed without a test.
    [stack] is the number of nested executions the goroutine stack still
    has room for: templates may execute each other without end. *)
Fixpoint executeFunc (stack : nat) (t : Template) (name : string) (data : value)
  : outcome string :=
  match stack with
  | O => StackOverflow
  | S stack' =>
      let buffer := bytes.empty in
      let executed := tmpl.Lookup (template t) name in
      let '(buffer, err) :=
        tmpl.Execute (funcMap t (executeFunc stack' t)) executed buffer data in
      _ ← err;
      Ok (bytes.String buffer)
  end.

(** ** Discovery and parsing *)

Definition setNames (t : Template) (s : slices.slice) : Template :=
  {| logger := logger t; names := s; template := template t |}.

Definition setTemplate (t : Template) (tm : tmpl.Template) : Template :=
  {| logger := logger t; names := names t; template := tm |}.

(** The function literal that [findFiles] hands to [fs.WalkDir]; it closes
    over [t], whose [names] live in memory. *)
Definition findFilesFunc : fs.WalkDirFunc (slices.memory * Template) :=
  fun name entry err '(m, t) =>
    match err with
    | Some e => ((m, t), Err e)
    | None =>
        match entry with
        | None => ((m, t), Panic NilPointerDereference)
        | Some true => ((m, t), Ok tt)
        | Some false =>
            let '(m', s) := slices.append m (names t) name in
            ((m', setNames t s), Ok tt)
        end
    end.

Definition findFiles (m : slices.memory) (t : Template) (fsys : fs.FS)
  : ((slices.memory * Template) * list event) * outcome unit :=
  fs.WalkDir fsys "." findFilesFunc (m, t).

Definition parseFile (t : Template) (fsys : fs.FS) (name : string)
  : (Template * list event) * outcome unit :=
  match fs.ReadFile fsys name with
  | Ok data =>
      let text := data in
      match tmpl.Parse (template t) name text with
      | Ok tm =>
          let detail := logr.V (logger t) 2 in
          ((setTemplate t tm,
            [EvReadFile name; EvParse name] ++
            (if logr.Enabled detail
             then logr.Info detail "Parsed template"
                    [("name", VString name); ("text", VString text)]
             else []))%list,
           Ok tt)
      | Err e => ((t, [EvReadFile name; EvParse name]), Err e)
      | Panic p => ((t, [EvReadFile name; EvParse name]), Panic p)
      | StackOverflow => ((t, [EvReadFile name; EvParse name]), StackOverflow)
      | Outside w => ((t, [EvReadFile name; EvParse name]), Outside w)
      end
  | Err e => ((t, [EvReadFile name]), Err e)
  | Panic p => ((t, [EvReadFile name]), Panic p)
  | StackOverflow => ((t, [EvReadFile name]), StackOverflow)
  | Outside w => ((t, [EvReadFile name]), Outside w)
  end.

(** The loop of [parseFiles] over the names it ranges over. *)
Fixpoint parseFilesLoop (t : Template) (fsys : fs.FS) (l : list string)
  : (Template * list event) * outcome unit :=
  match l with
  | [] => ((t, []), Ok tt)
  | name :: r =>
      match parseFile t fsys name with
      | ((t1, evs1), Ok _) =>
          let '((t2, evs2), err) := parseFilesLoop t1 fsys r in
          ((t2, (evs1 ++ evs2)%list), err)
      | other => other
      end
  end.

Definition parseFiles (m : slices.memory) (t : Template) (fsys : fs.FS)
  : (Template * list event) * outcome unit :=
  parseFilesLoop t fsys (slices.contents m (names t)).

(** ** Build *)

(** [Build], from the memory [m] it starts in: the memory it leaves, the
    effects in their order, and the template or the error. *)
Definition Build (m : slices.memory) (b : TemplateBuilder)
  : (slices.memory * list event) * outcome Template :=
  match logr.GetSink (b_logger b) with
  | None => ((m, []), Err (ErrorString "logger is mandatory"))
  | Some _ =>
      match b_fsys b with
      | None => ((m, []), Err (ErrorString "filesystem is mandatory"))
      | Some bfs =>
          match (if negb (String.eqb (b_dir b) "") then fs.Sub bfs (b_dir b) else Ok bfs) with
          | Ok fsys =>
              let t := {| logger := b_logger b;
                          names := slices.nil;
                          template := tmpl.Funcs (tmpl.New "") ["base64"; "execute"; "json"] |} in
              match findFiles m t fsys with
              | (((m1, t1), evs1), Ok _) =>
                  match parseFiles m1 t1 fsys with
                  | ((t2, evs2), Ok _) => ((m1, (evs1 ++ evs2)%list), Ok t2)
                  | ((_, evs2), Err e) => ((m1, (evs1 ++ evs2)%list), Err e)
                  | ((_, evs2), Panic p) => ((m1, (evs1 ++ evs2)%list), Panic p)
                  | ((_, evs2), StackOverflow) => ((m1, (evs1 ++ evs2)%list), StackOverflow)
                  | ((_, evs2), Outside w) => ((m1, (evs1 ++ evs2)%list), Outside w)
                  end
              | (((m1, _), evs1), Err e) => ((m1, evs1), Err e)
              | (((m1, _), evs1), Panic p) => ((m1, evs1), Panic p)
              | (((m1, _), evs1), StackOverflow) => ((m1, evs1), StackOverflow)
              | (((m1, _), evs1), Outside w) => ((m1, evs1), Outside w)
              end
          | Err e => ((m, []), Err e)
          | Panic p => ((m, []), Panic p)
          | StackOverflow => ((m, []), StackOverflow)
          | Outside w => ((m, []), Outside w)
          end
      end
  end.

(** ** Execute and Names *)

(** [Execute]: the writer after the call, the messages logged, and the
    error, if any. *)
Definition Execute {W} `{io.Writer W} (stack : nat) (t : Template) (writer : W)
    (name : string) (data : value) : (W * list event) * outcome unit :=
  let buffer := bytes.empty in
  let '(buffer, err) :=
    tmpl.ExecuteTemplate (funcMap t (executeFunc stack t)) (template t) buffer name data in
  match err with
  | Ok _ =>
      let '((buffer, writer), err) := bytes.WriteTo buffer writer in
      match err with
      | Ok _ =>
          let detail := logr.V (logger t) 2 in
          ((writer,
            if logr.Enabled detail
            then logr.Info detail "Executed template"
                   [("name", VString name); ("data", data);
                    ("text", VString (bytes.String buffer))]
            else []),
           Ok tt)
      | other => ((writer, []), other)
      end
  | other => ((writer, []), other)
  end.

Definition Names (m : slices.memory) (t : Template) : slices.memory * slices.slice :=
  slices.Clone m (names t).

(** * Notions used to state the properties *)

(** The rendering step of [Execute]: its call of [ExecuteTemplate] into the
    buffer it has just created. *)
Definition rendered (stack : nat) (t : Template) (name : string) (data : value)
  : bytes.Buffer * outcome unit :=
  tmpl.ExecuteTemplate (funcMap t (executeFunc stack t)) (template t) bytes.empty name data.

(** The names of the functions that [Build] registers, and the tree that a
    text compiles to under them. *)
Definition registered : list string := ["base64"; "execute"; "json"].

Definition compile (name text : string) : outcome tmpl.Tree :=
  set ← tmpl.parseTrees name registered text;
  Ok (default [] (tmpl.treeOf name set)).

(** A builder is configured by a sequence of calls of its setters on the
    result of [NewTemplate]. *)
Inductive setter :=
| CallSetLogger (value : logr.Logger)
| CallSetFS (value : option fs.FS)
| CallSetDir (value : string).

Definition call (b : TemplateBuilder) (c : setter) : TemplateBuilder :=
  match c with
  | CallSetLogger value => SetLogger b value
  | CallSetFS value => SetFS b value
  | CallSetDir value => SetDir b value
  end.

Definition configure (calls : list setter) : TemplateBuilder :=
  fold_left call calls NewTemplate.

Definition setsLogger (c : setter) : bool :=
  match c with CallSetLogger _ => true | _ => false end.

Definition setsFS (c : setter) : bool :=
  match c with CallSetFS _ => true | _ => false end.

(** A destination with room for [room] more bytes: it takes what fits and
    reports an error when something is left over (a full disk, a pipe that
    closes). *)
Record LimitedWriter := { taken : string; room : nat }.

#[global] Instance LimitedWriter_Writer : io.Writer LimitedWriter :=
  fun w p =>
    if (String.length p <=? room w)%nat
    then ({| taken := taken w +:+ p; room := room w - String.length p |},
          (String.length p, None))
    else ({| taken := taken w +:+ strs.take (room w) p; room := 0 |},
          (room w, Some (WriteError "no space left on device"))).

(** The filesystem that [Build] discovers and parses: the one of the
    builder, narrowed to its directory when one is set; and the template it
    starts from. *)
Definition effective (bfs : fs.FS) (dir : string) : outcome fs.FS :=
  if negb (String.eqb dir "") then fs.Sub bfs dir else Ok bfs.

Definition initial (l : logr.Logger) : Template :=
  {| logger := l; names := slices.nil;
     template := tmpl.Funcs (tmpl.New "") registered |}.

(** The events of discovery, and the events about one file. *)
Definition walks (ev : event) : Prop :=
  match ev with
  | EvStat _ | EvReadDir _ => True
  | _ => False
  end.

Definition about (l : list string) (ev : event) : Prop :=
  match ev with
  | EvReadFile n | EvParse n => n ∈ l
  | EvInfo _ _ => True
  | _ => False
  end.


(** Base64 decoding after RFC 4648: a character of the alphabet stands for
    its index, four characters for the three bytes whose 24 bits are their
    four times 6 bits; a last group may end in one or two padding
    characters and stands for two bytes or one. *)
Module rfc4648.

Fixpoint indexOf (c : ascii) (s : string) : option N :=
  match s with
  | "" => None
  | String d r => if Ascii.eqb c d then Some 0%N else N.succ <$> indexOf c r
  end.

Definition valueOf (c : ascii) : option N := indexOf c base64.encodeStd.

Definition first (s0 s1 : N) : ascii := ascii_of_N (s0 * 4 + s1 / 16).
Definition second (s1 s2 : N) : ascii := ascii_of_N (s1 mod 16 * 16 + s2 / 4).
Definition third (s2 s3 : N) : ascii := ascii_of_N (s2 mod 4 * 64 + s3).

Fixpoint Decode (s : string) : option string :=
  match s with
  | "" => Some ""
  | String c0 (String c1 (String c2 (String c3 rest))) =>
      s0 ← valueOf c0;
      s1 ← valueOf c1;
      if Ascii.eqb c3 "=" then
        if negb (String.eqb rest "") then None
        else if Ascii.eqb c2 "=" then Some (String (first s0 s1) "")
        else s2 ← valueOf c2; Some (String (first s0 s1) (String (second s1 s2) ""))
      else
        s2 ← valueOf c2;
        s3 ← valueOf c3;
        r ← Decode rest;
        Some (String (first s0 s1) (String (second s1 s2) (String (third s2 s3) r)))
  | _ => None
  end.

End rfc4648.

(** The values that have a JSON encoding: those without a channel, a
    function or a cycle in them. *)
Fixpoint serializable (v : value) : bool :=
  match v with
  | VChan _ _ | VFunc _ _ | VCyclic _ _ _ => false
  | VStringer _ _ repr => serializable repr
  | VList l => forallb serializable l
  | VMap m => forallb (fun kv => serializable (snd kv)) m
  | _ => true
  end.

(** The grammar of JSON texts (RFC 8259), in the compact form without white
    space and with integers for numbers. *)
Module grammar.

Definition isDigit (c : ascii) : bool := utf8.between 48 57 c.

Definition isHex (c : ascii) : bool :=
  utf8.between 48 57 c || utf8.between 97 102 c || utf8.between 65 70 c.

(** A character that stands for itself in a string: not a control
    character, not the quote, not the backslash. *)
Definition unescaped (c : ascii) : bool :=
  (32 <=? N_of_ascii c)%N && negb (Ascii.eqb c strs.dquote) && negb (Ascii.eqb c "\").

(** A character that may follow a backslash. *)
Definition escapable (c : ascii) : bool :=
  existsb (Ascii.eqb c) [strs.dquote; "\"; "/"; "b"; "f"; "n"; "r"; "t"]%char.

(** The characters between the quotes of a string. *)
Inductive Chars : string -> Prop :=
| chars_end : Chars ""
| chars_plain c s : unescaped c = true -> Chars s -> Chars (String c s)
| chars_escape c s : escapable c = true -> Chars s -> Chars (String "\" (String c s))
| chars_unicode h1 h2 h3 h4 s :
    isHex h1 && isHex h2 && isHex h3 && isHex h4 = true ->
    Chars s ->
    Chars (String "\" (String "u" (String h1 (String h2 (String h3 (String h4 s)))))).

(** A natural number: a single zero, or digits that do not start with a
    zero; an integer: a natural number, possibly after a minus sign. *)
Definition isNat (s : string) : bool :=
  match s with
  | "" => false
  | String c r =>
      if Ascii.eqb c "0" then String.eqb r "" else isDigit c && strs.all isDigit r
  end.

Definition isInt (s : string) : bool :=
  match s with
  | String c r => if Ascii.eqb c "-" then isNat r else isNat s
  | "" => false
  end.

Definition member (kv : string * string) : string :=
  strs.quoted (fst kv) +:+ ":" +:+ snd kv.

Inductive Text : string -> Prop :=
| text_null : Text "null"
| text_true : Text "true"
| text_false : Text "false"
| text_number s : isInt s = true -> Text s
| text_string s : Chars s -> Text (strs.quoted s)
| text_array xs : Forall Text xs -> Text ("[" +:+ strs.Join "," xs +:+ "]")
| text_object kvs :
    Forall (fun kv => Chars (fst kv)) kvs ->
    Forall (fun kv => Text (snd kv)) kvs ->
    Text ("{" +:+ strs.Join "," (map member kvs) +:+ "}").

End grammar.

(** The first [n] bytes of [s], as far as there are any, are not ASCII. *)
Fixpoint high (n : nat) (s : string) : Prop :=
  match n, s with
  | S n', String c r => (128 <=? N_of_ascii c)%N = true /\ high n' r
  | _, _ => True
  end.

(** A slice header that fits the memory: its array is allocated and is at
    least as long as the slice. *)
Definition fits (m : slices.memory) (s : slices.slice) : Prop :=
  match slices.array s with
  | Some a => exists arr, m !! a = Some arr /\ slices.len s <= length arr
  | None => slices.len s = 0
  end.

(** What a caller can do to a slice it holds: assign to an element, or
    append, which gives it a new header. *)
Inductive mutation :=
| Assign (i : nat) (v : string)
| Append (v : string).

Fixpoint mutate (m : slices.memory) (s : slices.slice) (ops : list mutation)
  : slices.memory * slices.slice :=
  match ops with
  | [] => (m, s)
  | Assign i v :: r =>
      match slices.store m s i v with
      | Ok m' => mutate m' s r
      | _ => (m, s)
      end
  | Append v :: r =>
      let '(m', s') := slices.append m s v in mutate m' s' r
  end.

(** A path element that can name a directory entry. *)
Definition isElem (e : string) : bool :=
  fs.validElem e && negb (strs.Contains strs.slash e).

(** The trees that a filesystem can present: the entries of a directory
    have names that are path elements, each name once. *)
Inductive wellFormed : fs.node -> Prop :=
| wf_File data : wellFormed (fs.File data)
| wf_Unreadable : wellFormed fs.Unreadable
| wf_Unlistable : wellFormed fs.Unlistable
| wf_Dir es :
    NoDup (map fst es) ->
    Forall (fun e => isElem (fst e) = true) es ->
    Forall (fun e => wellFormed (snd e)) es ->
    wellFormed (fs.Dir es).

(** The regular files reachable from a node, each by the names of the
    entries that lead to it. *)
Inductive regular : fs.node -> list string -> Prop :=
| regular_here n : fs.IsDir n = false -> regular n []
| regular_below es e c p : (e, c) ∈ es -> regular c p -> regular (fs.Dir es) (e :: p).

(** The path, relative to the root, that has these elements. *)
Definition relpath (elems : list string) : string :=
  match elems with
  | [] => "."
  | _ => strs.Join "/" elems
  end.

(** The path that the walk computes on its way from [name] through the
    entries [elems]. *)
Fixpoint pathFrom (name : string) (elems : list string) : string :=
  match elems with
  | [] => name
  | e :: p => pathFrom (fs.Join name e) p
  end.

(** The regular files below a node in the order of a walk: depth first,
    the entries of a directory by ascending name. *)
Fixpoint filesBelow (n : fs.node) : list (list string) :=
  match n with
  | fs.File _ | fs.Unreadable => [[]]
  | fs.Unlistable => []
  | fs.Dir es =>
      concat
        (map snd
           (strs.sort_by_key
              (map (fun e => (fst e, map (cons (fst e)) (filesBelow (snd e)))) es)))
  end.

(** What the walk of a node that starts at [name] adds to the names, when
    it succeeds. *)
Definition records (name : string) (n : fs.node) : Prop :=
  forall m t m' t' evs,
    fits m (names t) ->
    fs.walkDir findFilesFunc name n (m, t) = (((m', t'), evs), Ok tt) ->
    fits m' (names t') /\
    slices.contents m' (names t')
    = (slices.contents m (names t) ++ map (pathFrom name) (filesBelow n))%list.


(** An example: a logger with a sink, a source tree, its builder and the
    template built from it in the empty memory. *)
Module example.

Definition log : logr.Logger :=
  {| logr.sink := Some {| logr.verbosity := 0 |}; logr.level := 0 |}.

Definition source : fs.node :=
  fs.Dir
    [("outer.tmpl",
     fs.File ("{{ execute " +:+ strs.quoted "inner.tmpl" +:+ " . | base64 }}"));
     ("inner.tmpl", fs.File "hi");
     ("lib",
      fs.Dir
        [("json.tmpl", fs.File "{{ json . }}");
         ("hello.tmpl", fs.File ("{{ base64 " +:+ strs.quoted "hello" +:+ " }}"));
         ("missing.tmpl",
         fs.File ("before {{ execute " +:+ strs.quoted "nowhere.tmpl" +:+ " . }}"))])].

Definition builder : TemplateBuilder :=
  SetFS (SetLogger NewTemplate log) (Some {| fs.tree := source; fs.dir := "." |}).

Definition built : Template :=
  match snd (Build [] builder) with
  | Ok t => t
  | _ => {| logger := log; names := slices.nil; template := tmpl.New "" |}
  end.

Definition memory : slices.memory := fst (fst (Build [] builder)).

(** A source whose second file does not compile. *)
Definition broken : fs.node :=
  fs.Dir
    [("a.tmpl", fs.File "fine {{ . }}");
     ("b.tmpl", fs.File "{{ nope }}");
     ("c.tmpl", fs.File "never read")].

Definition brokenBuilder : TemplateBuilder :=
  SetFS (SetLogger NewTemplate log) (Some {| fs.tree := broken; fs.dir := "." |}).

End example.

(** ** Notions for the further properties *)

(** The events of parsing: reading a file, compiling it, logging it. *)
Definition parses (ev : event) : Prop :=
  match ev with
  | EvReadFile _ | EvParse _ | EvInfo _ _ => True
  | _ => False
  end.

(** The message that [Execute] logs for a unit and an input. *)
Definition executed (name : string) (data : value) (text : string) : event :=
  EvInfo "Executed template"
    [("name", VString name); ("data", data); ("text", VString text)].

(** The message that [parseFile] logs for a file. *)
Definition parsed (name text : string) : event :=
  EvInfo "Parsed template" [("name", VString name); ("text", VString text)].

(** Detail logging, the level at which the package logs, is on. *)
Definition detailed (l : logr.Logger) : bool := logr.Enabled (logr.V l 2).

(** An outcome that a deeper stack can only complete: it is a stack
    overflow, or it is the other outcome. *)
Definition below {A} (o o' : outcome A) : Prop := o = StackOverflow \/ o = o'.

(** Function maps with the same functions, those of the first one below
    those of the second. *)
Definition approximates (fm fm' : tmpl.FuncMap) : Prop :=
  Forall2 (fun f f' =>
             fst f = fst f' /\
             tmpl.params (snd f) = tmpl.params (snd f') /\
             forall argv, below (tmpl.impl (snd f) argv) (tmpl.impl (snd f') argv))
    fm fm'.

(** Two filesystems in which every path denotes the same. *)
Definition sameFiles (f1 f2 : fs.FS) : Prop :=
  forall op name, fs.open op f1 name = fs.open op f2 name.

(** The node of the builder's filesystem that is the root of the build: the
    one its directory denotes, when one is set. *)
Definition rootOf (bfs : fs.FS) (dir : string) : option fs.node :=
  fs.lookup
    (fs.elements (if String.eqb dir "" then fs.dir bfs else fs.Join (fs.dir bfs) dir))
    (fs.tree bfs).

(** The directory of a builder is usable: none is set, or it is a valid
    path. *)
Definition usable (dir : string) : bool := String.eqb dir "" || fs.ValidPath dir.

(** The node and everything below it can be walked: no directory refuses
    to list its entries. *)
Fixpoint listable (n : fs.node) : bool :=
  match n with
  | fs.Dir es => forallb (fun e => listable (snd e)) es
  | fs.Unlistable => false
  | _ => true
  end.

(** The error of a directory that cannot be listed. *)
Definition is_ReadDirError (e : error) : Prop :=
  exists path, e = PathError "readdir" path "input/output error".

(** What parsing one file does, as far as reading it succeeds: it is read,
    compiled and, with detail logging, logged with its text. *)
Definition fileEvents (l : logr.Logger) (fsys : fs.FS) (name : string) : list event :=
  match fs.ReadFile fsys name with
  | Ok text =>
      [EvReadFile name; EvParse name] ++
      (if detailed l then [parsed name text] else [])
  | _ => [EvReadFile name]
  end.

(** Sources with a file that cannot be read and with a directory that
    cannot be listed. *)
Module damaged.

Definition unreadable : fs.node :=
  fs.Dir
    [("a.tmpl", fs.File "fine {{ . }}");
     ("b.tmpl", fs.Unreadable);
     ("c.tmpl", fs.File "never read")].

Definition unlistable : fs.node :=
  fs.Dir
    [("a.tmpl", fs.File "fine {{ . }}");
     ("locked", fs.Unlistable);
     ("z.tmpl", fs.File "{{ nope }}")].

Definition builder (n : fs.node) : TemplateBuilder :=
  SetFS (SetLogger NewTemplate example.log) (Some {| fs.tree := n; fs.dir := "." |}).

End damaged.


(** A name that can stand between double quotes in an action, in the
    part of the language that is modelled: ASCII, without quote, backslash
    or newline. *)
Definition quotable (s : string) : bool :=
  strs.all (fun c => negb (Ascii.eqb c strs.dquote) && negb (Ascii.eqb c "010")
                     && negb (Ascii.eqb c "\") && (N_of_ascii c <? 128)%N) s.

(** The body of a unit that executes the unit [name] on its own input,
    and pipes the result into the function [pipe], if one is given. *)
Definition executes (name : string) (pipe : string) : string :=
  "{{ execute " +:+ strs.quoted name +:+ " ." +:+ pipe +:+ " }}".

(** A source whose units execute each other, and the template built from
    it. *)
Module nested.

Definition source : fs.node :=
  fs.Dir
    [("inner.tmpl", fs.File "a<b");
     ("plain.tmpl", fs.File (executes "inner.tmpl" ""));
     ("base64.tmpl", fs.File (executes "inner.tmpl" " | base64"));
     ("json.tmpl", fs.File (executes "inner.tmpl" " | json"));
     ("loop.tmpl", fs.File (executes "loop.tmpl" ""));
     ("encode.tmpl", fs.File "{{ base64 . }}");
     ("marshal.tmpl", fs.File "{{ json . }}")].

Definition builder : TemplateBuilder :=
  SetFS (SetLogger NewTemplate example.log) (Some {| fs.tree := source; fs.dir := "." |}).

Definition built : Template :=
  match snd (Build [] builder) with
  | Ok t => t
  | _ => initial example.log
  end.

End nested.

(** Reading the characters of a JSON string (RFC 8259, section 7): a
    character stands for itself, a two-character escape for its character,
    and [\uXXXX] for the UTF-8 encoding of the code point with that
    number. *)
Module rfc8259.

Definition hexValue (c : ascii) : option N :=
  let n := N_of_ascii c in
  if utf8.between 48 57 c then Some (n - 48)%N
  else if utf8.between 97 102 c then Some (n - 87)%N
  else if utf8.between 65 70 c then Some (n - 55)%N
  else None.

(** The UTF-8 encoding of a code point below 0x10000. *)
Definition encodeRune (cp : N) : string :=
  if (cp <? 128)%N then String (ascii_of_N cp) ""
  else if (cp <? 2048)%N then
    String (ascii_of_N (192 + cp / 64)) (String (ascii_of_N (128 + cp mod 64)) "")
  else
    String (ascii_of_N (224 + cp / 4096))
      (String (ascii_of_N (128 + cp / 64 mod 64))
         (String (ascii_of_N (128 + cp mod 64)) "")).

Definition unescapeChar (c : ascii) : option ascii :=
  if Ascii.eqb c strs.dquote then Some strs.dquote
  else if Ascii.eqb c "\" then Some "\"%char
  else if Ascii.eqb c "/" then Some "/"%char
  else if Ascii.eqb c "b" then Some "008"%char
  else if Ascii.eqb c "f" then Some "012"%char
  else if Ascii.eqb c "n" then Some "010"%char
  else if Ascii.eqb c "r" then Some "013"%char
  else if Ascii.eqb c "t" then Some "009"%char
  else None.

Fixpoint Unescape (s : string) : option string :=
  match s with
  | "" => Some ""
  | String c r =>
      if Ascii.eqb c "\" then
        match r with
        | String e r' =>
            if Ascii.eqb e "u" then
              match r' with
              | String h1 (String h2 (String h3 (String h4 r''))) =>
                  v1 ← hexValue h1;
                  v2 ← hexValue h2;
                  v3 ← hexValue h3;
                  v4 ← hexValue h4;
                  rest ← Unescape r'';
                  Some (encodeRune (((v1 * 16 + v2) * 16 + v3) * 16 + v4) +:+ rest)
              | _ => None
              end
            else
              ch ← unescapeChar e;
              rest ← Unescape r';
              Some (String ch rest)
        | "" => None
        end
      else if grammar.unescaped c then rest ← Unescape r; Some (String c rest)
      else None
  end.

End rfc8259.

(** The UTF-8 encoding of U+FFFD, the replacement character. *)
Definition replacement : string :=
  String (ascii_of_N 239) (String (ascii_of_N 191) (String (ascii_of_N 189) "")).

(** A Go string coerced to valid UTF-8: every byte that is not part of the
    encoding of a character gives way to the replacement character.  [pass]
    bytes of a character are still to be stepped over. *)
Fixpoint replaced (pass : nat) (s : string) : string :=
  match s with
  | "" => ""
  | String c r =>
      match pass with
      | S p => String c (replaced p r)
      | O =>
          if (N_of_ascii c <? 128)%N then String c (replaced O r)
          else match utf8.DecodeRuneSize s with
               | Some size => String c (replaced (size - 1) r)
               | None => replacement +:+ replaced O r
               end
      end
  end.

(** The values of JSON (RFC 8259, section 3), with integers for numbers. *)
Inductive jvalue :=
| JNull
| JBool (b : bool)
| JNumber (z : Z)
| JString (s : string)
| JArray (elems : list jvalue)
| JObject (members : list (string * jvalue)).

(** The integer that a decimal numeral stands for. *)
Definition numberOf (s : string) : option Z :=
  Z.of_int <$> DecimalString.NilZero.int_of_string s.

(** What a JSON text denotes: the literals their values, a numeral its
    integer, a string the characters it reads as, an array the values of
    its elements in order, an object its members in order, each with the
    name its string reads as. *)
Inductive Denotes : string -> jvalue -> Prop :=
| denotes_null : Denotes "null" JNull
| denotes_true : Denotes "true" (JBool true)
| denotes_false : Denotes "false" (JBool false)
| denotes_number s z :
    grammar.isInt s = true -> numberOf s = Some z -> Denotes s (JNumber z)
| denotes_string body s :
    grammar.Chars body -> rfc8259.Unescape body = Some s ->
    Denotes (strs.quoted body) (JString s)
| denotes_array xs js :
    Forall2 Denotes xs js ->
    Denotes ("[" +:+ strs.Join "," xs +:+ "]") (JArray js)
| denotes_object (kvs : list (string * string)) (ms : list (string * jvalue)) :
    Forall (fun kv => grammar.Chars (fst kv)) kvs ->
    Forall2 (fun kv m =>
               rfc8259.Unescape (fst kv) = Some (fst m) /\ Denotes (snd kv) (snd m))
      kvs ms ->
    Denotes ("{" +:+ strs.Join "," (map grammar.member kvs) +:+ "}") (JObject ms).

(** The JSON value that a Go value stands for, when it has one, after the
    documentation of [json.Marshal]: what is nil is null; a string is the
    string coerced to valid UTF-8; a byte slice is the string of its Base64
    encoding; a value of a defined type is its underlying data; a slice is
    the array of its elements; a map is the object of its entries, by
    ascending key. *)
Fixpoint meaning (v : value) : jvalue :=
  match v with
  | VBool b => JBool b
  | VInt z => JNumber z
  | VString s => JString (replaced 0 s)
  | VBytes s => JString (base64.EncodeToString s)
  | VStringer _ _ repr => meaning repr
  | VList l => JArray (map meaning l)
  | VMap m =>
      JObject
        (map (fun km => (replaced 0 (fst km), snd km))
           (strs.sort_by_key (map (fun kv => (fst kv, meaning (snd kv))) m)))
  | _ => JNull
  end.

(** The outcomes of encoding a value: a JSON text that denotes what the
    value stands for, or an error of serialization. *)
Definition encoded (v : value) (o : outcome string) : Prop :=
  exists text, o = Ok text /\ grammar.Text text /\ Denotes text (meaning v).

Definition refused {A} (o : outcome A) : Prop :=
  exists e, o = Err e /\ is_SerializationError e.

(** The template with another logger. *)
Definition relog (l : logr.Logger) (t : Template) : Template :=
  {| logger := l; names := names t; template := template t |}.

(** The effects without the messages logged. *)
Definition isInfo (ev : event) : bool :=
  match ev with
  | EvInfo _ _ => true
  | _ => false
  end.

Definition quiet (evs : list event) : list event :=
  List.filter (fun ev => negb (isInfo ev)) evs.

(** The result of a walk, with its state seen through [f]. *)
Definition through {S S' : Type} (f : S -> S')
    (r : (S * list event) * outcome unit) : (S' * list event) * outcome unit :=
  ((f (fst (fst r)), snd (fst r)), snd r).

(** A parsed unit: the tree that one of the files has for the name [k],
    which is its own name or the name of a template that it defines. *)
Definition parsedUnit (fsys : fs.FS) (files : list string) (k : string)
    (tr : tmpl.Tree) : Prop :=
  exists file text set,
    file ∈ files /\
    fs.ReadFile fsys file = Ok text /\
    tmpl.parseTrees file registered text = Ok set /\
    (k, tr) ∈ set.

(** A source whose one file defines a template and has no text of its
    own. *)
Module defining.

Definition source : fs.node :=
  fs.Dir [("a.tmpl", fs.File ("{{define " +:+ strs.quoted "foo" +:+ "}}bar{{end}}"))].

Definition builder : TemplateBuilder :=
  SetFS (SetLogger NewTemplate example.log) (Some {| fs.tree := source; fs.dir := "." |}).

End defining.

(** The guarantee "a file that does not compile makes the build fail with
    a syntax error", for the build of a source by a configured builder. *)
Definition syntax_error_wins (n : fs.node) : Prop :=
  (exists p text,
     fs.lookup p n = Some (fs.File text) /\ exists e, compile (relpath p) text = Err e) ->
  exists e,
    snd (Build [] (damaged.builder n)) = Err e /\ is_TemplateSyntaxError e.

(** * Properties *)

(** ** The builder's checks (C5, C10) *)

Lemma configure_snoc calls c : configure (calls ++ [c]) = call (configure calls) c.
Proof. unfold configure. by rewrite fold_left_app. Qed.

Lemma configure_logger_unset calls :
  forallb (fun c => negb (setsLogger c)) calls = true ->
  b_logger (configure calls) = logr.zero.
Proof.
  induction calls as [|c calls IH] using rev_ind; [done|].
  rewrite forallb_app, andb_true_iff, configure_snoc. cbn.
  intros [Hcalls Hc]. destruct c; cbn in *; [done | auto | auto].
Qed.

Lemma configure_fs_unset calls :
  forallb (fun c => negb (setsFS c)) calls = true ->
  b_fsys (configure calls) = None.
Proof.
  induction calls as [|c calls IH] using rev_ind; [done|].
  rewrite forallb_app, andb_true_iff, configure_snoc. cbn.
  intros [Hcalls Hc]. destruct c; cbn in *; [auto | done | auto].
Qed.

Lemma Build_without_sink m b :
  logr.sink (b_logger b) = None ->
  Build m b = ((m, []), Err (ErrorString "logger is mandatory")).
Proof. intros Hsink. unfold Build, logr.GetSink. by rewrite Hsink. Qed.

Lemma Build_without_fs m b :
  b_fsys b = None ->
  exists e, Build m b = ((m, []), Err e) /\ is_ConfigurationError e.
Proof.
  intros Hfs. unfold Build. rewrite Hfs.
  destruct (logr.GetSink (b_logger b)); eexists; (split; [reflexivity|]);
    [right | left]; reflexivity.
Qed.

(** C5.  A builder on which [SetLogger] was never called, or on which
    [SetFS] was never called, does not build: [Build] returns a
    configuration error, whatever else was set, and it has done nothing by
    then: no call on a source filesystem, no parse, no log message, no
    allocation. *)
Theorem Build_unconfigured (m : slices.memory) (calls : list setter) :
  forallb (fun c => negb (setsLogger c)) calls = true \/
  forallb (fun c => negb (setsFS c)) calls = true ->
  exists e, Build m (configure calls) = ((m, []), Err e) /\ is_ConfigurationError e.
Proof.
  intros [Hlogger | Hfs].
  - exists (ErrorString "logger is mandatory"). split; [|by left].
    apply Build_without_sink. by rewrite configure_logger_unset.
  - apply Build_without_fs. by apply configure_fs_unset.
Qed.

Lemma Build_unconfigured_witness :
  exists e,
    Build [] (configure [CallSetFS (Some {| fs.tree := example.source; fs.dir := "." |});
                         CallSetDir "lib"])
    = (([], []), Err e) /\ is_ConfigurationError e.
Proof. apply (Build_unconfigured [] _). left. reflexivity. Defined.

(** C10.  [Build] tests the sink of the logger, not whether [SetLogger] was
    called: after [SetLogger] with a logger whose sink is nil, [Build] fails
    with "logger is mandatory" and has done nothing, which is what it does on
    the builder whose logger is still the zero value. *)
Theorem Build_nil_sink (m : slices.memory) (b : TemplateBuilder) (l : logr.Logger) :
  logr.sink l = None ->
  Build m (SetLogger b l) = ((m, []), Err (ErrorString "logger is mandatory")) /\
  Build m (SetLogger b l)
  = Build m {| b_logger := b_logger NewTemplate; b_fsys := b_fsys b; b_dir := b_dir b |}.
Proof.
  intros Hsink. split.
  - by apply Build_without_sink.
  - by rewrite !Build_without_sink.
Qed.

Lemma Build_nil_sink_witness :
  Build [] (SetLogger example.builder logr.zero)
  = (([], []), Err (ErrorString "logger is mandatory")) /\
  Build [] (SetLogger example.builder logr.zero)
  = Build [] {| b_logger := b_logger NewTemplate;
                b_fsys := b_fsys example.builder;
                b_dir := b_dir example.builder |}.
Proof. apply (Build_nil_sink [] example.builder logr.zero). reflexivity. Defined.

(** ** Sorting by key *)

Lemma insert_by_key_perm {A} k (a : A) l : strs.insert_by_key k a l ≡ₚ (k, a) :: l.
Proof.
  induction l as [|[k' a'] l IH]; cbn; [done|].
  destruct (String.ltb k' k); [|done].
  rewrite IH. apply Permutation_swap.
Qed.

Lemma sort_by_key_perm {A} (l : list (string * A)) : strs.sort_by_key l ≡ₚ l.
Proof.
  induction l as [|[k a] l IH]; cbn; [done|].
  by rewrite insert_by_key_perm, IH.
Qed.

(** ** Induction on source trees *)

Lemma node_ind' (P : fs.node -> Prop) :
  (forall data, P (fs.File data)) ->
  P fs.Unreadable ->
  (forall es, Forall (fun e => P (snd e)) es -> P (fs.Dir es)) ->
  P fs.Unlistable ->
  forall n, P n.
Proof.
  intros HFile HUnreadable HDir HUnlistable.
  fix IH 1. intros [data| |es|]; [apply HFile | apply HUnreadable | | apply HUnlistable].
  apply HDir. induction es as [|[e c] es IHes]; constructor; [apply IH | apply IHes].
Qed.

(** ** What a walk preserves *)

Section walk_invariant.
Context {S : Type} (fn : fs.WalkDirFunc S) (P : S -> Prop).
Hypothesis fn_preserves : forall name entry err s, P s -> P (fst (fn name entry err s)).

Lemma walkEntries_preserves ws s :
  Forall (fun w => forall s, P s -> P (fst (fst (snd w s)))) ws ->
  P s -> P (fst (fst (fs.walkEntries ws s))).
Proof using Type.
  intros Hws. revert s. induction Hws as [|[e w] ws Hw Hws IH]; intros s Hs; [done|].
  cbn. specialize (Hw s Hs). cbn in Hw.
  destruct (w s) as [[s1 evs1] [[]| | | |]]; cbn in *; try done.
  specialize (IH s1 Hw). by destruct (fs.walkEntries ws s1) as [[s2 evs2] res].
Qed.

Lemma walkDir_preserves n : forall name s,
  P s -> P (fst (fst (fs.walkDir fn name n s))).
Proof using fn_preserves.
  induction n as [data| |es IH|] using node_ind'; intros name s Hs; cbn;
    pose proof (fn_preserves name (Some false) None s Hs) as Hf;
    pose proof (fn_preserves name (Some true) None s Hs) as Ht.
  - by destruct (fn name (Some false) None s) as [s1 [[]| | | |]].
  - by destruct (fn name (Some false) None s) as [s1 [[]| | | |]].
  - destruct (fn name (Some true) None s) as [s1 [[]| | | |]]; try done. cbn in Ht.
    match goal with |- context [fs.walkEntries ?ws s1] =>
      pose proof (walkEntries_preserves ws s1) as Hws end.
    destruct (fs.walkEntries _ s1) as [[s2 evs] res]. cbn in *. apply Hws; [|done].
    rewrite sort_by_key_perm. apply Forall_fmap.
    eapply Forall_impl; [exact IH|]. cbn. intros [e c] Hc s' Hs'. by apply Hc.
  - destruct (fn name (Some true) None s) as [s1 [[]| | | |]]; try done. cbn in Ht.
    pose proof (fn_preserves name (Some true)
      (Some (PathError "readdir" name "input/output error")) s1 Ht) as H2.
    by destruct (fn name (Some true) _ s1) as [s2 res].
Qed.

Lemma WalkDir_preserves fsys root s :
  P s -> P (fst (fst (fs.WalkDir fsys root fn s))).
Proof using fn_preserves.
  intros Hs. unfold fs.WalkDir. destruct (fs.Stat fsys root) as [n|e|p| |?]; try done.
  - pose proof (walkDir_preserves n root s Hs).
    by destruct (fs.walkDir fn root n s) as [[s1 evs] res].
  - pose proof (fn_preserves root None (Some e) s Hs).
    by destruct (fn root None (Some e) s) as [s1 res].
Qed.
End walk_invariant.

(** ** The names and the units of a built template *)

Lemma findFilesFunc_template name entry err m t :
  template (snd (fst (findFilesFunc name entry err (m, t)))) = template t /\
  logger (snd (fst (findFilesFunc name entry err (m, t)))) = logger t.
Proof.
  unfold findFilesFunc. destruct err as [e|]; [done|].
  destruct entry as [[]|]; try done.
  by destruct (slices.append m (names t) name) as [m' s].
Qed.

Lemma findFiles_template m t fsys :
  template (snd (fst (fst (findFiles m t fsys)))) = template t /\
  logger (snd (fst (fst (findFiles m t fsys)))) = logger t.
Proof.
  unfold findFiles.
  apply (WalkDir_preserves findFilesFunc
           (fun s => template (snd s) = template t /\ logger (snd s) = logger t));
    [|done].
  intros name entry err [m' t'] [Htemplate Hlogger]. cbn in Htemplate, Hlogger.
  destruct (findFilesFunc_template name entry err m' t') as [H1 H2].
  split; congruence.
Qed.

Lemma Parse_Ok_inv tm n text tm' :
  tmpl.Parse tm n text = Ok tm' ->
  exists set,
    tmpl.parseTrees n (tmpl.parseFuncs tm) text = Ok set /\
    tm' = {| tmpl.name := tmpl.name tm; tmpl.parseFuncs := tmpl.parseFuncs tm;
             tmpl.common := fold_left tmpl.associate set (tmpl.common tm) |}.
Proof.
  unfold tmpl.Parse. destruct (tmpl.parseTrees _ _ _) as [set|e|p| |?]; cbn; try done.
  intros [= <-]. by exists set.
Qed.

Lemma parseFile_units t fsys name t' evs :
  parseFile t fsys name = ((t', evs), Ok tt) ->
  names t' = names t /\ logger t' = logger t /\
  tmpl.parseFuncs (template t') = tmpl.parseFuncs (template t).
Proof.
  unfold parseFile. destruct (fs.ReadFile fsys name) as [data|e|p| |?]; try done.
  destruct (tmpl.Parse (template t) name data) as [tm|e|p| |?] eqn:HParse; try done.
  intros [= <- _]. cbn. repeat split.
  by destruct (Parse_Ok_inv _ _ _ _ HParse) as (set & _ & ->).
Qed.

Lemma parseFilesLoop_units l : forall t fsys t' evs,
  parseFilesLoop t fsys l = ((t', evs), Ok tt) ->
  names t' = names t /\ logger t' = logger t /\
  tmpl.parseFuncs (template t') = tmpl.parseFuncs (template t).
Proof.
  induction l as [|name l IH]; intros t fsys t' evs; cbn.
  - by intros [= <- _].
  - destruct (parseFile t fsys name) as [[t1 evs1] [[]|e|p| |?]] eqn:Hfile; try done.
    destruct (parseFilesLoop t1 fsys l) as [[t2 evs2] res] eqn:Hloop.
    intros [= <- _ ->].
    destruct (parseFile_units _ _ _ _ _ Hfile) as (Hn1 & Hl1 & Hf1).
    destruct (IH _ _ _ _ Hloop) as (Hn2 & Hl2 & Hf2).
    repeat split; congruence.
Qed.

(** What a successful [Build] went through. *)
Lemma Build_Ok_inv m b m' evs t :
  Build m b = ((m', evs), Ok t) ->
  exists bfs fsys t1 evs1 evs2,
    b_fsys b = Some bfs /\
    effective bfs (b_dir b) = Ok fsys /\
    findFiles m (initial (b_logger b)) fsys = (((m', t1), evs1), Ok tt) /\
    parseFiles m' t1 fsys = ((t, evs2), Ok tt) /\
    evs = (evs1 ++ evs2)%list.
Proof.
  unfold Build. destruct (logr.GetSink (b_logger b)); [|done].
  destruct (b_fsys b) as [bfs|]; [|done].
  destruct (if negb (String.eqb (b_dir b) "") then fs.Sub bfs (b_dir b) else Ok bfs)
    as [fsys|e|p| |?] eqn:Hsub; try done.
  fold registered.
  destruct (findFiles m _ fsys) as [[[m1 t1] evs1] [[]|e|p| |?]] eqn:Hfind; try done.
  destruct (parseFiles m1 t1 fsys) as [[t2 evs2] [[]|e|p| |?]] eqn:Hparse; try done.
  intros [= <- <- <-]. by exists bfs, fsys, t1, evs1, evs2.
Qed.

Lemma parseFile_Ok_inv t fsys name t' evs :
  parseFile t fsys name = ((t', evs), Ok tt) ->
  exists text tm,
    fs.ReadFile fsys name = Ok text /\
    tmpl.Parse (template t) name text = Ok tm /\
    t' = setTemplate t tm /\
    evs = fileEvents (logger t) fsys name.
Proof.
  unfold parseFile, fileEvents.
  destruct (fs.ReadFile fsys name) as [text|e|p| |?]; try done.
  destruct (tmpl.Parse (template t) name text) as [tm|e|p| |?] eqn:HParse; try done.
  intros [= <- <-]. exists text, tm. repeat split; try done.
  unfold detailed, logr.Info. cbn [app].
  by destruct (logr.Enabled (logr.V (logger t) 2)).
Qed.

(** The effects of a parsing loop that succeeds: file by file. *)
Lemma parseFilesLoop_events fsys l : forall t t' evs,
  parseFilesLoop t fsys l = ((t', evs), Ok tt) ->
  evs = concat (map (fileEvents (logger t) fsys) l).
Proof.
  induction l as [|name l IH]; intros t t' evs; cbn [parseFilesLoop map concat].
  - by intros [= _ <-].
  - destruct (parseFile t fsys name) as [[t1 evs1] [[]|e|p| |?]] eqn:Hfile; try done.
    destruct (parseFilesLoop t1 fsys l) as [[t2 evs2] res] eqn:Hloop.
    intros [= _ <- ->].
    destruct (parseFile_Ok_inv _ _ _ _ _ Hfile) as (text & tm & _ & _ & -> & ->).
    by rewrite (IH _ _ _ Hloop).
Qed.

(** The trees of a text, associated one after the other. *)
Lemma associate_mono c e k :
  is_Some (c !! k) -> is_Some (tmpl.associate c e !! k).
Proof.
  intros Hk. unfold tmpl.associate.
  destruct (c !! fst e); [destruct (tmpl.IsEmptyTree (snd e)); [done|]|];
    apply lookup_insert_is_Some'; by right.
Qed.

Lemma associate_own c e : is_Some (tmpl.associate c e !! fst e).
Proof.
  unfold tmpl.associate.
  destruct (c !! fst e) eqn:Hold; [destruct (tmpl.IsEmptyTree (snd e))|].
  - by rewrite Hold.
  - by rewrite lookup_insert_eq.
  - by rewrite lookup_insert_eq.
Qed.

Lemma associate_inv c e k tr :
  tmpl.associate c e !! k = Some tr -> c !! k = Some tr \/ e = (k, tr).
Proof.
  unfold tmpl.associate. destruct e as [n tr']. cbn [fst snd].
  destruct (c !! n); [destruct (tmpl.IsEmptyTree tr'); [by left|]|];
    (intros [[-> ->] | [_ Hk]]%lookup_insert_Some; [by right | by left]).
Qed.

Lemma associate_all_mono set : forall c k,
  is_Some (c !! k) -> is_Some (fold_left tmpl.associate set c !! k).
Proof.
  induction set as [|e set IH]; intros c k Hk; [done|]. cbn.
  by apply IH, associate_mono.
Qed.

Lemma associate_all_own set : forall c e,
  e ∈ set -> is_Some (fold_left tmpl.associate set c !! fst e).
Proof.
  induction set as [|e' set IH]; intros c e He; [by apply elem_of_nil in He|]. cbn.
  apply elem_of_cons in He as [-> | He]; [|by apply IH].
  apply associate_all_mono, associate_own.
Qed.

Lemma associate_all_inv set : forall c k tr,
  fold_left tmpl.associate set c !! k = Some tr -> c !! k = Some tr \/ (k, tr) ∈ set.
Proof.
  induction set as [|e set IH]; intros c k tr; cbn; [by left|].
  intros [[Hc | ->]%associate_inv | Hset]%IH.
  - by left.
  - right. by left.
  - right. by right.
Qed.

(** The tree of the text itself is among the trees of a text. *)
Lemma treeOf_elem n set tr : tmpl.treeOf n set = Some tr -> (n, tr) ∈ set.
Proof.
  induction set as [|[k old] set IH]; cbn; [done|].
  destruct (String.eqb n k) eqn:Hk.
  - apply String.eqb_eq in Hk as ->. intros [= ->]. by left.
  - intros Hn. right. by apply IH.
Qed.

Lemma replace_elem n tr set :
  is_Some (tmpl.treeOf n set) -> (n, tr) ∈ tmpl.replace n tr set.
Proof.
  induction set as [|[k old] set IH]; cbn; [by intros [? ?]|].
  destruct (String.eqb n k) eqn:Hk.
  - apply String.eqb_eq in Hk as ->. intros _. by left.
  - intros Hn. right. by apply IH.
Qed.

Lemma add_own name n tr set set' :
  tmpl.add name n tr set = Ok set' -> exists tr', (n, tr') ∈ set'.
Proof.
  unfold tmpl.add, tmpl.fail. destruct (tmpl.treeOf n set) as [old|] eqn:Hold.
  - destruct (tmpl.IsEmptyTree old).
    + intros [= <-]. exists tr. apply replace_elem. by rewrite Hold.
    + destruct (negb _); [done|]. intros [= <-]. exists old. by apply treeOf_elem.
  - intros [= <-]. exists tr. apply elem_of_app. right. by left.
Qed.

Lemma parse_own items : forall name funcs set main def place set',
  tmpl.parse name funcs set main def place items = Ok set' ->
  exists tr, (name, tr) ∈ set'.
Proof.
  induction items as [|it items IH]; intros name funcs set main def place set' Hparse;
    cbn in Hparse; unfold tmpl.fail in Hparse.
  - destruct place, def; try discriminate Hparse. by apply add_own in Hparse.
  - repeat match goal with
    | H : tmpl.parse _ _ _ _ _ _ items = Ok _ |- _ => exact (IH _ _ _ _ _ _ _ H)
    | H : context [match ?x with _ => _ end] |- _ =>
        destruct x eqn:?; cbn in H; simplify_eq
    end.
Qed.

(** What a parsing loop that succeeds leaves in the set of templates: what
    was there, a unit for each file, and nothing that does not come from a
    file. *)
Lemma parseFilesLoop_trees fsys l : forall t t' evs,
  tmpl.parseFuncs (template t) = registered ->
  parseFilesLoop t fsys l = ((t', evs), Ok tt) ->
  (forall k, is_Some (tmpl.common (template t) !! k) ->
     is_Some (tmpl.common (template t') !! k)) /\
  (forall n, n ∈ l -> is_Some (tmpl.common (template t') !! n)) /\
  (forall k tr, tmpl.common (template t') !! k = Some tr ->
     tmpl.common (template t) !! k = Some tr \/ parsedUnit fsys l k tr) /\
  (forall k tr, parsedUnit fsys l k tr -> is_Some (tmpl.common (template t') !! k)).
Proof.
  induction l as [|name l IH]; intros t t' evs Hfuncs; cbn [parseFilesLoop].
  - intros [= <- _]. split; [done|]. split; [by intros n Hn%elem_of_nil|].
    split; [by left|]. by intros k tr (file & ? & ? & Hfile%elem_of_nil & _).
  - destruct (parseFile t fsys name) as [[t1 evs1] [[]|e|p| |?]] eqn:Hfile; try done.
    destruct (parseFilesLoop t1 fsys l) as [[t2 evs2] res] eqn:Hloop.
    intros [= <- _ ->].
    destruct (parseFile_Ok_inv _ _ _ _ _ Hfile) as (text & tm & Hread & HParse & -> & _).
    destruct (Parse_Ok_inv _ _ _ _ HParse) as (set & Hset & ->).
    rewrite Hfuncs in Hset.
    apply IH in Hloop as (Hmono & Hin & Hinv & Hunits); [|by cbn]. cbn in Hmono, Hinv.
    split; [|split; [|split]].
    + intros k Hk. by apply Hmono, associate_all_mono.
    + intros n [-> | Hn]%elem_of_cons; [|by apply Hin].
      destruct (parse_own _ _ _ _ _ _ _ _ Hset) as [tr Htr].
      apply Hmono. by apply (associate_all_own set _ (name, tr)).
    + intros k tr [[Hk | Hk]%associate_all_inv | Hk]%Hinv.
      * by left.
      * right. exists name, text, set. repeat split; [by left | done..].
      * right. destruct Hk as (file & text' & set' & Hfile' & Hk).
        exists file, text', set'. split; [by right | done].
    + intros k tr (file & text' & set' & [-> | Hfile']%elem_of_cons & Hread' & Hset' & Hk).
      * rewrite Hread in Hread'. injection Hread' as <-.
        rewrite Hset in Hset'. injection Hset' as <-.
        apply Hmono. by apply (associate_all_own set _ (k, tr)).
      * apply (Hunits k tr). by exists file, text', set'.
Qed.

(** The units of a built template: one for each name, and each of them a
    parsed unit. *)
Lemma Build_units m b m' evs t bfs fsys :
  Build m b = ((m', evs), Ok t) ->
  b_fsys b = Some bfs ->
  effective bfs (b_dir b) = Ok fsys ->
  (forall n, n ∈ slices.contents m' (names t) ->
     is_Some (tmpl.Lookup (template t) n)) /\
  (forall k tr, tmpl.Lookup (template t) k = Some (k, tr) ->
     parsedUnit fsys (slices.contents m' (names t)) k tr) /\
  (forall k tr, parsedUnit fsys (slices.contents m' (names t)) k tr ->
     is_Some (tmpl.Lookup (template t) k)).
Proof.
  intros HBuild Hfs Heff.
  destruct (Build_Ok_inv _ _ _ _ _ HBuild)
    as (bfs' & fsys' & t1 & evs1 & evs2 & Hfs' & Heff' & Hfind & Hparse & _).
  rewrite Hfs in Hfs'. injection Hfs' as <-.
  rewrite Heff in Heff'. injection Heff' as <-.
  pose proof (findFiles_template m (initial (b_logger b)) fsys) as [Htm _].
  rewrite Hfind in Htm. cbn in Htm.
  unfold parseFiles in Hparse.
  destruct (parseFilesLoop_units _ _ _ _ _ Hparse) as (Hnames & _ & _).
  destruct (parseFilesLoop_trees _ _ _ _ _ ltac:(by rewrite Htm) Hparse)
    as (_ & Hin & Hinv & Hunits).
  rewrite Hnames. unfold tmpl.Lookup. split; [|split].
  - intros n Hn. destruct (Hin _ Hn) as [tr ->]. by eexists.
  - intros k tr Hk.
    destruct (tmpl.common (template t) !! k) as [tr'|] eqn:Hunit; [|done].
    injection Hk as ->.
    destruct (Hinv _ _ Hunit) as [Hold | Hunit']; [|done].
    by rewrite Htm in Hold.
  - intros k tr Hk. destruct (Hunits _ _ Hk) as [tr' ->]. by eexists.
Qed.

(** ** Execute on a name that is not there (C1) *)

Lemma Execute_not_found {W} `{io.Writer W} stack t (writer : W) name data :
  tmpl.Lookup (template t) name = None ->
  Execute stack t writer name data
  = ((writer, []), Err (NoTemplateError name (tmpl.name (template t)))).
Proof. intros Hlookup. unfold Execute, tmpl.ExecuteTemplate. by rewrite Hlookup. Qed.

(** C1.  On a built template, [Execute] with a name that is not the name
    of a parsed unit, that is neither the name of one of its files nor the
    name of a template that one of them defines, returns the error of the
    failed lookup, which names the missing template, and leaves the
    destination as it was: its [Write] is not called, and nothing is
    logged. *)
Theorem Execute_unknown_name {W} `{io.Writer W} (m m' : slices.memory)
    (b : TemplateBuilder) (bfs fsys : fs.FS) (evs : list event) (t : Template)
    (stack : nat) (writer : W) (name : string) (data : value) :
  Build m b = ((m', evs), Ok t) ->
  b_fsys b = Some bfs ->
  effective bfs (b_dir b) = Ok fsys ->
  (forall tr, ~ parsedUnit fsys (slices.contents m' (names t)) name tr) ->
  exists e,
    Execute stack t writer name data = ((writer, []), Err e) /\
    is_TemplateNotFoundError name e.
Proof.
  intros HBuild Hfs Heff Hname.
  exists (NoTemplateError name (tmpl.name (template t))). split; [|by eexists].
  apply Execute_not_found.
  destruct (tmpl.Lookup (template t) name) as [[k tr]|] eqn:Hlookup; [|done].
  assert (k = name) as ->.
  { unfold tmpl.Lookup in Hlookup.
    destruct (tmpl.common (template t) !! name); by simplify_eq. }
  destruct (Hname tr).
  by apply (proj1 (proj2 (Build_units _ _ _ _ _ _ _ HBuild Hfs Heff))).
Qed.

Lemma Execute_unknown_name_witness :
  exists e,
    Execute (W := bytes.Buffer) 3 example.built "kept" "nowhere.tmpl" VNil
    = (("kept", []), Err e) /\
    is_TemplateNotFoundError "nowhere.tmpl" e.
Proof.
  apply (Execute_unknown_name [] example.memory example.builder
           {| fs.tree := example.source; fs.dir := "." |}
           {| fs.tree := example.source; fs.dir := "." |}
           (snd (fst (Build [] example.builder))) example.built).
  - vm_compute. reflexivity.
  - reflexivity.
  - reflexivity.
  - intros tr (file & text & set & Hfile & Hread & Hset & Hunit).
    let l := eval vm_compute in (slices.contents example.memory (names example.built)) in
    change (file ∈ l) in Hfile.
    repeat (apply elem_of_cons in Hfile as [-> | Hfile]);
      [..|by apply elem_of_nil in Hfile];
      vm_compute in Hread; injection Hread as <-;
      vm_compute in Hset; injection Hset as <-;
      apply list_elem_of_singleton in Hunit; discriminate Hunit.
Defined.

(** ** The function [execute] on a name that is not there (C2) *)

Lemma executeFunc_absent stack t name data :
  tmpl.Lookup (template t) name = None ->
  executeFunc (S stack) t name data = Panic NilPointerDereference.
Proof. intros Hlookup. cbn. by rewrite Hlookup. Qed.

(** The error of the nested render is the error of [executeFunc]. *)
Lemma executeFunc_propagates stack t name data e :
  snd (tmpl.Execute (funcMap t (executeFunc stack t))
         (tmpl.Lookup (template t) name) bytes.empty data) = Err e ->
  executeFunc (S stack) t name data = Err e.
Proof.
  cbn. destruct (tmpl.Execute _ _ _ _) as [buffer err]. cbn. by intros ->.
Qed.

(** C2.  [executeFunc] does not test the result of its lookup.  With the
    name of no unit it dereferences the nil template and panics; it returns
    no error.  Inside a template the engine recovers the panic of the
    function, and what [Execute] returns is an execution error that wraps a
    nil pointer dereference: it is not the error of a failed lookup and it
    does not name the missing template. *)
Theorem executeFunc_missing_unit :
  executeFunc 1 example.built "nowhere.tmpl" VNil = Panic NilPointerDereference /\
  Execute (W := bytes.Buffer) 1 example.built "" "lib/missing.tmpl" VNil
  = (("", []),
     Err (ExecError "lib/missing.tmpl"
            (CallError "execute" (RuntimeError NilPointerDereference)))) /\
  ~ is_TemplateNotFoundError "nowhere.tmpl"
      (ExecError "lib/missing.tmpl"
         (CallError "execute" (RuntimeError NilPointerDereference))).
Proof.
  split; [|split].
  - vm_compute. reflexivity.
  - vm_compute. reflexivity.
  - intros [root Hroot]. discriminate Hroot.
Qed.

(** ** Execute writes once, from its buffer (C3) *)

Lemma Execute_unfold {W} `{io.Writer W} stack t (writer : W) name data :
  Execute stack t writer name data =
  match rendered stack t name data with
  | (buffer, Ok _) =>
      match bytes.WriteTo buffer writer with
      | ((buffer', writer'), Ok _) =>
          ((writer',
            if logr.Enabled (logr.V (logger t) 2)
            then logr.Info (logr.V (logger t) 2) "Executed template"
                   [("name", VString name); ("data", data);
                    ("text", VString (bytes.String buffer'))]
            else []),
           Ok tt)
      | ((_, writer'), other) => ((writer', []), other)
      end
  | (_, other) => ((writer, []), other)
  end.
Proof.
  unfold Execute, rendered.
  by destruct (tmpl.ExecuteTemplate _ _ _ _ _) as [buffer [[]|e|p| |?]].
Qed.



(** ** The first file that does not compile ends the build (C6) *)

Lemma addOperand_error name funcs cur o e :
  tmpl.addOperand name funcs cur o = Err e -> exists d, e = ParseError name d.
Proof.
  unfold tmpl.addOperand, tmpl.fail.
  destruct cur as [[c []]|], (tmpl.defined funcs o); intros; simplify_eq; by eexists.
Qed.

Lemma pipeStep_error name funcs cmds cur it e :
  tmpl.pipeStep name funcs cmds cur it = Err e -> exists d, e = ParseError name d.
Proof.
  unfold tmpl.pipeStep, tmpl.fail. intros Hstep.
  repeat match goal with
  | H : tmpl.addOperand _ _ _ _ = Err _ |- _ => exact (addOperand_error _ _ _ _ _ H)
  | |- exists d, ParseError ?n _ = ParseError ?n d => by eexists
  | H : context [mbind _ _] |- _ => unfold mbind, outcome_bind in H
  | H : context [match ?x with _ => _ end] |- _ =>
      destruct x eqn:?; cbn in H; simplify_eq
  end.
Qed.

Lemma add_error name n tr set e :
  tmpl.add name n tr set = Err e -> exists d, e = ParseError name d.
Proof.
  unfold tmpl.add, tmpl.fail. destruct (tmpl.treeOf n set) as [old|]; [|done].
  destruct (tmpl.IsEmptyTree old); [done|].
  destruct (negb _); [|done]. intros [= <-]. by eexists.
Qed.

(** An error of the parser is an error of the text being parsed. *)
Lemma parse_error_name items : forall name funcs set main def place e,
  tmpl.parse name funcs set main def place items = Err e ->
  exists d, e = ParseError name d.
Proof.
  induction items as [|it items IH]; intros name funcs set main def place e Hparse;
    cbn in Hparse; unfold tmpl.fail in Hparse.
  - destruct place, def; try (simplify_eq; by eexists).
    by apply add_error in Hparse.
  - repeat match goal with
    | H : tmpl.parse _ _ _ _ _ _ items = Err _ |- _ => exact (IH _ _ _ _ _ _ _ H)
    | H : tmpl.pipeStep _ _ _ _ _ = Err _ |- _ => exact (pipeStep_error _ _ _ _ _ _ H)
    | H : tmpl.add _ _ _ _ = Err _ |- _ => exact (add_error _ _ _ _ _ H)
    | H : tmpl.addOperand _ _ _ _ = Err _ |- _ => exact (addOperand_error _ _ _ _ _ H)
    | H : tmpl.fail _ _ = Err _ |- _ => injection H as <-; by eexists
    | |- exists d, ParseError ?n _ = ParseError ?n d => by eexists
    | H : context [mbind _ _] |- _ => unfold mbind, outcome_bind in H
    | H : context [match ?x with _ => _ end] |- _ =>
        destruct x eqn:?; cbn in H; simplify_eq
    end.
Qed.

Lemma compile_Err n text e :
  compile n text = Err e <-> tmpl.parseTrees n registered text = Err e.
Proof.
  unfold compile, mbind, outcome_bind.
  destruct (tmpl.parseTrees n registered text); split; intros; by simplify_eq.
Qed.

Lemma compile_Ok n text tr :
  compile n text = Ok tr -> exists set, tmpl.parseTrees n registered text = Ok set.
Proof.
  unfold compile, mbind, outcome_bind.
  destruct (tmpl.parseTrees n registered text); [by eauto|done..].
Qed.

(** The tree of a text that defines no other template. *)
Lemma compile_alone n text tr :
  tmpl.parseTrees n registered text = Ok [(n, tr)] -> compile n text = Ok tr.
Proof. unfold compile. intros ->. cbn. by rewrite String.eqb_refl. Qed.

Ltac compiled H :=
  lazymatch type of H with
  | compile ?n ?text = _ =>
      let r := eval vm_compute in (tmpl.parseTrees n registered text) in
      lazymatch r with
      | Ok [(_, ?tr)] =>
          rewrite (compile_alone n text tr ltac:(vm_compute; reflexivity)) in H;
          injection H as <-
      end
  end.

Lemma Parse_fails tm n text e :
  tmpl.parseFuncs tm = registered ->
  compile n text = Err e -> tmpl.Parse tm n text = Err e.
Proof.
  intros Hfuncs Hcompile%compile_Err. unfold tmpl.Parse. by rewrite Hfuncs, Hcompile.
Qed.

Lemma Parse_succeeds tm n text tr :
  tmpl.parseFuncs tm = registered ->
  compile n text = Ok tr ->
  exists tm', tmpl.Parse tm n text = Ok tm' /\ tmpl.parseFuncs tm' = registered.
Proof.
  intros Hfuncs [set Hset]%compile_Ok. unfold tmpl.Parse. rewrite Hfuncs, Hset. cbn.
  by eexists.
Qed.

Lemma parseFile_fails t fsys name text e :
  tmpl.parseFuncs (template t) = registered ->
  fs.ReadFile fsys name = Ok text ->
  compile name text = Err e ->
  parseFile t fsys name = ((t, [EvReadFile name; EvParse name]), Err e).
Proof.
  intros Hfuncs Hread Hcompile. unfold parseFile.
  by rewrite Hread, (Parse_fails _ _ _ _ Hfuncs Hcompile).
Qed.

Lemma parseFile_succeeds t fsys name text tr :
  tmpl.parseFuncs (template t) = registered ->
  fs.ReadFile fsys name = Ok text ->
  compile name text = Ok tr ->
  exists t' evs,
    parseFile t fsys name = ((t', evs), Ok tt) /\
    tmpl.parseFuncs (template t') = registered /\
    Forall (about [name]) evs.
Proof.
  intros Hfuncs Hread Hcompile. unfold parseFile. rewrite Hread.
  destruct (Parse_succeeds _ _ _ _ Hfuncs Hcompile) as (tm' & -> & Hfuncs').
  eexists _, _. split; [reflexivity|]. split; [done|].
  repeat (constructor; [cbn; by left|]).
  unfold logr.Info. destruct (logr.Enabled _); repeat constructor.
Qed.

Lemma about_mono l l' ev : l ⊆ l' -> about l ev -> about l' ev.
Proof. intros Hsub. destruct ev; cbn; auto. Qed.

Lemma parseFilesLoop_succeeds fsys l : forall t,
  tmpl.parseFuncs (template t) = registered ->
  (forall n, n ∈ l ->
     exists text tr, fs.ReadFile fsys n = Ok text /\ compile n text = Ok tr) ->
  exists t' evs,
    parseFilesLoop t fsys l = ((t', evs), Ok tt) /\
    tmpl.parseFuncs (template t') = registered /\
    Forall (about l) evs.
Proof.
  induction l as [|name l IH]; intros t Hfuncs Hfiles; cbn.
  - eexists _, _. by repeat split.
  - destruct (Hfiles name) as (text & tr & Hread & Hcompile); [by left|].
    destruct (parseFile_succeeds t fsys name text tr Hfuncs Hread Hcompile)
      as (t1 & evs1 & -> & Hfuncs1 & Hevs1).
    destruct (IH t1 Hfuncs1) as (t2 & evs2 & -> & Hfuncs2 & Hevs2).
    { intros n Hn. apply Hfiles. by right. }
    eexists _, _. split; [reflexivity|]. split; [done|].
    apply Forall_app. split; eapply Forall_impl; eauto; intros ev; apply about_mono.
    + intros x ->%list_elem_of_singleton. by left.
    + intros x Hx. by right.
Qed.

Lemma parseFilesLoop_app fsys l1 l2 t t1 evs1 :
  parseFilesLoop t fsys l1 = ((t1, evs1), Ok tt) ->
  parseFilesLoop t fsys (l1 ++ l2) =
  let '((t2, evs2), err) := parseFilesLoop t1 fsys l2 in
  ((t2, (evs1 ++ evs2)%list), err).
Proof.
  revert t t1 evs1. induction l1 as [|name l1 IH]; intros t t1 evs1; cbn.
  - intros [= <- <-]. by destruct (parseFilesLoop t fsys l2) as [[t2 evs2] err].
  - destruct (parseFile t fsys name) as [[ta evsa] [[]|e|p| |?]]; try done.
    destruct (parseFilesLoop ta fsys l1) as [[tb evsb] err] eqn:Hloop.
    intros [= <- <- ->]. rewrite (IH _ _ _ Hloop).
    destruct (parseFilesLoop tb fsys l2) as [[t2 evs2] err2].
    by rewrite (assoc_L (++)).
Qed.

(** Discovery calls [Stat] and [ReadDir] and nothing else. *)
Lemma walkEntries_walks {S} (ws : list (string * (S -> (S * list event) * outcome unit))) :
  Forall (fun w => forall s, Forall walks (snd (fst (snd w s)))) ws ->
  forall s, Forall walks (snd (fst (fs.walkEntries ws s))).
Proof.
  induction 1 as [|[e w] ws Hw Hws IH]; intros s; cbn; [constructor|].
  specialize (Hw s). cbn in Hw.
  destruct (w s) as [[s1 evs1] [[]|err|p| |?]]; cbn in *; try done.
  specialize (IH s1). destruct (fs.walkEntries ws s1) as [[s2 evs2] res]. cbn in *.
  by apply Forall_app.
Qed.

Lemma walkDir_walks {S} (fn : fs.WalkDirFunc S) n : forall name s,
  Forall walks (snd (fst (fs.walkDir fn name n s))).
Proof.
  induction n as [data| |es IH|] using node_ind'; intros name s; cbn.
  - destruct (fn name (Some false) None s) as [s1 [[]| | | |]]; constructor.
  - destruct (fn name (Some false) None s) as [s1 [[]| | | |]]; constructor.
  - destruct (fn name (Some true) None s) as [s1 [[]| | | |]]; try constructor.
    match goal with |- context [fs.walkEntries ?ws s1] =>
      pose proof (walkEntries_walks ws) as Hws end.
    destruct (fs.walkEntries _ s1) as [[s2 evs] res] eqn:Hwalk. cbn.
    constructor; [done|]. specialize (Hws ltac:(
      rewrite sort_by_key_perm; apply Forall_fmap;
      eapply Forall_impl; [exact IH|]; cbn; intros [e c] Hc s'; apply Hc) s1).
    by rewrite Hwalk in Hws.
  - destruct (fn name (Some true) None s) as [s1 [[]| | | |]]; try constructor.
    destruct (fn name (Some true) _ s1) as [s2 res]. by repeat constructor.
Qed.

Lemma findFiles_walks m t fsys : Forall walks (snd (fst (findFiles m t fsys))).
Proof.
  unfold findFiles, fs.WalkDir. destruct (fs.Stat fsys ".") as [n|e|p| |?].
  - pose proof (walkDir_walks findFilesFunc n "." (m, t)) as Hwalk.
    destruct (fs.walkDir findFilesFunc "." n (m, t)) as [[s1 evs] res].
    by constructor.
  - destruct (findFilesFunc "." None (Some e) (m, t)) as [s1 res]. by repeat constructor.
  - by repeat constructor.
  - by repeat constructor.
  - by repeat constructor.
Qed.

(** [Build] from discovery on. *)
Lemma Build_discovered m b bfs fsys m1 t1 evs1 :
  is_Some (logr.sink (b_logger b)) ->
  b_fsys b = Some bfs ->
  effective bfs (b_dir b) = Ok fsys ->
  findFiles m (initial (b_logger b)) fsys = (((m1, t1), evs1), Ok tt) ->
  Build m b =
  match parseFiles m1 t1 fsys with
  | ((t2, evs2), Ok _) => ((m1, (evs1 ++ evs2)%list), Ok t2)
  | ((_, evs2), Err e) => ((m1, (evs1 ++ evs2)%list), Err e)
  | ((_, evs2), Panic p) => ((m1, (evs1 ++ evs2)%list), Panic p)
  | ((_, evs2), StackOverflow) => ((m1, (evs1 ++ evs2)%list), StackOverflow)
  | ((_, evs2), Outside w) => ((m1, (evs1 ++ evs2)%list), Outside w)
  end.
Proof.
  intros [snk Hsink] Hfs Heff Hfind. unfold Build, logr.GetSink.
  rewrite Hsink, Hfs. unfold effective in Heff. rewrite Heff.
  fold registered. fold (initial (b_logger b)). by rewrite Hfind.
Qed.

(** What a build does up to the file [name], when discovery succeeds and the
    files before [name] can be read and compile. *)
Lemma Build_up_to m m1 b bfs fsys t1 evs1 pre post name :
  is_Some (logr.sink (b_logger b)) ->
  b_fsys b = Some bfs ->
  effective bfs (b_dir b) = Ok fsys ->
  findFiles m (initial (b_logger b)) fsys = (((m1, t1), evs1), Ok tt) ->
  slices.contents m1 (names t1) = (pre ++ name :: post)%list ->
  (forall n, n ∈ pre ->
     exists text tr, fs.ReadFile fsys n = Ok text /\ compile n text = Ok tr) ->
  exists t',
    tmpl.parseFuncs (template t') = registered /\
    Forall walks evs1 /\
    forall evs e,
      parseFile t' fsys name = ((t', evs), Err e) ->
      Build m b
      = ((m1, (evs1 ++ concat (map (fileEvents (b_logger b) fsys) pre) ++ evs)%list),
         Err e).
Proof.
  intros Hsink Hfs Heff Hfind Hnames Hpre.
  pose proof (findFiles_template m (initial (b_logger b)) fsys) as [Htm Hlog].
  pose proof (findFiles_walks m (initial (b_logger b)) fsys) as Hwalks.
  rewrite Hfind in Htm, Hlog, Hwalks. cbn in Htm, Hlog, Hwalks.
  assert (tmpl.parseFuncs (template t1) = registered) as Hfuncs by by rewrite Htm.
  destruct (parseFilesLoop_succeeds fsys pre t1 Hfuncs Hpre)
    as (t' & evs' & Hloop & Hfuncs' & _).
  exists t'. split; [done|]. split; [done|]. intros evs e Hfile.
  rewrite (Build_discovered _ _ _ _ _ _ _ Hsink Hfs Heff Hfind).
  unfold parseFiles. rewrite Hnames, (parseFilesLoop_app _ _ _ _ _ _ Hloop). cbn.
  rewrite Hfile. by rewrite (parseFilesLoop_events _ _ _ _ _ Hloop), Hlog.
Qed.

(** The guarantee as the specification words it fails: the source
    [damaged.unlistable] holds the file [z.tmpl], whose text does not
    compile; its build fails with the error of the directory [locked],
    which cannot be listed, and not with a syntax error: no file has been
    read or parsed by then. *)
Lemma Build_fails_otherwise :
  fs.lookup ["z.tmpl"] damaged.unlistable = Some (fs.File "{{ nope }}") /\
  compile "z.tmpl" "{{ nope }}" = Err (ParseError "z.tmpl" (FunctionNotDefined "nope")) /\
  Build [] (damaged.builder damaged.unlistable)
  = (([["a.tmpl"]], [EvStat "."; EvReadDir "."; EvReadDir "locked"]),
     Err (PathError "readdir" "locked" "input/output error")) /\
  ~ syntax_error_wins damaged.unlistable.
Proof.
  split; [reflexivity|]. split; [vm_compute; reflexivity|].
  split; [vm_compute; reflexivity|].
  intros Hwins. destruct Hwins as (e & Hbuild & name & d & ->).
  - exists ["z.tmpl"], "{{ nope }}". split; [reflexivity|]. eexists.
    vm_compute. reflexivity.
  - vm_compute in Hbuild. discriminate Hbuild.
Qed.

(** C6.  Take a builder with its logger and filesystem set, whose
    discovery succeeds and lists the names [pre ++ name :: post].  If the
    files of [pre] can be read and compile, and the text of [name] can be
    read and does not compile, then [Build] fails with the error of that
    compilation, which carries [name] and the diagnostic of the parser.
    What the build has done is then: the walk, for each file of [pre] in
    order what parsing it does, and the read and the failed parse of
    [name]; no file of [post] is read or parsed. *)
Theorem Build_fails_fast (m m1 : slices.memory) (b : TemplateBuilder)
    (bfs fsys : fs.FS) (t1 : Template) (evs1 : list event)
    (pre post : list string) (name text : string) (e : error) :
  is_Some (logr.sink (b_logger b)) ->
  b_fsys b = Some bfs ->
  effective bfs (b_dir b) = Ok fsys ->
  findFiles m (initial (b_logger b)) fsys = (((m1, t1), evs1), Ok tt) ->
  slices.contents m1 (names t1) = (pre ++ name :: post)%list ->
  (forall n, n ∈ pre ->
     exists text tr, fs.ReadFile fsys n = Ok text /\ compile n text = Ok tr) ->
  fs.ReadFile fsys name = Ok text ->
  compile name text = Err e ->
  exists d,
    e = ParseError name d /\
    is_TemplateSyntaxError e /\
    Forall walks evs1 /\
    Build m b
    = ((m1, (evs1 ++ concat (map (fileEvents (b_logger b) fsys) pre)
                  ++ [EvReadFile name; EvParse name])%list),
       Err e).
Proof.
  intros Hsink Hfs Heff Hfind Hnames Hpre Hread Hcompile.
  destruct (parse_error_name _ _ _ _ _ _ _ _ (proj1 (compile_Err _ _ _) Hcompile))
    as [d ->].
  destruct (Build_up_to _ _ _ _ _ _ _ _ _ _ Hsink Hfs Heff Hfind Hnames Hpre)
    as (t' & Hfuncs & Hwalks & HBuild).
  exists d. split; [done|]. split; [by eexists _, _|]. split; [done|].
  apply HBuild. by apply parseFile_fails with text.
Qed.

Lemma Build_fails_fast_witness :
  exists d,
    ParseError "b.tmpl" (FunctionNotDefined "nope") = ParseError "b.tmpl" d /\
    is_TemplateSyntaxError (ParseError "b.tmpl" (FunctionNotDefined "nope")) /\
    Forall walks
      (snd (fst (findFiles [] (initial example.log)
                   {| fs.tree := example.broken; fs.dir := "." |}))) /\
    Build [] example.brokenBuilder
    = ((fst (fst (Build [] example.brokenBuilder)),
        (snd (fst (findFiles [] (initial example.log)
                     {| fs.tree := example.broken; fs.dir := "." |}))
         ++ concat (map (fileEvents (b_logger example.brokenBuilder)
                           {| fs.tree := example.broken; fs.dir := "." |})
                      ["a.tmpl"])
         ++ [EvReadFile "b.tmpl"; EvParse "b.tmpl"])%list),
       Err (ParseError "b.tmpl" (FunctionNotDefined "nope"))).
Proof.
  apply (Build_fails_fast [] (fst (fst (Build [] example.brokenBuilder)))
           example.brokenBuilder
           {| fs.tree := example.broken; fs.dir := "." |}
           {| fs.tree := example.broken; fs.dir := "." |}
           (snd (fst (fst (findFiles [] (initial example.log)
                             {| fs.tree := example.broken; fs.dir := "." |}))))
           (snd (fst (findFiles [] (initial example.log)
                        {| fs.tree := example.broken; fs.dir := "." |})))
           ["a.tmpl"] ["c.tmpl"] "b.tmpl" "{{ nope }}").
  - vm_compute. by eexists.
  - reflexivity.
  - reflexivity.
  - vm_compute. reflexivity.
  - vm_compute. reflexivity.
  - intros n ->%list_elem_of_singleton. eexists _, _.
    split; [vm_compute; reflexivity | vm_compute; reflexivity].
  - vm_compute. reflexivity.
  - vm_compute. reflexivity.
Defined.

(** ** The function [base64] (C7) *)

Lemma encode_isStd_64 :
  forallb (fun i => base64.isStd (base64.encode (N.of_nat i))) (seq 0 64) = true.
Proof. vm_compute. reflexivity. Qed.

Lemma sextet_isStd val shift : base64.isStd (base64.sextet val shift) = true.
Proof.
  unfold base64.sextet.
  assert (N.land (N.shiftr val shift) 63 < 64)%N as Hlt.
  { change 63%N with (N.ones 6). rewrite N.land_ones. by apply N.mod_lt. }
  pose proof (proj1 (forallb_forall _ _) encode_isStd_64
                (N.to_nat (N.land (N.shiftr val shift) 63))) as Hall.
  cbv beta in Hall. rewrite N2Nat.id in Hall. apply Hall.
  apply in_seq. lia.
Qed.

(** Induction on strings, three bytes at a time. *)
Lemma string_ind3 (P : string -> Prop) :
  P "" ->
  (forall a, P (String a "")) ->
  (forall a b, P (String a (String b ""))) ->
  (forall a b c s, P s -> P (String a (String b (String c s)))) ->
  forall s, P s.
Proof.
  intros H0 H1 H2 H3.
  fix IH 1. intros [|a [|b [|c s]]]; [apply H0 | apply H1 | apply H2 |].
  apply H3, IH.
Qed.

Lemma EncodeToString_isStd src :
  strs.all base64.isStd (base64.EncodeToString src) = true.
Proof.
  induction src as [|a|a b|a b c src IH] using string_ind3; [done| | |].
  - cbn [base64.EncodeToString strs.all]. by rewrite !sextet_isStd.
  - cbn [base64.EncodeToString strs.all]. by rewrite !sextet_isStd.
  - cbn [base64.EncodeToString strs.all]. by rewrite !sextet_isStd, IH.
Qed.


(** Decoding gives back what was encoded. *)
Ltac divlia := zify; Z.to_euclidean_division_equations; lia.

Lemma valueOf_encode_64 :
  forallb (fun i =>
             match rfc4648.valueOf (base64.encode (N.of_nat i)) with
             | Some j => (j =? N.of_nat i)%N
             | None => false
             end && negb (Ascii.eqb (base64.encode (N.of_nat i)) "="))
    (seq 0 64) = true.
Proof. vm_compute. reflexivity. Qed.

Lemma valueOf_sextet val shift :
  rfc4648.valueOf (base64.sextet val shift) = Some (N.shiftr val shift mod 64)%N /\
  Ascii.eqb (base64.sextet val shift) "=" = false.
Proof.
  unfold base64.sextet. change 63%N with (N.ones 6). rewrite N.land_ones.
  change (2 ^ 6)%N with 64%N.
  assert (N.shiftr val shift mod 64 < 64)%N as Hlt by by apply N.mod_lt.
  generalize dependent (N.shiftr val shift mod 64)%N. intros i Hlt.
  pose proof (proj1 (forallb_forall _ _) valueOf_encode_64 (N.to_nat i)) as Hall.
  cbv beta in Hall. rewrite N2Nat.id in Hall.
  assert (In (N.to_nat i) (seq 0 64)) as Hin by (apply in_seq; lia).
  apply Hall, andb_true_iff in Hin as [Hvalue Hpad].
  destruct (rfc4648.valueOf _) as [j|]; [|done].
  apply N.eqb_eq in Hvalue as ->. split; [done|]. by apply negb_true_iff.
Qed.

Lemma lor_shifted (y x k : N) :
  (x < 2 ^ k)%N -> N.lor (N.shiftl y k) x = (y * 2 ^ k + x)%N.
Proof.
  intros Hx. rewrite N.shiftl_mul_pow2.
  assert (N.land (y * 2 ^ k) x = 0%N) as Hland.
  { apply N.bits_inj. intros n. rewrite N.land_spec, N.bits_0.
    destruct (N.lt_ge_cases n k) as [Hn | Hn].
    - by rewrite N.mul_pow2_bits_low.
    - apply andb_false_iff. right. destruct (N.eq_dec x 0%N) as [->|Hpos].
      + apply N.bits_0.
      + apply N.bits_above_log2. apply N.log2_lt_pow2; [lia|].
        eapply N.lt_le_trans; [exact Hx|]. apply N.pow_le_mono_r; lia. }
  rewrite <- N.lxor_lor by done. symmetry. by apply N.add_nocarry_lxor.
Qed.

(** The 24 bits of a group of three bytes. *)
Lemma group_value (a b c : N) :
  (a < 256)%N -> (b < 256)%N -> (c < 256)%N ->
  N.lor (N.lor (N.shiftl a 16) (N.shiftl b 8)) c = (a * 65536 + b * 256 + c)%N.
Proof.
  intros Ha Hb Hc.
  assert (2 ^ 8 = 256)%N as H8 by done. assert (2 ^ 16 = 65536)%N as H16 by done.
  rewrite (N.shiftl_mul_pow2 b), (lor_shifted a) by lia.
  replace (a * 2 ^ 16 + b * 2 ^ 8)%N with (N.shiftl (a * 256 + b) 8)
    by (rewrite N.shiftl_mul_pow2; lia).
  rewrite lor_shifted by lia. lia.
Qed.

Lemma sextets (a b c : N) :
  (a < 256)%N -> (b < 256)%N -> (c < 256)%N ->
  let val := (a * 65536 + b * 256 + c)%N in
  (N.shiftr val 18 mod 64 = a / 4 /\
   N.shiftr val 12 mod 64 = a mod 4 * 16 + b / 16 /\
   N.shiftr val 6 mod 64 = b mod 16 * 4 + c / 64 /\
   N.shiftr val 0 mod 64 = c mod 64)%N.
Proof.
  intros Ha Hb Hc val. subst val. rewrite !N.shiftr_div_pow2.
  change (2 ^ 18)%N with 262144%N. change (2 ^ 12)%N with 4096%N.
  change (2 ^ 6)%N with 64%N. change (2 ^ 0)%N with 1%N.
  repeat split; divlia.
Qed.

Lemma regroup (a b c : N) :
  (a < 256)%N -> (b < 256)%N -> (c < 256)%N ->
  (a / 4 * 4 + (a mod 4 * 16 + b / 16) / 16 = a /\
   (a mod 4 * 16 + b / 16) mod 16 * 16 + (b mod 16 * 4 + c / 64) / 4 = b /\
   (b mod 16 * 4 + c / 64) mod 4 * 64 + c mod 64 = c)%N.
Proof. intros Ha Hb Hc. repeat split; divlia. Qed.

Lemma N_of_ascii_lt c : (N_of_ascii c < 256)%N.
Proof. destruct c as [[] [] [] [] [] [] [] []]; vm_compute; done. Qed.

Lemma Decode_group a b c rest decoded :
  rfc4648.Decode rest = Some decoded ->
  let val := N.lor (N.lor (N.shiftl (N_of_ascii a) 16) (N.shiftl (N_of_ascii b) 8))
               (N_of_ascii c) in
  rfc4648.Decode
    (String (base64.sextet val 18) (String (base64.sextet val 12)
       (String (base64.sextet val 6) (String (base64.sextet val 0) rest))))
  = Some (String a (String b (String c decoded))).
Proof.
  intros Hrest val. subst val.
  pose proof (N_of_ascii_lt a) as Ha. pose proof (N_of_ascii_lt b) as Hb.
  pose proof (N_of_ascii_lt c) as Hc.
  rewrite (group_value _ _ _ Ha Hb Hc).
  destruct (sextets _ _ _ Ha Hb Hc) as (H0 & H1 & H2 & H3).
  destruct (regroup _ _ _ Ha Hb Hc) as (Ra & Rb & Rc).
  cbn [rfc4648.Decode].
  rewrite (proj1 (valueOf_sextet _ 18)), (proj1 (valueOf_sextet _ 12)),
    (proj1 (valueOf_sextet _ 6)), (proj1 (valueOf_sextet _ 0)),
    (proj2 (valueOf_sextet _ 0)), Hrest, H0, H1, H2, H3.
  cbn [mbind option_bind]. unfold rfc4648.first, rfc4648.second, rfc4648.third.
  by rewrite Ra, Rb, Rc, !ascii_N_embedding.
Qed.

Lemma Decode_EncodeToString src :
  rfc4648.Decode (base64.EncodeToString src) = Some src.
Proof.
  induction src as [|a|a b|a b c src IH] using string_ind3; [done| | |].
  - pose proof (N_of_ascii_lt a) as Ha.
    cbn [base64.EncodeToString].
    assert (2 ^ 16 = 65536)%N as H16 by done.
    replace (N.shiftl (N_of_ascii a) 16) with (N_of_ascii a * 65536 + 0 * 256 + 0)%N
      by (rewrite N.shiftl_mul_pow2; lia).
    destruct (sextets _ 0 0 Ha eq_refl eq_refl) as (H0 & H1 & _).
    destruct (regroup _ 0 0 Ha eq_refl eq_refl) as (Ra & _).
    cbn [rfc4648.Decode].
    rewrite (proj1 (valueOf_sextet _ 18)), (proj1 (valueOf_sextet _ 12)), H0, H1.
    cbn. unfold rfc4648.first. by rewrite Ra, ascii_N_embedding.
  - pose proof (N_of_ascii_lt a) as Ha. pose proof (N_of_ascii_lt b) as Hb.
    cbn [base64.EncodeToString].
    replace (N.lor (N.shiftl (N_of_ascii a) 16) (N.shiftl (N_of_ascii b) 8))
      with (N_of_ascii a * 65536 + N_of_ascii b * 256 + 0)%N
      by (rewrite <- (group_value _ _ 0) by done; by rewrite N.lor_0_r).
    destruct (sextets _ _ 0 Ha Hb eq_refl) as (H0 & H1 & H2 & _).
    destruct (regroup _ _ 0 Ha Hb eq_refl) as (Ra & Rb & _).
    cbn [rfc4648.Decode].
    rewrite (proj1 (valueOf_sextet _ 18)), (proj1 (valueOf_sextet _ 12)),
      (proj1 (valueOf_sextet _ 6)), (proj2 (valueOf_sextet _ 6)), H0, H1, H2.
    cbn. unfold rfc4648.first, rfc4648.second. by rewrite Ra, Rb, !ascii_N_embedding.
  - cbn [base64.EncodeToString]. by apply Decode_group.
Qed.

(** What [Execute] does on a template whose unit [name] is the tree [tr]. *)
Lemma Execute_unit {W} `{io.Writer W} stack t (writer : W) name tr data :
  tmpl.Lookup (template t) name = Some (name, tr) ->
  rendered stack t name data =
  tmpl.Execute (funcMap t (executeFunc stack t)) (Some (name, tr)) bytes.empty data.
Proof. intros Hlookup. unfold rendered, tmpl.ExecuteTemplate. by rewrite Hlookup. Qed.

Lemma append_empty_r (s : string) : s +:+ "" = s.
Proof.
  induction s as [|c s IH]; [done|].
  change (String c (s +:+ "") = String c s). by rewrite IH.
Qed.

(** A [bytes.Buffer] as destination takes everything. *)
Lemma Execute_into_buffer stack t (writer : bytes.Buffer) name data out :
  rendered stack t name data = (out, Ok tt) ->
  exists log,
    Execute stack t writer name data = ((writer +:+ out, log), Ok tt).
Proof.
  intros Hrendered. rewrite Execute_unfold, Hrendered.
  unfold bytes.WriteTo, io.Write, bytes.Buffer_Writer.
  destruct out as [|c out].
  - cbn. rewrite append_empty_r. eauto.
  - change (0 <? String.length (String c out))%nat with true. cbv iota.
    rewrite Nat.ltb_irrefl, Nat.eqb_refl. cbn. eauto.
Qed.



(** ** [execute] piped into [base64] (C8) *)

(** A unit that renders is a unit that [executeFunc] returns the text of,
    given room for one more execution. *)
Lemma executeFunc_rendered stack t name data out :
  rendered stack t name data = (out, Ok tt) ->
  executeFunc (S stack) t name data = Ok out.
Proof.
  unfold rendered, tmpl.ExecuteTemplate. intros Hrendered.
  change (executeFunc (S stack) t name data)
    with (let '(buffer, err) :=
            tmpl.Execute (funcMap t (executeFunc stack t))
              (tmpl.Lookup (template t) name) bytes.empty data in
          _ ← err; @Ok string (bytes.String buffer)).
  destruct (tmpl.Lookup (template t) name) as [found|]; [|done].
  by rewrite Hrendered.
Qed.

(** C8.  Take a template with a unit whose body is
    [{{ execute "inner.tmpl" . | base64 }}], and an input with which the
    unit [inner.tmpl] renders to [hi].  Executing the outer unit with that
    input, with room on the stack for the execution it nests, writes exactly
    [aGk=]. *)
Theorem execute_then_base64 (stack : nat) (t : Template) (outer : string)
    (tr : tmpl.Tree) (data : value) (writer : bytes.Buffer) :
  compile outer ("{{ execute " +:+ strs.quoted "inner.tmpl" +:+ " . | base64 }}") = Ok tr ->
  tmpl.Lookup (template t) outer = Some (outer, tr) ->
  rendered stack t "inner.tmpl" data = ("hi", Ok tt) ->
  exists log,
    Execute (S stack) t writer outer data = ((writer +:+ "aGk=", log), Ok tt).
Proof.
  intros Hcompile Houter Hinner.
  apply Execute_into_buffer. rewrite (Execute_unit _ t writer outer tr data Houter).
  compiled Hcompile.
  pose proof (executeFunc_rendered _ _ _ _ _ Hinner) as Hexecute.
  remember (executeFunc (S stack) t) as execute eqn:Hdef. clear Hdef.
  vm_compute. rewrite Hexecute. reflexivity.
Qed.

Lemma execute_then_base64_witness :
  exists log,
    Execute (W := bytes.Buffer) 1 example.built "" "outer.tmpl" VNil
    = (("" +:+ "aGk=", log), Ok tt).
Proof.
  eapply (execute_then_base64 0 example.built "outer.tmpl").
  - vm_compute. reflexivity.
  - vm_compute. reflexivity.
  - vm_compute. reflexivity.
Defined.

(** ** The function [json] (C9) *)

Lemma append_String c s t : String c s +:+ t = String c (s +:+ t).
Proof. reflexivity. Qed.

Lemma Chars_app s t : grammar.Chars s -> grammar.Chars t -> grammar.Chars (s +:+ t).
Proof.
  induction 1; intros Ht; [done|..]; rewrite ?append_String.
  - apply grammar.chars_plain; auto.
  - apply grammar.chars_escape; auto.
  - apply grammar.chars_unicode; auto.
Qed.

Ltac chars :=
  repeat first
    [ apply grammar.chars_end
    | apply grammar.chars_plain; [reflexivity|]
    | apply grammar.chars_escape; [reflexivity|]
    | apply grammar.chars_unicode; [reflexivity|] ].

Lemma htmlSafe_unescaped c :
  json.htmlSafe (N_of_ascii c) = true -> grammar.unescaped c = true.
Proof. destruct c as [[] [] [] [] [] [] [] []]; vm_compute; done. Qed.

Lemma high_unescaped c :
  (128 <=? N_of_ascii c)%N = true -> grammar.unescaped c = true.
Proof. destruct c as [[] [] [] [] [] [] [] []]; vm_compute; done. Qed.

Lemma isStd_unescaped c : base64.isStd c = true -> grammar.unescaped c = true.
Proof. destruct c as [[] [] [] [] [] [] [] []]; vm_compute; done. Qed.

Lemma escapeByte_Chars c : grammar.Chars (json.escapeByte c).
Proof. destruct c as [[] [] [] [] [] [] [] []]; vm_compute; chars. Qed.

Lemma hexdigit_isHex_16 :
  forallb (fun i => grammar.isHex (json.hexdigit (N.of_nat i))) (seq 0 16) = true.
Proof. vm_compute. reflexivity. Qed.

Lemma hexdigit_isHex x : grammar.isHex (json.hexdigit (N.land x 15)) = true.
Proof.
  assert (N.land x 15 < 16)%N as Hlt.
  { change 15%N with (N.ones 4). rewrite N.land_ones. by apply N.mod_lt. }
  pose proof (proj1 (forallb_forall _ _) hexdigit_isHex_16 (N.to_nat (N.land x 15))) as Hall.
  cbv beta in Hall. rewrite N2Nat.id in Hall. apply Hall. apply in_seq. lia.
Qed.

Lemma lineSeparator_isHex s d : json.lineSeparator s = Some d -> grammar.isHex d = true.
Proof.
  destruct s as [|b0 [|b1 [|b2 s]]]; try done. cbn.
  destruct (_ && _ && _); [|done]. intros [= <-]. apply hexdigit_isHex.
Qed.

Lemma between_high lo hi c :
  (128 <= lo)%N -> utf8.between lo hi c = true -> (128 <=? N_of_ascii c)%N = true.
Proof.
  unfold utf8.between. intros Hlo [H1 H2]%andb_true_iff.
  apply N.leb_le in H1. apply N.leb_le. lia.
Qed.

Lemma DecodeRuneSize_high c r size :
  utf8.DecodeRuneSize (String c r) = Some size -> high (size - 1) r.
Proof.
  cbn. destruct (utf8.between 194 223 c).
  { destruct r as [|b1 r]; [done|]. destruct (utf8.between 128 191 b1) eqn:H1; [|done].
    intros [= <-]. cbn. split; [|done]. by eapply between_high; [|exact H1]. }
  destruct (utf8.between 224 239 c).
  { destruct r as [|b1 [|b2 r]]; try done.
    destruct (utf8.between _ _ b1) eqn:H1; [|done].
    destruct (utf8.between 128 191 b2) eqn:H2; [|done].
    intros [= <-]. cbn. repeat split.
    - eapply between_high; [|exact H1]. by destruct (utf8.between 224 224 c).
    - by eapply between_high; [|exact H2]. }
  destruct (utf8.between 240 244 c); [|done].
  destruct r as [|b1 [|b2 [|b3 r]]]; try done.
  destruct (utf8.between _ _ b1) eqn:H1; [|done].
  destruct (utf8.between 128 191 b2) eqn:H2; [|done].
  destruct (utf8.between 128 191 b3) eqn:H3; [|done].
  intros [= <-]. cbn. repeat split.
  - eapply between_high; [|exact H1]. by destruct (utf8.between 240 240 c).
  - by eapply between_high; [|exact H2].
  - by eapply between_high; [|exact H3].
Qed.

Lemma escape_Chars s : forall pass skip,
  high pass s -> grammar.Chars (json.escape pass skip s).
Proof.
  induction s as [|c r IH]; intros pass skip Hhigh; [apply grammar.chars_end|].
  cbn [json.escape]. destruct pass as [|p].
  - destruct skip as [|k]; [|by apply IH].
    destruct (N_of_ascii c <? 128)%N eqn:Hascii.
    + apply Chars_app; [|by apply IH].
      destruct (json.htmlSafe (N_of_ascii c)) eqn:Hsafe; [|apply escapeByte_Chars].
      apply grammar.chars_plain; [by apply htmlSafe_unescaped | constructor].
    + destruct (utf8.DecodeRuneSize (String c r)) as [size|] eqn:Hsize.
      * destruct (json.lineSeparator (String c r)) as [d|] eqn:Hsep.
        -- change (grammar.Chars
                     (String "\" (String "u" (String "2" (String "0" (String "2"
                        (String d (json.escape 0 2 r)))))))).
           apply grammar.chars_unicode; [|by apply IH].
           by rewrite (lineSeparator_isHex _ _ Hsep).
        -- apply grammar.chars_plain.
           ++ apply high_unescaped. apply N.ltb_ge in Hascii. by apply N.leb_le.
           ++ apply IH. by apply DecodeRuneSize_high with c.
      * apply Chars_app; [chars | by apply IH].
  - destruct Hhigh as [Hc Hr].
    apply grammar.chars_plain; [by apply high_unescaped | by apply IH].
Qed.

Lemma appendString_Text s : grammar.Text (json.appendString s).
Proof.
  change (json.appendString s) with (strs.quoted (json.escape 0 0 s)).
  apply grammar.text_string, escape_Chars. done.
Qed.

(** Decimal numerals. *)
Lemma string_of_uint_digits d :
  strs.all grammar.isDigit (DecimalString.NilEmpty.string_of_uint d) = true.
Proof. induction d; cbn; auto. Qed.

Lemma nzhead_size d :
  Decimal.nb_digits (Decimal.nzhead d) <= Decimal.nb_digits d.
Proof. induction d; cbn; lia. Qed.

Lemma to_uint_no_leading_zero p u : Pos.to_uint p <> Decimal.D0 u.
Proof.
  intros Hd.
  assert (Decimal.unorm (Pos.to_uint p) = Pos.to_uint p) as Hnorm.
  { rewrite <- (DecimalPos.Unsigned.to_of (Pos.to_uint p)).
    by rewrite DecimalPos.Unsigned.of_to. }
  rewrite Hd, DecimalFacts.unorm_D0 in Hnorm.
  pose proof (nzhead_size u) as Hsize. unfold Decimal.unorm in Hnorm.
  destruct (Decimal.nzhead u) eqn:Hhead; simplify_eq; cbn in Hsize; try lia.
  by apply (DecimalPos.Unsigned.to_uint_nonzero p).
Qed.

Lemma to_uint_isNat p :
  grammar.isNat (DecimalString.NilZero.string_of_uint (Pos.to_uint p)) = true.
Proof.
  pose proof (to_uint_no_leading_zero p) as Hzero.
  pose proof (DecimalPos.Unsigned.to_uint_nonnil p) as Hnil.
  unfold DecimalString.NilZero.string_of_uint.
  destruct (Pos.to_uint p) as [|u|u|u|u|u|u|u|u|u|u]; try done;
    try (cbn; apply string_of_uint_digits).
  by destruct (Hzero u).
Qed.

Lemma itoa_isInt z : grammar.isInt (fmt.itoa z) = true.
Proof.
  unfold fmt.itoa. destruct z as [|p|p]; cbn; [done| |apply to_uint_isNat].
  pose proof (to_uint_isNat p) as Hnat.
  destruct (DecimalString.NilZero.string_of_uint (Pos.to_uint p)) as [|c r] eqn:Hs;
    [done|].
  unfold grammar.isInt. destruct (Ascii.eqb c "-") eqn:Hminus; [|done].
  apply Ascii.eqb_eq in Hminus. subst c. done.
Qed.

Lemma all_isStd_Chars s : strs.all base64.isStd s = true -> grammar.Chars s.
Proof.
  induction s as [|c s IH]; cbn; [constructor|].
  intros [Hc Hs]%andb_true_iff.
  apply grammar.chars_plain; [by apply isStd_unescaped | auto].
Qed.

(** Induction on values. *)
Lemma value_ind' (P : value -> Prop) :
  P VNil ->
  (forall b, P (VBool b)) ->
  (forall z, P (VInt z)) ->
  (forall s, P (VString s)) ->
  (forall s, P (VBytes s)) ->
  P VNilBytes ->
  (forall type str repr, P repr -> P (VStringer type str repr)) ->
  (forall type, P (VNilStringer type)) ->
  (forall l, Forall P l -> P (VList l)) ->
  P VNilList ->
  (forall m, Forall (fun kv => P (snd kv)) m -> P (VMap m)) ->
  P VNilMap ->
  (forall elem addr, P (VChan elem addr)) ->
  (forall type addr, P (VFunc type addr)) ->
  (forall type addr printed, P (VCyclic type addr printed)) ->
  forall v, P v.
Proof.
  intros HNil HBool HInt HString HBytes HNilBytes HStringer HNilStringer HList HNilList
    HMap HNilMap HChan HFunc HCyclic.
  fix IH 1.
  intros [|b|z|s|s| |type str repr|type|l| |m| |elem addr|type addr|type addr printed].
  - apply HNil.
  - apply HBool.
  - apply HInt.
  - apply HString.
  - apply HBytes.
  - apply HNilBytes.
  - apply HStringer, IH.
  - apply HNilStringer.
  - apply HList. induction l as [|v l IHl]; constructor; [apply IH | apply IHl].
  - apply HNilList.
  - apply HMap. induction m as [|[k v] m IHm]; constructor; [apply IH | apply IHm].
  - apply HNilMap.
  - apply HChan.
  - apply HFunc.
  - apply HCyclic.
Qed.

(** Sorting by key and what is done to the values. *)
Lemma insert_by_key_map {A B} (f : A -> B) k a (l : list (string * A)) :
  strs.insert_by_key k (f a) (map (fun kv => (fst kv, f (snd kv))) l)
  = map (fun kv => (fst kv, f (snd kv))) (strs.insert_by_key k a l).
Proof.
  induction l as [|[k' a'] l IH]; cbn; [done|].
  destruct (String.ltb k' k); cbn; [by rewrite IH | done].
Qed.

Lemma sort_by_key_map {A B} (f : A -> B) (l : list (string * A)) :
  strs.sort_by_key (map (fun kv => (fst kv, f (snd kv))) l)
  = map (fun kv => (fst kv, f (snd kv))) (strs.sort_by_key l).
Proof.
  induction l as [|[k a] l IH]; cbn; [done|]. by rewrite IH, insert_by_key_map.
Qed.

Lemma forallb_insert_by_key {A} (f : string * A -> bool) k a l :
  forallb f (strs.insert_by_key k a l) = f (k, a) && forallb f l.
Proof.
  induction l as [|[k' a'] l IH]; cbn; [done|].
  destruct (String.ltb k' k); cbn; [|done]. rewrite IH.
  by destruct (f (k, a)), (f (k', a')).
Qed.

Lemma forallb_sort_by_key {A} (f : string * A -> bool) l :
  forallb f (strs.sort_by_key l) = forallb f l.
Proof.
  induction l as [|[k a] l IH]; cbn; [done|]. by rewrite forallb_insert_by_key, IH.
Qed.

(** Reading back what [escape] writes. *)
Lemma Unescape_ascii c rest decoded :
  (N_of_ascii c <? 128)%N = true ->
  rfc8259.Unescape rest = Some decoded ->
  rfc8259.Unescape
    ((if json.htmlSafe (N_of_ascii c) then String c "" else json.escapeByte c) +:+ rest)
  = Some (String c decoded).
Proof.
  intros Hc Hrest.
  destruct c as [[] [] [] [] [] [] [] []]; try discriminate Hc;
    cbv -[rfc8259.Unescape]; cbn [rfc8259.Unescape];
    cbv -[rfc8259.Unescape]; by rewrite Hrest.
Qed.

Lemma lineSeparator_inv c r d :
  json.lineSeparator (String c r) = Some d ->
  exists b2 r'',
    r = String (ascii_of_N 128) (String b2 r'') /\
    c = ascii_of_N 226 /\
    ((b2 = ascii_of_N 168 /\ d = "8"%char) \/ (b2 = ascii_of_N 169 /\ d = "9"%char)).
Proof.
  destruct r as [|b1 [|b2 r'']]; try done. cbn [json.lineSeparator].
  destruct (utf8.between 226 226 c) eqn:Hc; [|done].
  destruct (utf8.between 128 128 b1) eqn:Hb1; [|done].
  destruct (utf8.between 168 169 b2) eqn:Hb2; [|done]. cbn [andb].
  intros [= <-]. exists b2, r''.
  unfold utf8.between in *.
  apply andb_true_iff in Hc as [Hc1 Hc2]. apply andb_true_iff in Hb1 as [Hb11 Hb12].
  apply andb_true_iff in Hb2 as [Hb21 Hb22].
  apply N.leb_le in Hc1, Hc2, Hb11, Hb12, Hb21, Hb22.
  assert (N_of_ascii c = 226%N) as Hc by lia.
  assert (N_of_ascii b1 = 128%N) as Hb1 by lia.
  assert (N_of_ascii b2 = 168%N \/ N_of_ascii b2 = 169%N) as Hb2 by lia.
  rewrite <- (ascii_N_embedding c), <- (ascii_N_embedding b1), Hc, Hb1.
  split; [done|]. split; [done|].
  rewrite <- (ascii_N_embedding b2).
  destruct Hb2 as [-> | ->]; [left | right]; done.
Qed.

Lemma Unescape_high c rest decoded :
  (128 <=? N_of_ascii c)%N = true ->
  rfc8259.Unescape rest = Some decoded ->
  rfc8259.Unescape (String c rest) = Some (String c decoded).
Proof.
  intros Hc Hrest. cbn [rfc8259.Unescape].
  assert (Ascii.eqb c "\" = false) as ->.
  { apply Ascii.eqb_neq. intros ->. done. }
  rewrite (high_unescaped _ Hc), Hrest. done.
Qed.

(** The string between the quotes reads as the Go string, coerced to valid
    UTF-8. *)
Lemma Unescape_escape s :
  (forall pass, high pass s ->
     rfc8259.Unescape (json.escape pass 0 s) = Some (replaced pass s)) /\
  (forall skip,
     rfc8259.Unescape (json.escape 0 skip s) = Some (replaced 0 (strs.drop skip s))).
Proof.
  induction s as [|c r [IHpass IHskip]]; [by split; intros [|?]|].
  assert (forall pass, high pass (String c r) ->
            rfc8259.Unescape (json.escape pass 0 (String c r))
            = Some (replaced pass (String c r)))
    as Hpass.
  { intros [|p] Hhigh.
    - cbn [json.escape replaced] in *.
      destruct (N_of_ascii c <? 128)%N eqn:Hc.
      + apply Unescape_ascii; [done|]. by apply IHpass.
      + assert ((128 <=? N_of_ascii c)%N = true) as Hc'.
        { apply N.leb_le. apply N.ltb_ge in Hc. done. }
        destruct (utf8.DecodeRuneSize (String c r)) as [size|] eqn:Hsize.
        * destruct (json.lineSeparator (String c r)) as [d|] eqn:Hsep.
          -- destruct (lineSeparator_inv _ _ _ Hsep) as (b2 & r'' & -> & -> & Hb2).
             assert (size = 3) as -> by (by destruct Hb2 as [[-> _] | [-> _]];
                                           vm_compute in Hsize; injection Hsize).
             pose proof (IHskip 2) as Hrest. cbn [strs.drop] in Hrest.
             destruct Hb2 as [[-> ->] | [-> ->]];
               change ("\u202" +:+ String ?d ?x)
                 with (String "\" (String "u" (String "2" (String "0" (String "2"
                         (String d x))))));
               cbn [rfc8259.Unescape]; rewrite Hrest; reflexivity.
          -- apply Unescape_high; [done|]. apply IHpass.
             by apply DecodeRuneSize_high with c.
        * change ("\ufffd" +:+ ?x)
            with (String "\" (String "u" (String "f" (String "f" (String "f"
                    (String "d" x))))));
          cbn [rfc8259.Unescape]. rewrite (IHpass 0 I). reflexivity.
    - cbn [json.escape replaced high] in *. destruct Hhigh as [Hc Hhigh].
      apply Unescape_high; [done|]. by apply IHpass. }
  split; [done|].
  intros [|k]; [by apply Hpass|].
  cbn [json.escape strs.drop]. by apply IHskip.
Qed.

(** Valid UTF-8 is left as it is. *)
Lemma replaced_valid s : forall pass, utf8.valid pass s = true -> replaced pass s = s.
Proof.
  induction s as [|c r IH]; intros pass Hvalid; [done|].
  cbn [replaced utf8.valid] in *. destruct pass as [|p]; [|by rewrite IH].
  destruct (N_of_ascii c <? 128)%N; [by rewrite IH|].
  destruct (utf8.DecodeRuneSize (String c r)); [by rewrite IH | done].
Qed.

(** A Base64 encoding reads as itself. *)
Lemma Unescape_isStd s : strs.all base64.isStd s = true -> rfc8259.Unescape s = Some s.
Proof.
  induction s as [|c s IH]; cbn [strs.all rfc8259.Unescape]; [done|].
  intros [Hc Hs]%andb_true_iff. rewrite (isStd_unescaped _ Hc), (IH Hs).
  assert (Ascii.eqb c "\" = false) as ->; [|done].
  apply Ascii.eqb_neq. intros ->. done.
Qed.

(** A numeral reads as the integer it was made from. *)
Lemma numberOf_itoa z : numberOf (fmt.itoa z) = Some z.
Proof.
  unfold numberOf, fmt.itoa. rewrite DecimalString.NilZero.isi.
  - cbn. by rewrite DecimalZ.of_to.
  - destruct z as [|p|p]; cbn; try done.
    intros [= Hnil]. by apply (DecimalPos.Unsigned.to_uint_nonnil p).
  - destruct z as [|p|p]; cbn; try done.
    intros [= Hnil]. by apply (DecimalPos.Unsigned.to_uint_nonnil p).
Qed.

(** The elements of an array, and the members of an object. *)
Lemma collect_cases l :
  Forall (fun v => if serializable v then encoded v (json.Marshal v)
                   else refused (json.Marshal v)) l ->
  if forallb serializable l
  then exists xs,
         json.collect (map json.Marshal l) = Ok xs /\
         Forall grammar.Text xs /\ Forall2 Denotes xs (map meaning l)
  else refused (json.collect (map json.Marshal l)).
Proof.
  induction 1 as [|v l Hv _ IH]; cbn.
  - exists []. by repeat split.
  - destruct (serializable v); cbn.
    + destruct Hv as (text & -> & Htext & Hdenotes). cbn.
      destruct (forallb serializable l).
      * destruct IH as (xs & -> & Hxs & Hall). cbn.
        exists (text :: xs). by repeat split; constructor.
      * destruct IH as (e & -> & He). cbn. by exists e.
    + destruct Hv as (e & -> & He). cbn. by exists e.
Qed.

Lemma collect_fields_cases (m : list (string * value)) :
  Forall (fun kv => if serializable (snd kv) then encoded (snd kv) (json.Marshal (snd kv))
                    else refused (json.Marshal (snd kv))) m ->
  if forallb (fun kv => serializable (snd kv)) m
  then exists kvs,
         json.collect_fields (map (fun kv => (fst kv, json.Marshal (snd kv))) m)
         = Ok (map grammar.member kvs) /\
         Forall (fun kv => grammar.Chars (fst kv)) kvs /\
         Forall (fun kv => grammar.Text (snd kv)) kvs /\
         Forall2 (fun kv jm =>
                    rfc8259.Unescape (fst kv) = Some (fst jm) /\
                    Denotes (snd kv) (snd jm))
           kvs (map (fun kv => (replaced 0 (fst kv), meaning (snd kv))) m)
  else refused (json.collect_fields (map (fun kv => (fst kv, json.Marshal (snd kv))) m)).
Proof.
  induction 1 as [|[k v] m Hv _ IH]; cbn.
  - exists []. by repeat split.
  - cbn in Hv. destruct (serializable v); cbn.
    + destruct Hv as (text & -> & Htext & Hdenotes). cbn.
      destruct (forallb (fun kv => serializable (snd kv)) m).
      * destruct IH as (kvs & -> & Hkeys & Hvals & Hall). cbn.
        exists ((json.escape 0 0 k, text) :: kvs). split; [done|].
        repeat split; constructor; try done.
        -- cbn. by apply escape_Chars.
        -- cbn. split; [|done]. by apply Unescape_escape.
      * destruct IH as (e & -> & He). cbn. by exists e.
    + destruct Hv as (e & -> & He). cbn. by exists e.
Qed.

(** [Marshal] encodes the serializable values, as JSON texts that denote
    them, and refuses the others; it does nothing else. *)
Lemma Marshal_cases v :
  if serializable v then encoded v (json.Marshal v) else refused (json.Marshal v).
Proof.
  induction v as [|b|z|s|s| |type str repr IH|type|l IH| |m IH| |elem addr|type addr
                  |type addr printed] using value_ind';
    cbn [serializable json.Marshal].
  - eexists. split; [done|]. split; constructor.
  - destruct b; (eexists; split; [done|]; split; constructor).
  - eexists. split; [done|]. split.
    + apply grammar.text_number, itoa_isInt.
    + apply denotes_number; [apply itoa_isInt | apply numberOf_itoa].
  - eexists. split; [done|]. split; [apply appendString_Text|].
    change (json.appendString s) with (strs.quoted (json.escape 0 0 s)).
    apply denotes_string; [by apply escape_Chars | by apply Unescape_escape].
  - eexists. split; [done|].
    change (json.quote +:+ base64.EncodeToString s +:+ json.quote)
      with (strs.quoted (base64.EncodeToString s)).
    split.
    + apply grammar.text_string, all_isStd_Chars, EncodeToString_isStd.
    + apply denotes_string.
      * apply all_isStd_Chars, EncodeToString_isStd.
      * apply Unescape_isStd, EncodeToString_isStd.
  - eexists. split; [done|]. split; constructor.
  - exact IH.
  - eexists. split; [done|]. split; constructor.
  - pose proof (collect_cases l IH) as Hcases.
    destruct (forallb serializable l).
    + destruct Hcases as (xs & -> & Hxs & Hall). eexists. split; [done|]. split.
      * by apply grammar.text_array.
      * by apply denotes_array.
    + destruct Hcases as (e & -> & He). by exists e.
  - eexists. split; [done|]. split; constructor.
  - rewrite (sort_by_key_map json.Marshal).
    assert (Forall (fun kv => if serializable (snd kv)
                              then encoded (snd kv) (json.Marshal (snd kv))
                              else refused (json.Marshal (snd kv)))
              (strs.sort_by_key m)) as IH'.
    { by rewrite sort_by_key_perm. }
    pose proof (collect_fields_cases _ IH') as Hcases.
    rewrite forallb_sort_by_key in Hcases.
    destruct (forallb (fun kv => serializable (snd kv)) m).
    + destruct Hcases as (kvs & -> & Hkeys & Hvals & Hall). eexists. split; [done|].
      split; [by apply grammar.text_object|].
      cbn [meaning]. rewrite (sort_by_key_map meaning), map_map.
      by apply denotes_object.
    + destruct Hcases as (e & -> & He). by exists e.
  - eexists. split; [done|]. split; constructor.
  - eexists. split; [done|]. left. by eexists.
  - eexists. split; [done|]. left. by eexists.
  - eexists. split; [done|]. right. by eexists.
Qed.

Lemma jsonFunc_Marshal t v : jsonFunc t v = json.Marshal v.
Proof. unfold jsonFunc. by destruct (json.Marshal v). Qed.

(** What is nil and what is empty are told apart. *)
Lemma jsonFunc_nil_and_empty t :
  jsonFunc t (VList [VBytes ""; VList []; VMap []])
  = Ok ("[" +:+ strs.quoted "" +:+ ",[],{}]") /\
  jsonFunc t (VList [VNilBytes; VNilList; VNilMap; VNil]) = Ok "[null,null,null,null]".
Proof. by split. Qed.

(** C9.  For a value without a channel, a function or a cycle in it,
    [jsonFunc] returns a JSON text, a member of the grammar of RFC 8259
    that stands alone, and this text denotes the JSON value that the Go
    value stands for: a boolean its literal, an integer its numeral, a
    string the string between quotes that reads as it, a byte slice the
    string of its Base64 encoding, a slice the array of its elements, a map
    the object of its entries by ascending key, what is nil null.  For a
    value with a channel, a function or a cycle in it, and only then, it
    fails with an error of serialization.  The text for a string value is a
    string with its quotes, and the text for a byte slice is the string of
    what decodes, after RFC 4648, to the bytes.  A unit with the body
    [{{ json . }}] renders the map with the one entry "a": 1 to the text
    [{"a":1}]. *)
Theorem jsonFunc_encodes :
  (forall t v, serializable v = true ->
     exists text,
       jsonFunc t v = Ok text /\ grammar.Text text /\ Denotes text (meaning v)) /\
  (forall t v, serializable v = false ->
     exists e, jsonFunc t v = Err e /\ is_SerializationError e) /\
  (forall t s,
     exists body,
       jsonFunc t (VString s) = Ok (strs.quoted body) /\
       grammar.Chars body /\
       rfc8259.Unescape body = Some (replaced 0 s)) /\
  (forall t s,
     exists body,
       jsonFunc t (VBytes s) = Ok (strs.quoted body) /\
       rfc4648.Decode body = Some s) /\
  (forall stack t name tr (writer : bytes.Buffer),
     compile name "{{ json . }}" = Ok tr ->
     tmpl.Lookup (template t) name = Some (name, tr) ->
     exists log,
       Execute stack t writer name (VMap [("a", VInt 1)])
       = ((writer +:+ "{" +:+ strs.quoted "a" +:+ ":1}", log), Ok tt)).
Proof.
  split; [|split; [|split; [|split]]].
  - intros t v Hv. rewrite jsonFunc_Marshal.
    pose proof (Marshal_cases v) as Hcase. by rewrite Hv in Hcase.
  - intros t v Hv. rewrite jsonFunc_Marshal.
    pose proof (Marshal_cases v) as Hcase. by rewrite Hv in Hcase.
  - intros t s. exists (json.escape 0 0 s). split; [done|].
    split; [by apply escape_Chars | by apply Unescape_escape].
  - intros t s. exists (base64.EncodeToString s). split; [done|].
    apply Decode_EncodeToString.
  - intros stack t name tr writer Hcompile Hlookup.
    apply Execute_into_buffer. rewrite (Execute_unit stack t writer name tr _ Hlookup).
    compiled Hcompile. reflexivity.
Qed.

Lemma jsonFunc_encodes_witness :
  (exists text,
     jsonFunc example.built (VList [VString "a<b"; VInt (-3); VBool true; VNilList])
     = Ok text /\
     grammar.Text text /\
     Denotes text (meaning (VList [VString "a<b"; VInt (-3); VBool true; VNilList]))) /\
  (exists e,
     jsonFunc example.built (VMap [("c", VChan "int" 4096)]) = Err e /\
     is_SerializationError e) /\
  (exists log,
     Execute (W := bytes.Buffer) 0 example.built "" "lib/json.tmpl" (VMap [("a", VInt 1)])
     = (("" +:+ "{" +:+ strs.quoted "a" +:+ ":1}", log), Ok tt)).
Proof.
  split; [|split].
  - apply (proj1 jsonFunc_encodes). reflexivity.
  - apply (proj1 (proj2 jsonFunc_encodes)). reflexivity.
  - eapply (proj2 (proj2 (proj2 (proj2 jsonFunc_encodes)))).
    + vm_compute. reflexivity.
    + vm_compute. reflexivity.
Defined.

(** ** Slices in memory *)

Lemma fits_nil m : fits m slices.nil.
Proof. done. Qed.

Lemma contents_length m s : fits m s -> length (slices.contents m s) = slices.len s.
Proof.
  unfold fits, slices.contents, slices.backing.
  destruct (slices.array s) as [a|]; [|by intros ->].
  intros (arr & -> & Hlen). cbn. rewrite length_take. lia.
Qed.

Lemma append_contents m s v :
  fits m s ->
  fits (fst (slices.append m s v)) (snd (slices.append m s v)) /\
  slices.contents (fst (slices.append m s v)) (snd (slices.append m s v))
  = (slices.contents m s ++ [v])%list.
Proof.
  intros Hfits. unfold fits in Hfits.
  unfold slices.append, slices.cap, slices.alloc.
  destruct (slices.array s) as [a|] eqn:Harray.
  - destruct Hfits as (arr & Harr & Hlen).
    pose proof (lookup_lt_Some _ _ _ Harr) as Ha.
    assert (slices.backing m s = arr) as Hback.
    { unfold slices.backing. by rewrite Harray, Harr. }
    assert (slices.contents m s = take (slices.len s) arr) as Hcont.
    { unfold slices.contents. by rewrite Hback. }
    rewrite !Hcont, !Hback.
    destruct (slices.len s <? length arr)%nat eqn:Hroom; cbn [fst snd];
      unfold fits, slices.contents, slices.backing; cbn [slices.array slices.len].
    + apply Nat.ltb_lt in Hroom. rewrite list_lookup_insert_eq by done.
      cbn [default]. split.
      * eexists. split; [done|]. rewrite length_insert. lia.
      * rewrite (take_S_r _ _ v) by by apply list_lookup_insert_eq.
        unfold id. by rewrite take_insert_ge.
    + apply Nat.ltb_ge in Hroom. assert (slices.len s = length arr) as Hfull by lia.
      rewrite lookup_app_r, Nat.sub_diag by done. cbn [lookup list_lookup default].
      split.
      * eexists. split; [done|].
        rewrite length_app, length_take. cbn. rewrite length_replicate. lia.
      * unfold id. rewrite Hfull, firstn_all.
        change (v :: replicate (length arr) "")
          with ([v] ++ replicate (length arr) "")%list.
        rewrite (assoc_L (++)). apply take_app_length'.
        rewrite length_app. cbn. lia.
  - assert (slices.contents m s = []) as Hcont.
    { unfold slices.contents, slices.backing. rewrite Harray. by destruct (slices.len s). }
    rewrite Hcont. cbn [fst snd]. unfold fits, slices.contents, slices.backing.
    cbn [slices.array slices.len].
    rewrite lookup_app_r, Nat.sub_diag by done. cbn [lookup list_lookup default].
    split; [|done].
    eexists. split; [done|]. cbn. lia.
Qed.

(** ** The names that discovery records *)

Lemma insert_by_key_fmap {A B} (f : string * A -> B) k a (l : list (string * A)) :
  strs.insert_by_key k (f (k, a)) (map (fun e => (fst e, f e)) l)
  = map (fun e => (fst e, f e)) (strs.insert_by_key k a l).
Proof.
  induction l as [|[k' a'] l IH]; cbn; [done|].
  destruct (String.ltb k' k); cbn; [by rewrite IH | done].
Qed.

(** Sorting looks at the keys only. *)
Lemma sort_by_key_fmap {A B} (f : string * A -> B) (l : list (string * A)) :
  strs.sort_by_key (map (fun e => (fst e, f e)) l)
  = map (fun e => (fst e, f e)) (strs.sort_by_key l).
Proof.
  induction l as [|[k a] l IH]; cbn; [done|].
  by rewrite IH, (insert_by_key_fmap f).
Qed.

Lemma filesBelow_Dir es :
  filesBelow (fs.Dir es)
  = concat (map (fun e => map (cons (fst e)) (filesBelow (snd e))) (strs.sort_by_key es)).
Proof.
  cbn [filesBelow].
  rewrite (sort_by_key_fmap (fun e => map (cons (fst e)) (filesBelow (snd e)))).
  by rewrite map_map.
Qed.

Lemma walkDir_Dir {S} (fn : fs.WalkDirFunc S) name es s :
  fs.walkDir fn name (fs.Dir es) s =
  match fn name (Some true) None s with
  | (s1, Ok _) =>
      let '((s2, evs), res) :=
        fs.walkEntries
          (map (fun e => (fst e, fs.walkDir fn (fs.Join name (fst e)) (snd e)))
             (strs.sort_by_key es)) s1 in
      ((s2, EvReadDir name :: evs), res)
  | (s1, res) => ((s1, []), res)
  end.
Proof.
  cbn [fs.walkDir fs.IsDir].
  by rewrite (sort_by_key_fmap (fun e => fs.walkDir fn (fs.Join name (fst e)) (snd e))).
Qed.

Lemma findFilesFunc_file name m t :
  fits m (names t) ->
  exists m' t',
    findFilesFunc name (Some false) None (m, t) = ((m', t'), Ok tt) /\
    fits m' (names t') /\
    slices.contents m' (names t') = (slices.contents m (names t) ++ [name])%list.
Proof.
  intros Hfits. unfold findFilesFunc.
  pose proof (append_contents m (names t) name Hfits) as [Hfits' Hcontents].
  destruct (slices.append m (names t) name) as [m' s]. by exists m', (setNames t s).
Qed.

Lemma walkEntries_records name ses :
  Forall (fun e => forall name', records name' (snd e)) ses ->
  forall m t m' t' evs,
    fits m (names t) ->
    fs.walkEntries
      (map (fun e => (fst e, fs.walkDir findFilesFunc (fs.Join name (fst e)) (snd e))) ses)
      (m, t) = (((m', t'), evs), Ok tt) ->
    fits m' (names t') /\
    slices.contents m' (names t')
    = (slices.contents m (names t) ++
       concat (map (fun e => map (pathFrom (fs.Join name (fst e))) (filesBelow (snd e))) ses))%list.
Proof.
  induction 1 as [|[e c] ses Hc _ IH]; intros m t m' t' evs Hfits; cbn.
  - intros [= <- <- _]. by rewrite app_nil_r.
  - destruct (fs.walkDir findFilesFunc (fs.Join name e) c (m, t))
      as [[[m1 t1] evs1] [[]|err|p| |?]] eqn:Hwalk; try done.
    destruct (Hc (fs.Join name e) _ _ _ _ _ Hfits Hwalk) as [Hfits1 Hcontents1].
    destruct (fs.walkEntries _ (m1, t1)) as [[[m2 t2] evs2] res] eqn:Hrest.
    intros [= <- <- _ ->].
    destruct (IH _ _ _ _ _ Hfits1 Hrest) as [Hfits2 Hcontents2].
    split; [done|]. by rewrite Hcontents2, Hcontents1, (assoc_L (++)).
Qed.

Lemma pathFrom_below name (ses : list (string * fs.node)) :
  concat (map (fun e => map (pathFrom (fs.Join name (fst e))) (filesBelow (snd e))) ses)
  = map (pathFrom name)
      (concat (map (fun e => map (cons (fst e)) (filesBelow (snd e))) ses)).
Proof.
  induction ses as [|[e c] ses IH]; cbn; [done|].
  by rewrite map_app, map_map, IH.
Qed.

Lemma walkDir_records n : forall name, records name n.
Proof.
  induction n as [data| |es IH|] using node_ind'; intros name m t m' t' evs Hfits.
  - cbn [fs.walkDir fs.IsDir filesBelow map pathFrom].
    destruct (findFilesFunc_file name m t Hfits) as (m1 & t1 & -> & Hfits1 & Hc1).
    by intros [= <- <- _].
  - cbn [fs.walkDir fs.IsDir filesBelow map pathFrom].
    destruct (findFilesFunc_file name m t Hfits) as (m1 & t1 & -> & Hfits1 & Hc1).
    by intros [= <- <- _].
  - rewrite walkDir_Dir, filesBelow_Dir.
    change (findFilesFunc name (Some true) None (m, t)) with ((m, t), @Ok unit tt).
    cbv iota beta.
    destruct (fs.walkEntries _ (m, t)) as [[[m2 t2] evs2] res] eqn:Hwalk.
    intros [= <- <- _ ->].
    assert (Forall (fun e => forall name', records name' (snd e)) (strs.sort_by_key es))
      as Hsorted by by rewrite sort_by_key_perm.
    destruct (walkEntries_records name _ Hsorted _ _ _ _ _ Hfits Hwalk) as [Hfits2 ->].
    split; [done|]. f_equal. apply pathFrom_below.
  - cbn. done.
Qed.

(** ** The files below a node *)

Lemma elem_of_concat {A} (x : A) (ls : list (list A)) :
  x ∈ concat ls <-> exists l, x ∈ l /\ l ∈ ls.
Proof.
  induction ls as [|l ls IH]; cbn.
  - split; [by intros ?%elem_of_nil | by intros (l & _ & ?%elem_of_nil)].
  - rewrite elem_of_app, IH. split.
    + intros [Hx | (l' & Hx & Hl')]; [exists l; split; [done | by left]|].
      exists l'. split; [done | by right].
    + intros (l' & Hx & [-> | Hl']%elem_of_cons); [by left|]. right. by exists l'.
Qed.

Lemma filesBelow_Dir_elem es p :
  p ∈ filesBelow (fs.Dir es) <->
  exists e c q, (e, c) ∈ es /\ p = e :: q /\ q ∈ filesBelow c.
Proof.
  rewrite filesBelow_Dir, elem_of_concat. split.
  - intros (l & Hp & Hl). apply list_elem_of_fmap in Hl as ([e c] & -> & Hec).
    rewrite sort_by_key_perm in Hec. cbn in Hp.
    apply list_elem_of_fmap in Hp as (q & -> & Hq). by exists e, c, q.
  - intros (e & c & q & Hec & -> & Hq).
    exists (map (cons e) (filesBelow c)). split; [by apply list_elem_of_fmap_2|].
    apply (list_elem_of_fmap_2 (fun e => map (cons (fst e)) (filesBelow (snd e))) _ (e, c)).
    by rewrite sort_by_key_perm.
Qed.

(** [filesBelow] lists the regular files that can be reached, and only
    those. *)
Lemma filesBelow_regular n : forall p, p ∈ filesBelow n <-> regular n p.
Proof.
  induction n as [data| |es IH|] using node_ind'; intros p.
  - cbn. rewrite list_elem_of_singleton. split; [intros ->; by constructor|].
    by inversion 1.
  - cbn. rewrite list_elem_of_singleton. split; [intros ->; by constructor|].
    by inversion 1.
  - rewrite filesBelow_Dir_elem. split.
    + intros (e & c & q & Hec & -> & Hq). apply regular_below with c; [done|].
      by apply (proj1 (Forall_forall _ _) IH (e, c) Hec).
    + inversion 1 as [? Hdir|? e c q Hec Hq]; subst; [done|].
      exists e, c, q. repeat split; [done|].
      by apply (proj1 (Forall_forall _ _) IH (e, c) Hec).
  - cbn. split; [by intros ?%elem_of_nil|]. by inversion 1.
Qed.

Lemma below_NoDup (ses : list (string * fs.node)) :
  NoDup (map fst ses) ->
  Forall (fun e => NoDup (filesBelow (snd e))) ses ->
  NoDup (concat (map (fun e => map (cons (fst e)) (filesBelow (snd e))) ses)).
Proof.
  induction ses as [|[e c] ses IH]; cbn; [constructor|].
  intros [He Hses]%NoDup_cons [Hc Hrest]%Forall_cons. cbn in Hc.
  apply NoDup_app. repeat split; [| |by apply IH].
  - apply NoDup_fmap_2; [|done]. by intros q q' [=].
  - intros p (q & -> & Hq)%list_elem_of_fmap (l & Hp & Hl)%elem_of_concat.
    apply list_elem_of_fmap in Hl as ([e' c'] & -> & Hec). cbn in Hp.
    apply list_elem_of_fmap in Hp as (q' & [= -> _] & _).
    apply He. by apply (list_elem_of_fmap_2 fst _ (e', c')).
Qed.

Lemma filesBelow_NoDup n : wellFormed n -> NoDup (filesBelow n).
Proof.
  induction n as [data| |es IH|] using node_ind'; intros Hwf;
    [apply NoDup_singleton | apply NoDup_singleton | | constructor].
  inversion Hwf as [| | |? Hnames Helems Hnodes]; subst.
  rewrite filesBelow_Dir. apply below_NoDup.
  - by rewrite sort_by_key_perm.
  - rewrite sort_by_key_perm. apply Forall_forall. intros [e c] Hec. cbn.
    apply (proj1 (Forall_forall _ _) IH (e, c) Hec).
    by apply (proj1 (Forall_forall _ _) Hnodes (e, c) Hec).
Qed.

(** The names on the way to a file of a well-formed tree are path
    elements. *)
Lemma regular_elems n p : regular n p -> wellFormed n -> Forall (fun e => isElem e = true) p.
Proof.
  induction 1 as [|es e c p Hec Hp IH]; intros Hwf; [constructor|].
  inversion Hwf as [| | |? Hnames Helems Hnodes]; subst. constructor.
  - by apply (proj1 (Forall_forall _ _) Helems (e, c) Hec).
  - apply IH. by apply (proj1 (Forall_forall _ _) Hnodes (e, c) Hec).
Qed.

(** ** Paths *)

Lemma append_assoc (a b c : string) : (a +:+ b) +:+ c = a +:+ (b +:+ c).
Proof.
  induction a as [|x a IH]; [done|].
  change (String x ((a +:+ b) +:+ c) = String x (a +:+ (b +:+ c))). by rewrite IH.
Qed.

Lemma Contains_app c (a b : string) :
  strs.Contains c (a +:+ b) = strs.Contains c a || strs.Contains c b.
Proof.
  induction a as [|x a IH]; [done|].
  change (strs.Contains c (String x (a +:+ b))
          = strs.Contains c (String x a) || strs.Contains c b).
  cbn. rewrite IH. by destruct (Ascii.eqb x c).
Qed.

Lemma isElem_spec e :
  isElem e = true -> e <> "." /\ strs.Contains strs.slash e = false.
Proof.
  unfold isElem, fs.validElem.
  intros [[[_ Hdot]%andb_true_iff _]%andb_true_iff Hslash]%andb_true_iff.
  split; [|by apply negb_true_iff in Hslash].
  intros ->. done.
Qed.

Lemma slashed_not_dot (a b : string) : a +:+ "/" +:+ b <> ".".
Proof.
  intros Heq. assert (strs.Contains strs.slash (a +:+ "/" +:+ b) = false) as Hno
    by by rewrite Heq.
  rewrite !Contains_app in Hno. cbn in Hno. by rewrite orb_true_r in Hno.
Qed.

Lemma fs_Join_slashed a b : a <> "." -> b <> "." -> fs.Join a b = a +:+ "/" +:+ b.
Proof.
  intros Ha Hb. unfold fs.Join.
  by rewrite (proj2 (String.eqb_neq _ _) Ha), (proj2 (String.eqb_neq _ _) Hb).
Qed.

Lemma Join_cons_cons x y l :
  strs.Join "/" (x :: y :: l) = x +:+ "/" +:+ strs.Join "/" (y :: l).
Proof. reflexivity. Qed.

Lemma pathFrom_Join p : forall name,
  name <> "." -> Forall (fun e => isElem e = true) p ->
  pathFrom name p = strs.Join "/" (name :: p).
Proof.
  induction p as [|e q IH]; intros name Hname Hp; [done|].
  apply Forall_cons in Hp as [[He _]%isElem_spec Hq].
  cbn [pathFrom]. rewrite fs_Join_slashed by done.
  rewrite IH by (done || apply slashed_not_dot).
  destruct q as [|x r]; [done|].
  by rewrite !Join_cons_cons, !append_assoc.
Qed.

(** On the elements of a well-formed tree, the walk from the root computes
    the relative path. *)
Lemma pathFrom_relpath p :
  Forall (fun e => isElem e = true) p -> pathFrom "." p = relpath p.
Proof.
  destruct p as [|e q]; [done|]. intros [He Hq]%Forall_cons.
  change (pathFrom "." (e :: q)) with (pathFrom e q).
  apply isElem_spec in He as [He _]. by rewrite pathFrom_Join.
Qed.

Lemma Split_noslash e :
  strs.Contains strs.slash e = false -> strs.Split strs.slash e = [e].
Proof.
  induction e as [|c r IH]; [done|]. cbn.
  intros [Hc Hr]%orb_false_iff. by rewrite Hc, (IH Hr).
Qed.

Lemma Split_slashed e rest :
  strs.Contains strs.slash e = false ->
  strs.Split strs.slash (e +:+ "/" +:+ rest) = e :: strs.Split strs.slash rest.
Proof.
  induction e as [|c r IH]; [done|].
  change (String c r +:+ "/" +:+ rest) with (String c (r +:+ "/" +:+ rest)). cbn.
  intros [Hc Hr]%orb_false_iff. by rewrite Hc, (IH Hr).
Qed.

Lemma Split_Join p :
  Forall (fun e => isElem e = true) p -> p <> [] ->
  strs.Split strs.slash (strs.Join "/" p) = p.
Proof.
  induction p as [|e q IH]; [done|]. intros [[_ He]%isElem_spec Hq]%Forall_cons _.
  destruct q as [|x r]; [by apply Split_noslash|].
  rewrite Join_cons_cons, Split_slashed by done. by rewrite IH.
Qed.

Lemma relpath_inj p q :
  Forall (fun e => isElem e = true) p -> Forall (fun e => isElem e = true) q ->
  relpath p = relpath q -> p = q.
Proof.
  assert (forall l, Forall (fun e => isElem e = true) l ->
            strs.Split strs.slash (relpath l) = match l with [] => ["."] | _ => l end)
    as Hsplit.
  { intros [|e l] Hl; [done|]. by apply Split_Join. }
  intros Hp Hq Heq.
  pose proof (Hsplit p Hp) as Hsp. pose proof (Hsplit q Hq) as Hsq.
  rewrite Heq, Hsq in Hsp.
  destruct p as [|e p], q as [|e' q]; try done; simplify_eq.
  - by apply Forall_cons in Hq as [[Hdot _]%isElem_spec _].
  - by apply Forall_cons in Hp as [[Hdot _]%isElem_spec _].
Qed.

(** ** The copy that [Names] returns *)

Lemma contents_same m1 m2 s :
  (forall a, slices.array s = Some a -> m1 !! a = m2 !! a) ->
  slices.contents m1 s = slices.contents m2 s.
Proof.
  unfold slices.contents, slices.backing. intros Hsame.
  destruct (slices.array s) as [a|]; [|done]. by rewrite (Hsame a).
Qed.

Lemma fits_same m1 m2 s :
  (forall a, slices.array s = Some a -> m1 !! a = m2 !! a) -> fits m1 s -> fits m2 s.
Proof.
  unfold fits. intros Hsame. destruct (slices.array s) as [a|]; [|done].
  by rewrite (Hsame a).
Qed.

Lemma fits_allocated m s a : fits m s -> slices.array s = Some a -> a < length m.
Proof.
  unfold fits. intros Hfits Ha. rewrite Ha in Hfits.
  destruct Hfits as (arr & Harr & _). by eapply lookup_lt_Some.
Qed.

(** A clone has the elements of the slice, in an array of its own. *)
Lemma Clone_fresh m s :
  fits m s ->
  fits (fst (slices.Clone m s)) (snd (slices.Clone m s)) /\
  slices.contents (fst (slices.Clone m s)) (snd (slices.Clone m s)) = slices.contents m s /\
  forall a, a < length m ->
    fst (slices.Clone m s) !! a = m !! a /\
    a < length (fst (slices.Clone m s)) /\
    slices.array (snd (slices.Clone m s)) <> Some a.
Proof.
  intros Hfits. unfold slices.Clone, slices.alloc.
  destruct (slices.array s) as [b|] eqn:Harray; cbn [fst snd].
  - split; [|split].
    + unfold fits. cbn [slices.array slices.len].
      rewrite lookup_app_r, Nat.sub_diag by done. eexists. split; [done|].
      by rewrite contents_length.
    + unfold slices.contents at 1, slices.backing. cbn [slices.array slices.len].
      rewrite lookup_app_r, Nat.sub_diag by done. cbn.
      apply firstn_all2. by rewrite contents_length.
    + intros a Ha. rewrite lookup_app_l by done. rewrite length_app. cbn.
      repeat split; [lia|]. intros [=]. lia.
  - split; [done|]. split.
    + unfold slices.contents, slices.backing. rewrite Harray. cbn.
      by destruct (slices.len s).
    + intros a Ha. by repeat split.
Qed.

Lemma append_apart m s v a :
  fits m s -> a < length m -> slices.array s <> Some a ->
  fst (slices.append m s v) !! a = m !! a /\
  a < length (fst (slices.append m s v)) /\
  slices.array (snd (slices.append m s v)) <> Some a.
Proof.
  intros Hfits Ha Hs. unfold slices.append, slices.alloc.
  destruct (slices.array s) as [b|] eqn:Harray.
  - destruct (slices.len s <? slices.cap m s)%nat; cbn [fst snd slices.array].
    + rewrite list_lookup_insert_ne by congruence. rewrite length_insert. done.
    + rewrite lookup_app_l by done. rewrite length_app. cbn.
      repeat split; [lia|]. intros [=]. lia.
  - cbn [fst snd slices.array]. rewrite lookup_app_l by done. rewrite length_app. cbn.
    repeat split; [lia|]. intros [=]. lia.
Qed.

Lemma store_apart m s i v a m' :
  fits m s -> a < length m -> slices.array s <> Some a ->
  slices.store m s i v = Ok m' ->
  m' !! a = m !! a /\ a < length m' /\ fits m' s.
Proof.
  intros Hfits Ha Hs. unfold slices.store, fits in *.
  destruct (slices.array s) as [b|] eqn:Harray; [|done].
  destruct (i <? slices.len s)%nat; [|done]. intros [= <-].
  destruct Hfits as (arr & Harr & Hlen).
  rewrite list_lookup_insert_ne by congruence. rewrite length_insert.
  repeat split; [done|]. unfold slices.backing. rewrite Harray, Harr. cbn.
  rewrite list_lookup_insert_eq by by eapply lookup_lt_Some.
  eexists. split; [done|]. by rewrite length_insert.
Qed.

(** Whatever is done through a slice leaves the arrays of the others as
    they are. *)
Lemma mutate_apart ops : forall m s a,
  fits m s -> a < length m -> slices.array s <> Some a ->
  fst (mutate m s ops) !! a = m !! a.
Proof.
  induction ops as [|[i v|v] ops IH]; intros m s a Hfits Ha Hs; cbn [mutate]; [done| |].
  - destruct (slices.store m s i v) as [m1| | | |] eqn:Hstore; try done.
    destruct (store_apart _ _ _ _ _ _ Hfits Ha Hs Hstore) as (Hsame & Ha1 & Hfits1).
    by rewrite IH.
  - destruct (append_apart m s v a Hfits Ha Hs) as (Hsame & Ha1 & Hs1).
    destruct (append_contents m s v Hfits) as [Hfits1 _].
    destruct (slices.append m s v) as [m1 s1]. cbn [fst snd] in *.
    by rewrite IH.
Qed.

(** ** The tree that discovery walks *)

Lemma assoc_elem e es c : fs.assoc e es = Some c -> (e, c) ∈ es.
Proof.
  induction es as [|[e' c'] es IH]; cbn; [done|].
  destruct (String.eqb e e') eqn:Heq.
  - apply String.eqb_eq in Heq as ->. intros [= ->]. by left.
  - intros Hc. right. by apply IH.
Qed.

Lemma lookup_wellFormed elems : forall n n',
  fs.lookup elems n = Some n' -> wellFormed n -> wellFormed n'.
Proof.
  induction elems as [|e elems IH]; intros n n'; cbn; [by intros [= ->]|].
  destruct n as [| |es|]; try done.
  destruct (fs.assoc e es) as [c|] eqn:Hc; [|done].
  intros Hlookup Hwf. apply (IH c n' Hlookup).
  inversion Hwf as [| | |? _ _ Hnodes]; subst.
  by apply (proj1 (Forall_forall _ _) Hnodes (e, c)), assoc_elem.
Qed.

Lemma effective_tree bfs d fsys :
  effective bfs d = Ok fsys -> fs.tree fsys = fs.tree bfs.
Proof.
  unfold effective, fs.Sub. destruct (negb (String.eqb d "")); [|by intros [= ->]].
  destruct (negb (fs.ValidPath d)); [done|].
  destruct (String.eqb d "."); by intros [= <-].
Qed.

Lemma Stat_wellFormed fsys name n :
  fs.Stat fsys name = Ok n -> wellFormed (fs.tree fsys) -> wellFormed n.
Proof.
  unfold fs.Stat, fs.open. destruct (negb (fs.ValidPath name)); [done|].
  destruct (fs.lookup _ _) as [n'|] eqn:Hlookup; [|done].
  intros [= <-]. by apply lookup_wellFormed with (1 := Hlookup).
Qed.

Lemma findFiles_Ok_inv m t fsys m1 t1 evs1 :
  findFiles m t fsys = (((m1, t1), evs1), Ok tt) ->
  exists root evs,
    fs.Stat fsys "." = Ok root /\
    fs.walkDir findFilesFunc "." root (m, t) = (((m1, t1), evs), Ok tt).
Proof.
  unfold findFiles, fs.WalkDir. destruct (fs.Stat fsys ".") as [root|e|p| |?]; try done.
  destruct (fs.walkDir findFilesFunc "." root (m, t)) as [[[m2 t2] evs2] res] eqn:Hwalk.
  intros [= <- <- _ ->]. by exists root, evs2.
Qed.

(** ** Names (C4) *)

(** What a successful [Build] leaves in [names]. *)
Lemma Build_names m b m' evs t bfs :
  Build m b = ((m', evs), Ok t) ->
  b_fsys b = Some bfs ->
  wellFormed (fs.tree bfs) ->
  exists fsys root,
    effective bfs (b_dir b) = Ok fsys /\
    fs.Stat fsys "." = Ok root /\
    wellFormed root /\
    fits m' (names t) /\
    slices.contents m' (names t) = map relpath (filesBelow root).
Proof.
  intros HBuild Hfs Hwf.
  destruct (Build_Ok_inv _ _ _ _ _ HBuild)
    as (bfs' & fsys & t1 & evs1 & evs2 & Hfs' & Heff & Hfind & Hparse & _).
  rewrite Hfs in Hfs'. injection Hfs' as <-.
  destruct (findFiles_Ok_inv _ _ _ _ _ _ Hfind) as (root & evs' & HStat & Hwalk).
  destruct (walkDir_records root "." m (initial (b_logger b)) m' t1 evs'
              (fits_nil m) Hwalk) as [Hfits Hcontents].
  unfold parseFiles in Hparse.
  destruct (parseFilesLoop_units _ _ _ _ _ Hparse) as (Hnames & _ & _).
  assert (wellFormed root) as Hroot.
  { apply (Stat_wellFormed _ _ _ HStat). by rewrite (effective_tree _ _ _ Heff). }
  exists fsys, root. rewrite Hnames. repeat split; try done.
  rewrite Hcontents. cbn. apply map_ext_in. intros p Hp.
  apply pathFrom_relpath, regular_elems with root; [|done].
  by apply filesBelow_regular, list_elem_of_In.
Qed.

(** C4.  After a successful [Build] on a source tree, narrowed to the
    directory of the builder if one was set, [Names] returns the relative
    paths of the regular files that can be reached from the root of that
    tree: every such path and nothing else, each once, in the order of a
    depth-first walk that takes the entries of a directory by ascending
    name.  The slice it returns has an array of its own: whatever the caller
    assigns to its elements or appends to it, the names of the template stay
    what they were, and [Names] returns the same list again. *)
Theorem Names_lists_files (m m' : slices.memory) (b : TemplateBuilder)
    (bfs : fs.FS) (evs : list event) (t : Template) :
  Build m b = ((m', evs), Ok t) ->
  b_fsys b = Some bfs ->
  wellFormed (fs.tree bfs) ->
  exists fsys root,
    effective bfs (b_dir b) = Ok fsys /\
    fs.Stat fsys "." = Ok root /\
    let listed := slices.contents (fst (Names m' t)) (snd (Names m' t)) in
    listed = map relpath (filesBelow root) /\
    (forall p, p ∈ listed <-> exists elems, regular root elems /\ p = relpath elems) /\
    NoDup listed /\
    forall ops,
      let after := fst (mutate (fst (Names m' t)) (snd (Names m' t)) ops) in
      slices.contents after (names t) = slices.contents m' (names t) /\
      slices.contents (fst (Names after t)) (snd (Names after t)) = listed.
Proof.
  intros HBuild Hfs Hwf.
  destruct (Build_names _ _ _ _ _ _ HBuild Hfs Hwf)
    as (fsys & root & Heff & HStat & Hroot & Hfits & Hcontents).
  exists fsys, root. split; [done|]. split; [done|].
  unfold Names. destruct (Clone_fresh m' (names t) Hfits) as (Hfits2 & Hclone & Hold).
  cbv zeta. rewrite Hclone, Hcontents. split; [done|]. split; [|split].
  - intros p. rewrite list_elem_of_fmap. split.
    + intros (elems & -> & Helems). exists elems. by rewrite <- filesBelow_regular.
    + intros (elems & Helems & ->). exists elems. by rewrite filesBelow_regular.
  - apply NoDup_fmap_2_strong; [|by apply filesBelow_NoDup].
    intros p q Hp Hq. apply relpath_inj.
    + apply regular_elems with root; [by apply filesBelow_regular | done].
    + apply regular_elems with root; [by apply filesBelow_regular | done].
  - intros ops.
    assert (forall a, slices.array (names t) = Some a ->
              fst (mutate (fst (slices.Clone m' (names t)))
                     (snd (slices.Clone m' (names t))) ops) !! a = m' !! a) as Hsame.
    { intros a Ha. pose proof (fits_allocated _ _ _ Hfits Ha) as Hlt.
      destruct (Hold a Hlt) as (Hsame & Hlt2 & Hother).
      by rewrite mutate_apart. }
    assert (slices.contents
              (fst (mutate (fst (slices.Clone m' (names t)))
                      (snd (slices.Clone m' (names t))) ops)) (names t)
            = slices.contents m' (names t)) as Hkept by by apply contents_same.
    split; [by rewrite Hkept|].
    destruct (Clone_fresh _ (names t)
                (fits_same m' _ (names t) (fun a Ha => eq_sym (Hsame a Ha)) Hfits))
      as (_ & -> & _).
    by rewrite Hkept.
Qed.

Ltac wellFormed_tree :=
  repeat first
    [ apply wf_File
    | apply List.Forall_nil
    | apply List.Forall_cons
    | apply wf_Dir;
      [apply (bool_decide_unpack _); vm_compute; exact I | repeat constructor |] ].

Lemma example_wellFormed : wellFormed example.source.
Proof. wellFormed_tree. Defined.

Lemma Names_lists_files_witness :
  exists fsys root,
    effective {| fs.tree := example.source; fs.dir := "." |} (b_dir example.builder)
    = Ok fsys /\
    fs.Stat fsys "." = Ok root /\
    let listed :=
      slices.contents (fst (Names example.memory example.built))
        (snd (Names example.memory example.built)) in
    listed = map relpath (filesBelow root) /\
    (forall p, p ∈ listed <-> exists elems, regular root elems /\ p = relpath elems) /\
    NoDup listed /\
    forall ops,
      let after :=
        fst (mutate (fst (Names example.memory example.built))
               (snd (Names example.memory example.built)) ops) in
      slices.contents after (names example.built)
      = slices.contents example.memory (names example.built) /\
      slices.contents (fst (Names after example.built)) (snd (Names after example.built))
      = listed.
Proof.
  apply (Names_lists_files [] example.memory example.builder
           {| fs.tree := example.source; fs.dir := "." |}
           (snd (fst (Build [] example.builder))) example.built).
  - vm_compute. reflexivity.
  - reflexivity.
  - exact example_wellFormed.
Defined.

Example example_Names :
  slices.contents (fst (Names example.memory example.built))
    (snd (Names example.memory example.built))
  = ["inner.tmpl"; "lib/hello.tmpl"; "lib/json.tmpl"; "lib/missing.tmpl"; "outer.tmpl"].
Proof. vm_compute. reflexivity. Qed.

(** * Further properties *)

(** ** What [Execute] logs *)

(** X1.  [Execute] logs one message, after a successful write and when
    detail logging is on, and nothing otherwise.  The text in that message is
    the contents of the buffer after [WriteTo] has drained it: it is empty,
    whatever was rendered. *)
Theorem Execute_log {W} `{io.Writer W} (stack : nat) (t : Template) (writer : W)
    (name : string) (data : value) :
  snd (fst (Execute stack t writer name data)) =
  match snd (Execute stack t writer name data) with
  | Ok _ => if detailed (logger t) then [executed name data ""] else []
  | _ => []
  end.
Proof.
  rewrite Execute_unfold.
  destruct (rendered stack t name data) as [out [[]|e|p| |?]]; try done.
  unfold bytes.WriteTo.
  destruct (0 <? String.length out)%nat.
  - destruct (io.Write writer out) as [w' [n [e|]]];
      (destruct (String.length out <? n)%nat; [done|]); [done|].
    destruct (negb (n =? String.length out)%nat); [done|].
    cbn. unfold detailed, logr.Info. by destruct (logr.Enabled _).
  - cbn. unfold detailed, logr.Info. by destruct (logr.Enabled _).
Qed.

(** ** [executeFunc] and [Execute] *)

Lemma executeFunc_eq_rendered stack t name data :
  is_Some (tmpl.Lookup (template t) name) ->
  executeFunc (S stack) t name data =
  (let '(out, err) := rendered stack t name data in _ ← err; Ok out).
Proof.
  intros [found Hfound]. unfold rendered, tmpl.ExecuteTemplate. cbn [executeFunc].
  rewrite Hfound. by destruct (tmpl.Execute _ _ _ _) as [out err].
Qed.

(** X2.  For a unit that exists, [Execute] into a buffer and [executeFunc]
    agree: the buffer receives exactly the text that [executeFunc] returns,
    and the one fails exactly when the other does, with the same error;
    what a failing unit has rendered before it fails reaches neither. *)
Theorem Execute_as_executeFunc (stack : nat) (t : Template) (writer : bytes.Buffer)
    (name : string) (data : value) :
  is_Some (tmpl.Lookup (template t) name) ->
  fst (fst (Execute stack t writer name data))
  = writer +:+ match executeFunc (S stack) t name data with Ok out => out | _ => "" end /\
  snd (Execute stack t writer name data)
  = (_ ← executeFunc (S stack) t name data; Ok tt).
Proof.
  intros Hfound. rewrite (executeFunc_eq_rendered _ _ _ _ Hfound).
  destruct (rendered stack t name data) as [out [[]|e|p| |?]] eqn:Hrendered.
  - destruct (Execute_into_buffer _ _ writer _ _ _ Hrendered) as [log ->]. done.
  - rewrite Execute_unfold, Hrendered. cbn. by rewrite append_empty_r.
  - rewrite Execute_unfold, Hrendered. cbn. by rewrite append_empty_r.
  - rewrite Execute_unfold, Hrendered. cbn. by rewrite append_empty_r.
  - rewrite Execute_unfold, Hrendered. cbn. by rewrite append_empty_r.
Qed.

Lemma Execute_as_executeFunc_witness :
  fst (fst (Execute (W := bytes.Buffer) 1 example.built "kept" "outer.tmpl" VNil))
  = "kept" +:+ match executeFunc 2 example.built "outer.tmpl" VNil with
               | Ok out => out | _ => "" end /\
  snd (Execute (W := bytes.Buffer) 1 example.built "kept" "outer.tmpl" VNil)
  = (_ ← executeFunc 2 example.built "outer.tmpl" VNil; Ok tt).
Proof.
  apply (Execute_as_executeFunc 1 example.built "kept" "outer.tmpl" VNil).
  vm_compute. eexists. reflexivity.
Defined.

(** ** The room on the stack *)

Lemma below_refl {A} (o : outcome A) : below o o.
Proof. by right. Qed.

Lemma below_bind {A B} (o o' : outcome A) (k k' : A -> outcome B) :
  below o o' -> (forall a, below (k a) (k' a)) -> below (o ≫= k) (o' ≫= k').
Proof.
  intros [-> | ->] Hk; [by left|].
  destruct o' as [a| | | |]; [apply Hk | by right..].
Qed.

Lemma findFunction_approximates fm fm' fname :
  approximates fm fm' ->
  match tmpl.findFunction fm fname, tmpl.findFunction fm' fname with
  | Some f, Some f' =>
      tmpl.params f = tmpl.params f' /\
      forall argv, below (tmpl.impl f argv) (tmpl.impl f' argv)
  | None, None => True
  | _, _ => False
  end.
Proof.
  induction 1 as [|[n f] [n' f'] fm fm' (Hn & Hparams & Himpl) _ IH]; [done|].
  cbn in *. subst n'. by destruct (String.eqb fname n).
Qed.

Section approximation.
Context (fm fm' : tmpl.FuncMap) (Hfm : approximates fm fm').

Lemma safeCall_below fname f f' argv :
  (forall argv, below (tmpl.impl f argv) (tmpl.impl f' argv)) ->
  below (tmpl.safeCall fname f argv) (tmpl.safeCall fname f' argv).
Proof.
  intros Himpl. unfold tmpl.safeCall.
  destruct (Himpl argv) as [-> | ->]; [by left | by right].
Qed.

Lemma evalFunctionNoArgs_below fname :
  below (tmpl.evalFunctionNoArgs fm fname) (tmpl.evalFunctionNoArgs fm' fname).
Proof using Hfm.
  unfold tmpl.evalFunctionNoArgs.
  pose proof (findFunction_approximates _ _ fname Hfm) as Hfind.
  destruct (tmpl.findFunction fm fname) as [f|], (tmpl.findFunction fm' fname) as [f'|];
    try done; [|by right].
  destruct Hfind as [-> Himpl].
  destruct (negb _); [by right|]. by apply safeCall_below.
Qed.

Lemma evalArg_below dot typ n :
  below (tmpl.evalArg fm dot typ n) (tmpl.evalArg fm' dot typ n).
Proof using Hfm.
  destruct n; cbn; [by right | by right |].
  apply below_bind; [apply evalFunctionNoArgs_below | intros; by right].
Qed.

Lemma evalArgs_below dot args : forall types,
  below (tmpl.evalArgs fm dot types args) (tmpl.evalArgs fm' dot types args).
Proof using Hfm.
  induction args as [|a args IH]; intros [|typ types]; cbn; try by right.
  apply below_bind; [apply evalArg_below|]. intros v.
  apply below_bind; [apply IH | intros; by right].
Qed.

Lemma evalCall_below dot fname args final :
  below (tmpl.evalCall fm dot fname args final) (tmpl.evalCall fm' dot fname args final).
Proof using Hfm.
  unfold tmpl.evalCall.
  pose proof (findFunction_approximates _ _ fname Hfm) as Hfind.
  destruct (tmpl.findFunction fm fname) as [f|], (tmpl.findFunction fm' fname) as [f'|];
    try done; [|by right].
  destruct Hfind as [-> Himpl].
  destruct (negb _); [by right|].
  apply below_bind; [apply evalArgs_below|]. intros argv.
  apply below_bind; [by right|]. intros last. by apply safeCall_below.
Qed.

Lemma evalCommand_below dot cmd final :
  below (tmpl.evalCommand fm dot cmd final) (tmpl.evalCommand fm' dot cmd final).
Proof using Hfm.
  destruct cmd as [|[| |fname] args]; cbn; try by right. apply evalCall_below.
Qed.

Lemma evalPipeline_below dot pipe : forall final,
  below (tmpl.evalPipeline fm dot pipe final) (tmpl.evalPipeline fm' dot pipe final).
Proof using Hfm.
  induction pipe as [|cmd pipe IH]; intros final; cbn; [by right|].
  apply below_bind; [apply evalCommand_below | intros; apply IH].
Qed.

Lemma walk_below dot nodes : forall wr,
  snd (tmpl.walk fm dot nodes wr) = StackOverflow \/
  tmpl.walk fm dot nodes wr = tmpl.walk fm' dot nodes wr.
Proof using Hfm.
  induction nodes as [|[text|pipe] nodes IH]; intros wr; cbn [tmpl.walk];
    [by right | apply IH |].
  assert (below (v ← tmpl.evalPipeline fm dot pipe None; tmpl.printValue v)
                (v ← tmpl.evalPipeline fm' dot pipe None; tmpl.printValue v))
    as [-> | ->].
  { apply below_bind; [apply evalPipeline_below | intros; by right]. }
  - by left.
  - destruct (_ ≫= _); [apply IH | by right..].
Qed.

Lemma Execute_below found wr data :
  snd (tmpl.Execute fm found wr data) = StackOverflow \/
  tmpl.Execute fm found wr data = tmpl.Execute fm' found wr data.
Proof using Hfm.
  destruct found as [[n tr]|]; cbn; [|by right].
  destruct (walk_below data tr wr) as [Hover | <-]; [|by right].
  left. by destruct (tmpl.walk fm data tr wr) as [wr' [[]|e|p| |?]].
Qed.

End approximation.

Lemma funcMap_approximates t (f g : string -> value -> outcome string) :
  (forall name data, below (f name data) (g name data)) ->
  approximates (funcMap t f) (funcMap t g).
Proof.
  intros Hfg. unfold approximates, funcMap.
  repeat (apply List.Forall2_cons; [split; [done|split; [done|]]|]);
    try apply List.Forall2_nil; cbn; intros argv; try by right.
  destruct argv as [|[| | |n| | | | | | | | | | |] [|data [|]]]; try by right.
  apply below_bind; [apply Hfg | intros; by right].
Qed.

Lemma executeFunc_below t stack : forall stack' name data,
  stack <= stack' ->
  below (executeFunc stack t name data) (executeFunc stack' t name data).
Proof.
  induction stack as [|stack IH]; intros stack' name data Hle; [by left|].
  destruct stack' as [|stack']; [lia|]. cbn [executeFunc].
  destruct (Execute_below _ (funcMap t (executeFunc stack' t))
              (funcMap_approximates t _ _ (fun n d => IH stack' n d ltac:(lia)))
              (tmpl.Lookup (template t) name) bytes.empty data) as [Hover | <-];
    [|by right].
  left. destruct (tmpl.Execute _ _ _ _) as [out err]. cbn in Hover. by subst.
Qed.

Lemma rendered_below t stack stack' name data :
  stack <= stack' ->
  snd (rendered stack t name data) = StackOverflow \/
  rendered stack t name data = rendered stack' t name data.
Proof.
  intros Hle. unfold rendered, tmpl.ExecuteTemplate.
  destruct (tmpl.Lookup (template t) name) as [found|]; [|by right].
  apply Execute_below, funcMap_approximates. intros n d. by apply executeFunc_below.
Qed.

(** X3.  The room on the stack matters only when it runs out: an execution
    that ends without overflowing the stack ends in the same way, with the
    same output, the same log and the same error, on any deeper stack.  This
    holds for [executeFunc] and for [Execute]. *)
Theorem stack_irrelevant {W} `{io.Writer W} (stack stack' : nat) (t : Template)
    (writer : W) (name : string) (data : value) :
  stack <= stack' ->
  (executeFunc stack t name data <> StackOverflow ->
   executeFunc stack' t name data = executeFunc stack t name data) /\
  (snd (Execute stack t writer name data) <> StackOverflow ->
   Execute stack' t writer name data = Execute stack t writer name data).
Proof.
  intros Hle. split.
  - intros Hsettled. by destruct (executeFunc_below t stack stack' name data Hle).
  - rewrite !Execute_unfold.
    destruct (rendered_below t stack stack' name data Hle) as [Hover | <-]; [|done].
    destruct (rendered stack t name data) as [out [[]|e|p| |?]]; try done.
Qed.

Lemma stack_irrelevant_witness :
  executeFunc 7 example.built "outer.tmpl" VNil
  = executeFunc 2 example.built "outer.tmpl" VNil /\
  Execute (W := bytes.Buffer) 7 example.built "" "outer.tmpl" VNil
  = Execute (W := bytes.Buffer) 1 example.built "" "outer.tmpl" VNil.
Proof.
  split.
  - apply (stack_irrelevant (W := bytes.Buffer) 2 7 example.built "" "outer.tmpl" VNil);
      [lia | vm_compute; discriminate].
  - apply (stack_irrelevant (W := bytes.Buffer) 1 7 example.built "" "outer.tmpl" VNil);
      [lia | vm_compute; discriminate].
Defined.

(** ** The directory of the builder *)

Lemma Split_app a b :
  strs.Split strs.slash (a +:+ "/" +:+ b)
  = (strs.Split strs.slash a ++ strs.Split strs.slash b)%list.
Proof.
  induction a as [|c r IH]; [done|].
  change (String c r +:+ "/" +:+ b) with (String c (r +:+ "/" +:+ b)).
  cbn [strs.Split]. rewrite IH.
  destruct (Ascii.eqb c strs.slash); [done|].
  assert (strs.Split strs.slash r <> []) as Hne by (by destruct r as [|d r']; cbn;
    [|destruct (Ascii.eqb d strs.slash); [|destruct (strs.Split strs.slash r')]]).
  by destruct (strs.Split strs.slash r).
Qed.

Lemma elements_Join a b :
  fs.elements (fs.Join a b) = (fs.elements a ++ fs.elements b)%list.
Proof.
  unfold fs.Join, fs.elements.
  destruct (String.eqb a ".") eqn:Ha; [done|].
  destruct (String.eqb b ".") eqn:Hb; [by rewrite Ha, app_nil_r|].
  rewrite (proj2 (String.eqb_neq _ _) (slashed_not_dot a b)). apply Split_app.
Qed.

Lemma lookup_app l1 : forall l2 n,
  fs.lookup (l1 ++ l2) n = fs.lookup l1 n ≫= fs.lookup l2.
Proof.
  induction l1 as [|e l1 IH]; intros l2 n; [done|]. cbn [app fs.lookup].
  destruct n as [| |es|]; try done. by destruct (fs.assoc e es).
Qed.

Lemma rootOf_sameFiles bfs d fsys sub :
  usable d = true ->
  effective bfs d = Ok fsys ->
  rootOf bfs d = Some sub ->
  sameFiles fsys {| fs.tree := sub; fs.dir := "." |}.
Proof.
  unfold usable, effective, rootOf, fs.Sub. intros Husable Heff Hroot op name.
  assert (fs.tree fsys = fs.tree bfs /\
          fs.lookup (fs.elements (fs.dir fsys)) (fs.tree bfs) = Some sub) as [Htree Hdir].
  { destruct (String.eqb d "") eqn:Hd; cbn in *; [by simplify_eq|].
    rewrite Husable in Heff. cbn in Heff.
    destruct (String.eqb d ".") eqn:Hdot; simplify_eq; [|done].
    apply String.eqb_eq in Hdot as ->.
    split; [done|]. by rewrite elements_Join, app_nil_r in Hroot. }
  unfold fs.open. destruct (negb (fs.ValidPath name)); [done|]. cbn [fs.tree fs.dir].
  rewrite Htree, elements_Join, lookup_app, Hdir. done.
Qed.

Lemma findFiles_sameFiles m t f1 f2 :
  sameFiles f1 f2 ->
  (forall op op', fs.open op f2 "." = fs.open op' f2 ".") ->
  findFiles m t f1 = findFiles m t f2.
Proof.
  intros Hsame Hop. unfold findFiles, fs.WalkDir, fs.Stat.
  by rewrite Hsame, (Hop _ (if String.eqb (fs.dir f2) "." then "stat" else "open")).
Qed.

Lemma parseFilesLoop_sameFiles f1 f2 l :
  sameFiles f1 f2 -> forall t, parseFilesLoop t f1 l = parseFilesLoop t f2 l.
Proof.
  intros Hsame. induction l as [|name l IH]; intros t; [done|]. cbn [parseFilesLoop].
  assert (parseFile t f1 name = parseFile t f2 name) as ->.
  { unfold parseFile, fs.ReadFile. by rewrite Hsame. }
  destruct (parseFile t f2 name) as [[t1 evs1] [[]|e|p| |?]]; [|done..]. by rewrite IH.
Qed.

Lemma Build_sameFiles m b bfs f1 f2 :
  b_fsys b = Some bfs ->
  effective bfs (b_dir b) = Ok f1 ->
  sameFiles f1 f2 ->
  (forall op op', fs.open op f2 "." = fs.open op' f2 ".") ->
  Build m b = Build m (SetDir (SetFS b (Some f2)) "").
Proof.
  intros Hfs Heff Hsame Hop. unfold Build. cbn [b_logger b_fsys b_dir SetDir SetFS].
  rewrite Hfs. unfold effective in Heff. rewrite Heff. cbn [String.eqb negb].
  rewrite (findFiles_sameFiles _ _ _ _ Hsame Hop).
  destruct (logr.GetSink _); [|done].
  destruct (findFiles _ _ f2) as [[[m1 t1] evs1] [[]|e|p| |?]]; [|done..].
  unfold parseFiles. by rewrite (parseFilesLoop_sameFiles _ _ _ Hsame).
Qed.

(** X4.  Setting a directory narrows the build to the subtree it denotes:
    the build is the one of a builder whose filesystem is that subtree and
    that has no directory set, with the same names (relative to the
    directory), units, effects and errors.  The directory [.] and no
    directory are the same. *)
Theorem Build_in_subtree (m : slices.memory) (b : TemplateBuilder) (bfs : fs.FS)
    (sub : fs.node) :
  b_fsys b = Some bfs ->
  usable (b_dir b) = true ->
  rootOf bfs (b_dir b) = Some sub ->
  Build m b = Build m (SetDir (SetFS b (Some {| fs.tree := sub; fs.dir := "." |})) "").
Proof.
  intros Hfs Husable Hroot.
  destruct (effective bfs (b_dir b)) as [fsys|e|p| |?] eqn:Heff.
  - eapply Build_sameFiles; [done..| |done]. by eapply rootOf_sameFiles.
  - unfold effective, usable, fs.Sub in *.
    destruct (String.eqb (b_dir b) ""); cbn in *; [done|]. rewrite Husable in Heff.
    cbn in Heff. by destruct (String.eqb (b_dir b) ".").
  - unfold effective, usable, fs.Sub in *.
    destruct (String.eqb (b_dir b) ""); cbn in *; [done|]. rewrite Husable in Heff.
    cbn in Heff. by destruct (String.eqb (b_dir b) ".").
  - unfold effective, usable, fs.Sub in *.
    destruct (String.eqb (b_dir b) ""); cbn in *; [done|]. rewrite Husable in Heff.
    cbn in Heff. by destruct (String.eqb (b_dir b) ".").
  - unfold effective, usable, fs.Sub in *.
    destruct (String.eqb (b_dir b) ""); cbn in *; [done|]. rewrite Husable in Heff.
    cbn in Heff. by destruct (String.eqb (b_dir b) ".").
Qed.

Lemma Build_in_subtree_witness :
  Build [] (SetDir example.builder "lib")
  = Build []
      (SetDir
         (SetFS (SetDir example.builder "lib")
            (Some {| fs.tree :=
                       fs.Dir
                         [("json.tmpl", fs.File "{{ json . }}");
                          ("hello.tmpl",
                           fs.File ("{{ base64 " +:+ strs.quoted "hello" +:+ " }}"));
                          ("missing.tmpl",
                           fs.File ("before {{ execute " +:+ strs.quoted "nowhere.tmpl"
                                    +:+ " . }}"))];
                     fs.dir := "." |}))
         "").
Proof.
  apply (Build_in_subtree [] (SetDir example.builder "lib")
           {| fs.tree := example.source; fs.dir := "." |}); reflexivity.
Defined.

(** X5.  A directory that cannot serve makes [Build] fail before it reads
    anything.  An invalid path is refused by [fs.Sub] without any access to
    the filesystem: the error is a path error of the operation [sub] on the
    directory.  A valid path that denotes nothing fails the [Stat] of the
    root, the only access made; the filesystem is then one that [fs.Sub]
    has returned, which has no Stat method, so that the root is opened: the
    error is a path error of the operation [open] on [.]. *)
Theorem Build_bad_dir (m : slices.memory) (b : TemplateBuilder) (bfs : fs.FS) :
  is_Some (logr.sink (b_logger b)) ->
  b_fsys b = Some bfs ->
  (usable (b_dir b) = false ->
   exists cause, Build m b = ((m, []), Err (PathError "sub" (b_dir b) cause))) /\
  (usable (b_dir b) = true -> rootOf bfs (b_dir b) = None ->
   exists cause, Build m b = ((m, [EvStat "."]), Err (PathError "open" "." cause))).
Proof.
  intros [s Hsink] Hfs. unfold Build, logr.GetSink. rewrite Hsink, Hfs. unfold usable.
  split.
  - intros [Hd Hvalid]%orb_false_iff. rewrite Hd. cbn. unfold fs.Sub.
    rewrite Hvalid. by eexists.
  - intros Husable Hroot. unfold rootOf in Hroot.
    assert (exists fsys,
              (if negb (String.eqb (b_dir b) "") then fs.Sub bfs (b_dir b) else Ok bfs)
              = Ok fsys /\
              fs.lookup (fs.elements (fs.Join (fs.dir fsys) ".")) (fs.tree fsys) = None)
      as (fsys & -> & Hnone).
    { destruct (String.eqb (b_dir b) "") eqn:Hd; cbn in *.
      - exists bfs. by rewrite elements_Join, app_nil_r.
      - unfold fs.Sub. rewrite Husable. cbn.
        destruct (String.eqb (b_dir b) ".") eqn:Hdot; eexists; (split; [done|]).
        + apply String.eqb_eq in Hdot. rewrite Hdot in Hroot.
          by rewrite !elements_Join, !app_nil_r in *.
        + cbn. by rewrite elements_Join, app_nil_r. }
    assert (String.eqb (fs.dir fsys) "." = false) as Hsub.
    { destruct (String.eqb (fs.dir fsys) ".") eqn:Hdot; [|done].
      apply String.eqb_eq in Hdot. by rewrite Hdot in Hnone. }
    unfold findFiles, fs.WalkDir, fs.Stat, fs.open. rewrite Hsub. cbn [negb fs.ValidPath].
    replace (fs.ValidPath ".") with true by reflexivity. cbn [negb]. rewrite Hnone.
    by eexists.
Qed.

Lemma Build_bad_dir_witness :
  (exists cause,
     Build [] (SetDir example.builder "lib/")
     = (([], []), Err (PathError "sub" "lib/" cause))) /\
  (exists cause,
     Build [] (SetDir example.builder "bin")
     = (([], [EvStat "."]), Err (PathError "open" "." cause))).
Proof.
  split.
  - apply (proj1 (Build_bad_dir [] (SetDir example.builder "lib/")
                    {| fs.tree := example.source; fs.dir := "." |}
                    ltac:(by eexists) eq_refl)).
    reflexivity.
  - apply (proj2 (Build_bad_dir [] (SetDir example.builder "bin")
                    {| fs.tree := example.source; fs.dir := "." |}
                    ltac:(by eexists) eq_refl)); reflexivity.
Defined.

(** ** A file that cannot be read *)

Lemma parseFile_unread t fsys name e :
  fs.ReadFile fsys name = Err e ->
  parseFile t fsys name = ((t, [EvReadFile name]), Err e).
Proof. intros Hread. unfold parseFile. by rewrite Hread. Qed.

(** X6.  [Build] stops at the first file that cannot be read.  What it has
    done by then is: the walk, for each file before the failing one, in the
    order of discovery, what parsing it does (it is read, compiled and,
    with detail logging, logged), and the read of the failing file, which
    is not parsed; no later file is touched.  The error is the one of the
    read. *)
Theorem Build_read_failure (m m1 : slices.memory) (b : TemplateBuilder)
    (bfs fsys : fs.FS) (t1 : Template) (evs1 : list event)
    (pre post : list string) (name : string) (e : error) :
  is_Some (logr.sink (b_logger b)) ->
  b_fsys b = Some bfs ->
  effective bfs (b_dir b) = Ok fsys ->
  findFiles m (initial (b_logger b)) fsys = (((m1, t1), evs1), Ok tt) ->
  slices.contents m1 (names t1) = (pre ++ name :: post)%list ->
  (forall n, n ∈ pre ->
     exists text tr, fs.ReadFile fsys n = Ok text /\ compile n text = Ok tr) ->
  fs.ReadFile fsys name = Err e ->
  Forall walks evs1 /\
  Forall (fun n => [EvReadFile n; EvParse n] `prefix_of` fileEvents (b_logger b) fsys n)
    pre /\
  Build m b
  = ((m1, (evs1 ++ concat (map (fileEvents (b_logger b) fsys) pre)
                ++ [EvReadFile name])%list),
     Err e).
Proof.
  intros Hsink Hfs Heff Hfind Hnames Hpre Hread.
  destruct (Build_up_to _ _ _ _ _ _ _ _ _ _ Hsink Hfs Heff Hfind Hnames Hpre)
    as (t' & Hfuncs & Hwalks & HBuild).
  split; [done|]. split.
  - apply Forall_forall. intros n Hn. destruct (Hpre n Hn) as (text & tr & Hn' & _).
    unfold fileEvents. rewrite Hn'. by eexists.
  - apply HBuild. by apply parseFile_unread.
Qed.

Lemma Build_read_failure_witness :
  Forall walks
    (snd (fst (findFiles [] (initial example.log)
                 {| fs.tree := damaged.unreadable; fs.dir := "." |}))) /\
  Forall (fun n => [EvReadFile n; EvParse n]
                   `prefix_of` fileEvents (b_logger (damaged.builder damaged.unreadable))
                                 {| fs.tree := damaged.unreadable; fs.dir := "." |} n)
    ["a.tmpl"] /\
  Build [] (damaged.builder damaged.unreadable)
  = ((fst (fst (Build [] (damaged.builder damaged.unreadable))),
      (snd (fst (findFiles [] (initial example.log)
                   {| fs.tree := damaged.unreadable; fs.dir := "." |}))
       ++ concat (map (fileEvents (b_logger (damaged.builder damaged.unreadable))
                         {| fs.tree := damaged.unreadable; fs.dir := "." |})
                    ["a.tmpl"])
       ++ [EvReadFile "b.tmpl"])%list),
     Err (PathError "read" "b.tmpl" "input/output error")).
Proof.
  apply (Build_read_failure [] _ (damaged.builder damaged.unreadable)
           {| fs.tree := damaged.unreadable; fs.dir := "." |}
           {| fs.tree := damaged.unreadable; fs.dir := "." |}
           (snd (fst (fst (findFiles [] (initial example.log)
                             {| fs.tree := damaged.unreadable; fs.dir := "." |}))))
           (snd (fst (findFiles [] (initial example.log)
                        {| fs.tree := damaged.unreadable; fs.dir := "." |})))
           ["a.tmpl"] ["c.tmpl"] "b.tmpl").
  - by eexists.
  - reflexivity.
  - reflexivity.
  - vm_compute. reflexivity.
  - vm_compute. reflexivity.
  - intros n ->%list_elem_of_singleton. eexists _, _.
    split; [vm_compute; reflexivity | vm_compute; reflexivity].
  - vm_compute. reflexivity.
Defined.

(** ** The units are the files *)

(** X7.  After a successful [Build] the units of the template are the
    parsed units.  Every name of the template has a unit.  The tree of a
    unit is the one that a file among the names has for it, as the text
    that [ReadFile] gives for the file parses under the three registered
    functions, be it the tree of the file itself or the one of a template
    that the file defines.  And whatever a file among the names has a tree
    for is a unit, also when it is not among the names. *)
Theorem Build_units_files (m m' : slices.memory) (b : TemplateBuilder)
    (bfs : fs.FS) (evs : list event) (t : Template) :
  Build m b = ((m', evs), Ok t) ->
  b_fsys b = Some bfs ->
  exists fsys,
    effective bfs (b_dir b) = Ok fsys /\
    (forall name, name ∈ slices.contents m' (names t) ->
       is_Some (tmpl.Lookup (template t) name)) /\
    (forall k tr, tmpl.Lookup (template t) k = Some (k, tr) ->
       parsedUnit fsys (slices.contents m' (names t)) k tr) /\
    (forall k tr, parsedUnit fsys (slices.contents m' (names t)) k tr ->
       is_Some (tmpl.Lookup (template t) k)).
Proof.
  intros HBuild Hfs.
  destruct (Build_Ok_inv _ _ _ _ _ HBuild)
    as (bfs' & fsys & _ & _ & _ & Hfs' & Heff & _).
  rewrite Hfs in Hfs'. injection Hfs' as <-.
  exists fsys. split; [done|]. by apply (Build_units _ _ _ _ _ _ _ HBuild Hfs Heff).
Qed.

Lemma Build_units_files_witness :
  exists fsys,
    effective {| fs.tree := example.source; fs.dir := "." |} (b_dir example.builder)
    = Ok fsys /\
    (forall name, name ∈ slices.contents example.memory (names example.built) ->
       is_Some (tmpl.Lookup (template example.built) name)) /\
    (forall k tr, tmpl.Lookup (template example.built) k = Some (k, tr) ->
       parsedUnit fsys (slices.contents example.memory (names example.built)) k tr) /\
    (forall k tr,
       parsedUnit fsys (slices.contents example.memory (names example.built)) k tr ->
       is_Some (tmpl.Lookup (template example.built) k)).
Proof.
  apply (Build_units_files [] example.memory example.builder
           {| fs.tree := example.source; fs.dir := "." |}
           (snd (fst (Build [] example.builder))) example.built).
  - vm_compute. reflexivity.
  - reflexivity.
Defined.

(** ** When discovery succeeds *)

Lemma forallb_Permutation {A} (f : A -> bool) l l' :
  l ≡ₚ l' -> forallb f l = forallb f l'.
Proof.
  induction 1 as [|x l l' _ IH|x y l|l l' l'' _ IH1 _ IH2]; cbn; [done| | |congruence].
  - by rewrite IH.
  - by destruct (f x), (f y).
Qed.

Lemma walkEntries_listable name (ses : list (string * fs.node)) :
  Forall (fun e => forall name' s,
            (listable (snd e) = true /\
             snd (fs.walkDir findFilesFunc name' (snd e) s) = Ok tt) \/
            (listable (snd e) = false /\
             exists e', snd (fs.walkDir findFilesFunc name' (snd e) s) = Err e' /\
                        is_ReadDirError e')) ses ->
  forall s,
    (forallb (fun e => listable (snd e)) ses = true /\
     snd (fs.walkEntries
            (map (fun e => (fst e, fs.walkDir findFilesFunc (fs.Join name (fst e)) (snd e)))
               ses) s) = Ok tt) \/
    (forallb (fun e => listable (snd e)) ses = false /\
     exists e', snd (fs.walkEntries
                  (map (fun e => (fst e,
                                  fs.walkDir findFilesFunc (fs.Join name (fst e)) (snd e)))
                     ses) s) = Err e' /\
                is_ReadDirError e').
Proof.
  induction 1 as [|e ses He _ IH]; intros s; [by left|].
  cbn [map fs.walkEntries forallb fst snd].
  destruct (He (fs.Join name (fst e)) s) as [[-> Hwalk] | [-> (e' & Hwalk & He')]].
  - destruct (fs.walkDir _ _ _ s) as [[s1 evs1] res]. cbn in Hwalk. subst res.
    cbn [andb].
    destruct (IH s1) as [[-> Hrest] | [-> (e' & Hrest & He')]].
    + left. split; [done|]. by destruct (fs.walkEntries _ s1) as [[s2 evs2] res].
    + right. split; [done|]. exists e'. split; [|done].
      by destruct (fs.walkEntries _ s1) as [[s2 evs2] res].
  - right. split; [done|]. exists e'. split; [|done].
    destruct (fs.walkDir _ _ _ s) as [[s1 evs1] res]. cbn in Hwalk. by subst res.
Qed.

(** The walk of a node fails exactly when a directory in it cannot be
    listed, and then with the error of that listing. *)
Lemma walkDir_listable n : forall name s,
  (listable n = true /\ snd (fs.walkDir findFilesFunc name n s) = Ok tt) \/
  (listable n = false /\
   exists e, snd (fs.walkDir findFilesFunc name n s) = Err e /\ is_ReadDirError e).
Proof.
  induction n as [data| |es IH|] using node_ind'; intros name [m t].
  - left. split; [done|]. cbn. by destruct (slices.append m (names t) name).
  - left. split; [done|]. cbn. by destruct (slices.append m (names t) name).
  - rewrite walkDir_Dir.
    change (findFilesFunc name (Some true) None (m, t)) with ((m, t), @Ok unit tt).
    cbv iota beta.
    assert (Forall (fun e => forall name' s,
              (listable (snd e) = true /\
               snd (fs.walkDir findFilesFunc name' (snd e) s) = Ok tt) \/
              (listable (snd e) = false /\
               exists e', snd (fs.walkDir findFilesFunc name' (snd e) s) = Err e' /\
                          is_ReadDirError e')) (strs.sort_by_key es))
      as Hsorted by by rewrite sort_by_key_perm.
    change (listable (fs.Dir es)) with (forallb (fun e => listable (snd e)) es).
    rewrite <- (forallb_Permutation _ _ _ (sort_by_key_perm es)).
    destruct (walkEntries_listable name _ Hsorted (m, t))
      as [[-> Hwalk] | [-> (e' & Hwalk & He')]].
    + left. split; [done|]. by destruct (fs.walkEntries _ _) as [[s2 evs2] res].
    + right. split; [done|]. exists e'. split; [|done].
      by destruct (fs.walkEntries _ _) as [[s2 evs2] res].
  - right. split; [done|]. eexists. split; [reflexivity|]. by eexists.
Qed.

Lemma usable_effective bfs d :
  usable d = true -> exists fsys, effective bfs d = Ok fsys.
Proof.
  unfold usable, effective, fs.Sub. intros Husable.
  destruct (String.eqb d ""); cbn in *; [by eexists|]. rewrite Husable. cbn.
  destruct (String.eqb d "."); by eexists.
Qed.

Lemma Stat_root root : fs.Stat {| fs.tree := root; fs.dir := "." |} "." = Ok root.
Proof. reflexivity. Qed.

Lemma ReadFile_sameFiles f1 f2 name :
  sameFiles f1 f2 -> fs.ReadFile f1 name = fs.ReadFile f2 name.
Proof. intros Hsame. unfold fs.ReadFile. by rewrite Hsame. Qed.

Lemma Build_undiscovered m b bfs fsys m1 t1 evs1 e :
  is_Some (logr.sink (b_logger b)) ->
  b_fsys b = Some bfs ->
  effective bfs (b_dir b) = Ok fsys ->
  findFiles m (initial (b_logger b)) fsys = (((m1, t1), evs1), Err e) ->
  Build m b = ((m1, evs1), Err e).
Proof.
  intros [s Hsink] Hfs Heff Hfind. unfold Build, logr.GetSink.
  rewrite Hsink, Hfs. unfold effective in Heff. rewrite Heff.
  unfold initial, registered in Hfind. by rewrite Hfind.
Qed.

Lemma findFiles_Stat m t fsys root :
  fs.Stat fsys "." = Ok root ->
  findFiles m t fsys =
  let '((s1, evs), res) := fs.walkDir findFilesFunc "." root (m, t) in
  ((s1, EvStat "." :: evs), res).
Proof. intros HStat. unfold findFiles, fs.WalkDir. by rewrite HStat. Qed.

(** What discovery gives for a build whose root is [root]. *)
Lemma findFiles_root m l bfs d root :
  usable d = true ->
  rootOf bfs d = Some root ->
  exists fsys m1 t1 evs1,
    effective bfs d = Ok fsys /\
    sameFiles fsys {| fs.tree := root; fs.dir := "." |} /\
    Forall walks evs1 /\
    tmpl.parseFuncs (template t1) = registered /\
    ((listable root = true /\
      findFiles m (initial l) fsys = (((m1, t1), evs1), Ok tt) /\
      slices.contents m1 (names t1) = map (pathFrom ".") (filesBelow root)) \/
     (listable root = false /\
      exists e, findFiles m (initial l) fsys = (((m1, t1), evs1), Err e) /\
                is_ReadDirError e)).
Proof.
  intros Husable Hroot.
  destruct (usable_effective bfs d Husable) as [fsys Heff].
  pose proof (rootOf_sameFiles _ _ _ _ Husable Heff Hroot) as Hsame.
  assert (fs.Stat fsys "." = Ok root) as HStat by (unfold fs.Stat; by rewrite Hsame).
  destruct (fs.walkDir findFilesFunc "." root (m, initial l)) as [[[m1 t1] evs1] res]
    eqn:Hwalk.
  assert (findFiles m (initial l) fsys = (((m1, t1), EvStat "." :: evs1), res)) as Hfind.
  { rewrite (findFiles_Stat _ _ _ _ HStat). by rewrite Hwalk. }
  exists fsys, m1, t1, (EvStat "." :: evs1). split; [done|]. split; [done|].
  pose proof (findFiles_walks m (initial l) fsys) as Hwalks.
  pose proof (findFiles_template m (initial l) fsys) as [Htm _].
  rewrite Hfind in Hwalks, Htm. cbn [fst snd] in Hwalks, Htm.
  split; [done|]. split; [by rewrite Htm|].
  destruct (walkDir_listable root "." (m, initial l)) as [[Hl Hres] | [Hl (e & Hres & He)]];
    rewrite Hwalk in Hres; cbn in Hres; subst res.
  - left. split; [done|]. split; [done|].
    by destruct (walkDir_records root "." m (initial l) m1 t1 evs1 (fits_nil m) Hwalk)
      as [_ ->].
  - right. split; [done|]. by exists e.
Qed.

(** X8.  [Build] succeeds on a source all of whose directories can be
    listed and all of whose files can be read and compile; the names of the
    template are then the paths that the walk computes for the regular
    files, in the order of the walk. *)
Theorem Build_succeeds (m : slices.memory) (b : TemplateBuilder) (bfs : fs.FS)
    (root : fs.node) :
  is_Some (logr.sink (b_logger b)) ->
  b_fsys b = Some bfs ->
  usable (b_dir b) = true ->
  rootOf bfs (b_dir b) = Some root ->
  listable root = true ->
  (forall p, p ∈ filesBelow root ->
     exists text tr,
       fs.ReadFile {| fs.tree := root; fs.dir := "." |} (pathFrom "." p) = Ok text /\
       compile (pathFrom "." p) text = Ok tr) ->
  exists m' evs t,
    Build m b = ((m', evs), Ok t) /\
    slices.contents m' (names t) = map (pathFrom ".") (filesBelow root).
Proof.
  intros Hsink Hfs Husable Hroot Hlistable Hfiles.
  destruct (findFiles_root m (b_logger b) bfs (b_dir b) root Husable Hroot)
    as (fsys & m1 & t1 & evs1 & Heff & Hsame & _ & Hfuncs & [(_ & Hfind & Hnames) | [Hl _]]);
    [|congruence].
  rewrite (Build_discovered _ _ _ _ _ _ _ Hsink Hfs Heff Hfind). unfold parseFiles.
  destruct (parseFilesLoop_succeeds fsys (slices.contents m1 (names t1)) t1 Hfuncs)
    as (t' & evs' & Hloop & _ & _).
  { rewrite Hnames. intros n (p & -> & Hp)%list_elem_of_fmap.
    rewrite (ReadFile_sameFiles _ _ _ Hsame). by apply Hfiles. }
  rewrite Hloop. exists m1, (evs1 ++ evs')%list, t'. split; [done|].
  by destruct (parseFilesLoop_units _ _ _ _ _ Hloop) as (-> & _ & _).
Qed.

Lemma Build_succeeds_witness :
  exists m' evs t,
    Build [] example.builder = ((m', evs), Ok t) /\
    slices.contents m' (names t) = map (pathFrom ".") (filesBelow example.source).
Proof.
  apply (Build_succeeds [] example.builder {| fs.tree := example.source; fs.dir := "." |}
           example.source).
  - by eexists.
  - reflexivity.
  - reflexivity.
  - reflexivity.
  - reflexivity.
  - apply Forall_forall.
    let files := eval vm_compute in (filesBelow example.source) in
    change (filesBelow example.source) with files.
    repeat (apply List.Forall_cons; [eexists _, _; split; [vm_compute; reflexivity | vm_compute; reflexivity]|]).
    apply List.Forall_nil.
Defined.

(** X9.  [Build] fails on a source with a directory that cannot be listed,
    with the error of that listing, and it fails during discovery: no file
    has been read or parsed, whatever the files are. *)
Theorem Build_unlistable (m : slices.memory) (b : TemplateBuilder) (bfs : fs.FS)
    (root : fs.node) :
  is_Some (logr.sink (b_logger b)) ->
  b_fsys b = Some bfs ->
  usable (b_dir b) = true ->
  rootOf bfs (b_dir b) = Some root ->
  listable root = false ->
  exists m' evs e,
    Build m b = ((m', evs), Err e) /\ is_ReadDirError e /\ Forall walks evs.
Proof.
  intros Hsink Hfs Husable Hroot Hlistable.
  destruct (findFiles_root m (b_logger b) bfs (b_dir b) root Husable Hroot)
    as (fsys & m1 & t1 & evs1 & Heff & _ & Hwalks & _ & [[Hl _] | (_ & e & Hfind & He)]);
    [congruence|].
  exists m1, evs1, e. split; [|done].
  by apply Build_undiscovered with bfs fsys t1.
Qed.

Lemma Build_unlistable_witness :
  exists m' evs e,
    Build [] (damaged.builder damaged.unlistable) = ((m', evs), Err e) /\
    is_ReadDirError e /\ Forall walks evs.
Proof.
  apply (Build_unlistable [] (damaged.builder damaged.unlistable)
           {| fs.tree := damaged.unlistable; fs.dir := "." |} damaged.unlistable).
  - by eexists.
  - reflexivity.
  - reflexivity.
  - reflexivity.
  - reflexivity.
Defined.

(** ** The effects of a build, in their order *)

Lemma parseFile_parses t fsys name : Forall parses (snd (fst (parseFile t fsys name))).
Proof.
  unfold parseFile. destruct (fs.ReadFile fsys name) as [text|e|p| |?];
    [|by repeat constructor..].
  destruct (tmpl.Parse (template t) name text) as [tm|e|p| |?]; [|by repeat constructor..].
  cbn. unfold logr.Info. destruct (logr.Enabled _); by repeat constructor.
Qed.

Lemma parseFilesLoop_parses fsys l : forall t,
  Forall parses (snd (fst (parseFilesLoop t fsys l))).
Proof.
  induction l as [|name l IH]; intros t; cbn [parseFilesLoop]; [by constructor|].
  pose proof (parseFile_parses t fsys name) as Hfile.
  destruct (parseFile t fsys name) as [[t1 evs1] [[]|e|p| |?]]; [|done..].
  pose proof (IH t1) as Hloop.
  destruct (parseFilesLoop t1 fsys l) as [[t2 evs2] res]. cbn in *.
  by apply Forall_app.
Qed.

(** X10.  The effects of [Build] come in two phases: first the walk, which
    only stats the root and lists directories, then the parsing, which only
    reads, compiles and logs.  When the build succeeds the second phase
    goes through the names in their order and, for each, reads the file,
    compiles it, and logs its name and text if detail logging is on. *)
Theorem Build_trace (m : slices.memory) (b : TemplateBuilder) :
  (exists evs1 evs2,
     snd (fst (Build m b)) = (evs1 ++ evs2)%list /\
     Forall walks evs1 /\ Forall parses evs2) /\
  (forall m' evs t bfs,
     Build m b = ((m', evs), Ok t) ->
     b_fsys b = Some bfs ->
     exists fsys evs1,
       effective bfs (b_dir b) = Ok fsys /\
       Forall walks evs1 /\
       evs = (evs1 ++
              concat (map (fileEvents (b_logger b) fsys) (slices.contents m' (names t))))%list).
Proof.
  split.
  - unfold Build.
    destruct (logr.GetSink _); [|by exists [], []].
    destruct (b_fsys b) as [bfs|]; [|by exists [], []].
    destruct (if negb _ then _ else _) as [fsys|e|p| |?]; [|by exists [], []..].
    pose proof (findFiles_walks m
                  {| logger := b_logger b; names := slices.nil;
                     template := tmpl.Funcs (tmpl.New "") ["base64"; "execute"; "json"] |}
                  fsys) as Hwalks.
    destruct (findFiles _ _ fsys) as [[[m1 t1] evs1] [[]|e|p| |?]]; cbn in Hwalks;
      [|exists evs1, []; by rewrite app_nil_r..].
    pose proof (parseFilesLoop_parses fsys (slices.contents m1 (names t1)) t1) as Hparses.
    unfold parseFiles.
    destruct (parseFilesLoop _ _ _) as [[t2 evs2] [[]|e|p| |?]]; cbn in Hparses;
      by exists evs1, evs2.
  - intros m' evs t bfs HBuild Hfs.
    destruct (Build_Ok_inv _ _ _ _ _ HBuild)
      as (bfs' & fsys & t1 & evs1 & evs2 & Hfs' & Heff & Hfind & Hparse & ->).
    rewrite Hfs in Hfs'. injection Hfs' as <-.
    pose proof (findFiles_walks m (initial (b_logger b)) fsys) as Hwalks.
    pose proof (findFiles_template m (initial (b_logger b)) fsys) as [_ Hlogger].
    rewrite Hfind in Hwalks, Hlogger. cbn in Hwalks, Hlogger.
    unfold parseFiles in Hparse.
    destruct (parseFilesLoop_units _ _ _ _ _ Hparse) as (Hnames & _ & _).
    exists fsys, evs1. split; [done|]. split; [done|].
    by rewrite (parseFilesLoop_events _ _ _ _ _ Hparse), Hlogger, Hnames.
Qed.

Lemma Build_trace_witness :
  exists fsys evs1,
    effective {| fs.tree := example.source; fs.dir := "." |} (b_dir example.builder)
    = Ok fsys /\
    Forall walks evs1 /\
    snd (fst (Build [] example.builder))
    = (evs1 ++
       concat (map (fileEvents (b_logger example.builder) fsys)
                 (slices.contents example.memory (names example.built))))%list.
Proof.
  apply (proj2 (Build_trace [] example.builder) example.memory
           (snd (fst (Build [] example.builder))) example.built
           {| fs.tree := example.source; fs.dir := "." |}).
  - vm_compute. reflexivity.
  - reflexivity.
Defined.

(** ** Units without action *)





(** ** Units that execute a unit *)

Lemma lex_quote s : forall acc rest,
  quotable s = true ->
  tmpl.lex (tmpl.lexQuote acc) (s +:+ String strs.dquote rest)
  = tmpl.itemString (acc +:+ s) :: tmpl.lex tmpl.lexInsideAction rest.
Proof.
  induction s as [|c r IH]; intros acc rest Hq.
  - cbn. by rewrite append_empty_r.
  - cbn [quotable strs.all] in Hq.
    apply andb_true_iff in Hq as [Hc Hr].
    apply andb_true_iff in Hc as [Hc H128]. apply andb_true_iff in Hc as [Hc Hbs].
    apply andb_true_iff in Hc as [Hdq Hnl].
    apply negb_true_iff in Hdq, Hnl, Hbs.
    change (String c r +:+ String strs.dquote rest)
      with (String c (r +:+ String strs.dquote rest)).
    cbn [tmpl.lex]. rewrite Hdq, Hnl, Hbs.
    replace (128 <=? N_of_ascii c)%N with false
      by (symmetry; apply N.leb_gt; by apply N.ltb_lt).
    rewrite (IH _ _ Hr). unfold tmpl.snoc. by rewrite append_assoc.
Qed.

Lemma lex_executes name pipe :
  quotable name = true ->
  tmpl.lex (tmpl.lexText "") (executes name pipe)
  = ([tmpl.itemLeftDelim; tmpl.itemSpace; tmpl.itemIdentifier "execute"; tmpl.itemSpace;
      tmpl.itemString name]
     ++ tmpl.lex tmpl.lexInsideAction (" ." +:+ pipe +:+ " }}"))%list.
Proof.
  intros Hq.
  assert (executes name pipe
          = String "{" (String "{" (String " " (String "e" (String "x" (String "e"
              (String "c" (String "u" (String "t" (String "e" (String " "
                (String strs.dquote
                   (name +:+ String strs.dquote (" ." +:+ pipe +:+ " }}"))))))))))))))
    as ->.
  { unfold executes, strs.quoted. rewrite !append_String, append_assoc. reflexivity. }
  transitivity
    ([tmpl.itemLeftDelim; tmpl.itemSpace; tmpl.itemIdentifier "execute"; tmpl.itemSpace]
     ++ tmpl.lex (tmpl.lexQuote "")
          (name +:+ String strs.dquote (" ." +:+ pipe +:+ " }}")))%list.
  - reflexivity.
  - by rewrite (lex_quote _ _ _ Hq).
Qed.

(** What the three forms of such a body compile to. *)
Lemma compile_executes outer inner :
  quotable inner = true ->
  (compile outer (executes inner "")
   = Ok [tmpl.ActionNode
           [[tmpl.IdentifierNode "execute"; tmpl.StringNode inner; tmpl.DotNode]]]) /\
  (compile outer (executes inner " | base64")
   = Ok [tmpl.ActionNode
           [[tmpl.IdentifierNode "execute"; tmpl.StringNode inner; tmpl.DotNode];
            [tmpl.IdentifierNode "base64"]]]) /\
  (compile outer (executes inner " | json")
   = Ok [tmpl.ActionNode
           [[tmpl.IdentifierNode "execute"; tmpl.StringNode inner; tmpl.DotNode];
            [tmpl.IdentifierNode "json"]]]).
Proof.
  intros Hq.
  repeat split; apply compile_alone; unfold tmpl.parseTrees;
    rewrite (lex_executes _ _ Hq); vm_compute; reflexivity.
Qed.

Lemma evalCall_execute t execute dot inner :
  tmpl.evalCall (funcMap t execute) dot "execute"
    [tmpl.StringNode inner; tmpl.DotNode] None
  = match execute inner dot with
    | Ok out => Ok (VString out)
    | Err e => Err (CallError "execute" e)
    | Panic p => Err (CallError "execute" (RuntimeError p))
    | StackOverflow => StackOverflow
    | Outside w => Outside w
    end.
Proof. cbv. by destruct (execute inner dot). Qed.

Lemma evalCall_base64 t execute dot v :
  tmpl.evalCall (funcMap t execute) dot "base64" [] (Some v)
  = match base64Func t v with
    | Ok r => Ok (VString r)
    | Err e => Err (CallError "base64" e)
    | Panic p => Err (CallError "base64" (RuntimeError p))
    | StackOverflow => StackOverflow
    | Outside w => Outside w
    end.
Proof.
  unfold tmpl.evalCall.
  change (tmpl.findFunction (funcMap t execute) "base64")
    with (Some {| tmpl.params := [tmpl.anyType];
                  tmpl.impl := fun argv =>
                    match argv with
                    | [v] => r ← base64Func t v; Ok (VString r)
                    | _ => Err (WrongNumberOfArgs "base64" 1 (length argv))
                    end |}).
  cbn. unfold tmpl.safeCall. cbn. by destruct (base64Func t v).
Qed.

Lemma evalCall_json t execute dot v :
  tmpl.evalCall (funcMap t execute) dot "json" [] (Some v)
  = match jsonFunc t v with
    | Ok r => Ok (VString r)
    | Err e => Err (CallError "json" e)
    | Panic p => Err (CallError "json" (RuntimeError p))
    | StackOverflow => StackOverflow
    | Outside w => Outside w
    end.
Proof.
  unfold tmpl.evalCall.
  change (tmpl.findFunction (funcMap t execute) "json")
    with (Some {| tmpl.params := [tmpl.anyType];
                  tmpl.impl := fun argv =>
                    match argv with
                    | [v] => r ← jsonFunc t v; Ok (VString r)
                    | _ => Err (WrongNumberOfArgs "json" 1 (length argv))
                    end |}).
  cbn. unfold tmpl.safeCall. cbn. by destruct (jsonFunc t v).
Qed.

(** X12.  The function [execute] composes: a unit whose body is
    [{{ execute "inner" . }}] renders to what the unit [inner] renders to
    with the same input; piped into [base64] it renders to the Base64
    encoding of that text, and piped into [json] to that text as a JSON
    string, which is a JSON text.  This holds for every inner unit that
    renders, whatever it renders to, given room on the stack for the
    execution that is nested. *)
Theorem execute_piped (stack : nat) (t : Template) (outer inner : string)
    (tr : tmpl.Tree) (data : value) (out : string) (writer : bytes.Buffer) :
  quotable inner = true ->
  rendered stack t inner data = (out, Ok tt) ->
  tmpl.Lookup (template t) outer = Some (outer, tr) ->
  (compile outer (executes inner "") = Ok tr ->
   exists log, Execute (S stack) t writer outer data = ((writer +:+ out, log), Ok tt)) /\
  (compile outer (executes inner " | base64") = Ok tr ->
   exists log,
     Execute (S stack) t writer outer data
     = ((writer +:+ base64.EncodeToString out, log), Ok tt)) /\
  (compile outer (executes inner " | json") = Ok tr ->
   grammar.Text (json.appendString out) /\
   exists log,
     Execute (S stack) t writer outer data
     = ((writer +:+ json.appendString out, log), Ok tt)).
Proof.
  intros Hq Hinner Houter.
  destruct (compile_executes outer inner Hq) as (Hplain & Hbase64 & Hjson).
  pose proof (executeFunc_rendered _ _ _ _ _ Hinner) as Hexecute.
  repeat split.
  - rewrite Hplain. intros [= <-].
    apply Execute_into_buffer. rewrite (Execute_unit _ t writer outer _ data Houter).
    unfold tmpl.Execute. cbn [tmpl.walk tmpl.evalPipeline tmpl.evalCommand].
    rewrite evalCall_execute, Hexecute. reflexivity.
  - rewrite Hbase64. intros [= <-].
    apply Execute_into_buffer. rewrite (Execute_unit _ t writer outer _ data Houter).
    unfold tmpl.Execute. cbn [tmpl.walk tmpl.evalPipeline tmpl.evalCommand].
    rewrite evalCall_execute, Hexecute.
    cbn [mbind outcome_bind tmpl.evalPipeline tmpl.evalCommand].
    rewrite evalCall_base64. reflexivity.
  - apply appendString_Text.
  - revert H. rewrite Hjson. intros [= <-].
    apply Execute_into_buffer. rewrite (Execute_unit _ t writer outer _ data Houter).
    unfold tmpl.Execute. cbn [tmpl.walk tmpl.evalPipeline tmpl.evalCommand].
    rewrite evalCall_execute, Hexecute.
    cbn [mbind outcome_bind tmpl.evalPipeline tmpl.evalCommand].
    rewrite evalCall_json. reflexivity.
Qed.

Lemma execute_piped_witness :
  (exists log,
     Execute (W := bytes.Buffer) 1 nested.built "" "plain.tmpl" VNil
     = (("" +:+ "a<b", log), Ok tt)) /\
  (exists log,
     Execute (W := bytes.Buffer) 1 nested.built "" "base64.tmpl" VNil
     = (("" +:+ base64.EncodeToString "a<b", log), Ok tt)) /\
  (grammar.Text (json.appendString "a<b") /\
   exists log,
     Execute (W := bytes.Buffer) 1 nested.built "" "json.tmpl" VNil
     = (("" +:+ json.appendString "a<b", log), Ok tt)).
Proof.
  split; [|split].
  - eapply (proj1 (execute_piped 0 nested.built "plain.tmpl" "inner.tmpl" _ VNil "a<b" ""
                     eq_refl eq_refl eq_refl)).
    vm_compute. reflexivity.
  - eapply (proj1 (proj2 (execute_piped 0 nested.built "base64.tmpl" "inner.tmpl" _ VNil
                            "a<b" "" eq_refl eq_refl eq_refl))).
    vm_compute. reflexivity.
  - eapply (proj2 (proj2 (execute_piped 0 nested.built "json.tmpl" "inner.tmpl" _ VNil
                            "a<b" "" eq_refl eq_refl eq_refl))).
    vm_compute. reflexivity.
Defined.

(** X13.  Nothing bounds the nesting of [execute]: a unit that executes
    itself overflows the stack, however much room there is.  [Execute] and
    [executeFunc] then neither return a text nor an error, and nothing is
    written or logged. *)
Theorem executes_itself {W} `{io.Writer W} (stack : nat) (t : Template)
    (name : string) (tr : tmpl.Tree) (data : value) (writer : W) :
  quotable name = true ->
  compile name (executes name "") = Ok tr ->
  tmpl.Lookup (template t) name = Some (name, tr) ->
  executeFunc stack t name data = StackOverflow /\
  Execute stack t writer name data = ((writer, []), StackOverflow).
Proof.
  intros Hq Hcompile Hlookup.
  rewrite (proj1 (compile_executes name name Hq)) in Hcompile. injection Hcompile as <-.
  assert (forall k, executeFunc k t name data = StackOverflow) as Hover.
  { induction k as [|k IH]; [done|]. cbn [executeFunc]. rewrite Hlookup.
    unfold tmpl.Execute. cbn [tmpl.walk tmpl.evalPipeline tmpl.evalCommand].
    by rewrite evalCall_execute, IH. }
  split; [apply Hover|].
  rewrite Execute_unfold, (Execute_unit stack t writer name _ data Hlookup).
  unfold tmpl.Execute. cbn [tmpl.walk tmpl.evalPipeline tmpl.evalCommand].
  by rewrite evalCall_execute, Hover.
Qed.

Lemma executes_itself_witness :
  executeFunc 9 nested.built "loop.tmpl" VNil = StackOverflow /\
  Execute (W := bytes.Buffer) 9 nested.built "kept" "loop.tmpl" VNil
  = (("kept", []), StackOverflow).
Proof.
  apply (executes_itself 9 nested.built "loop.tmpl"
           [tmpl.ActionNode
              [[tmpl.IdentifierNode "execute"; tmpl.StringNode "loop.tmpl"; tmpl.DotNode]]]
           VNil "kept"); vm_compute; reflexivity.
Defined.

(** ** Units that call a function on their input *)

Lemma evalCall_dot_base64 t execute dot :
  tmpl.evalCall (funcMap t execute) dot "base64" [tmpl.DotNode] None
  = match base64Func t dot with
    | Ok r => Ok (VString r)
    | Err e => Err (CallError "base64" e)
    | Panic p => Err (CallError "base64" (RuntimeError p))
    | StackOverflow => StackOverflow
    | Outside w => Outside w
    end.
Proof.
  unfold tmpl.evalCall.
  change (tmpl.findFunction (funcMap t execute) "base64")
    with (Some {| tmpl.params := [tmpl.anyType];
                  tmpl.impl := fun argv =>
                    match argv with
                    | [v] => r ← base64Func t v; Ok (VString r)
                    | _ => Err (WrongNumberOfArgs "base64" 1 (length argv))
                    end |}).
  cbn. unfold tmpl.safeCall. cbn. by destruct (base64Func t dot).
Qed.

Lemma evalCall_dot_json t execute dot :
  tmpl.evalCall (funcMap t execute) dot "json" [tmpl.DotNode] None
  = match jsonFunc t dot with
    | Ok r => Ok (VString r)
    | Err e => Err (CallError "json" e)
    | Panic p => Err (CallError "json" (RuntimeError p))
    | StackOverflow => StackOverflow
    | Outside w => Outside w
    end.
Proof.
  unfold tmpl.evalCall.
  change (tmpl.findFunction (funcMap t execute) "json")
    with (Some {| tmpl.params := [tmpl.anyType];
                  tmpl.impl := fun argv =>
                    match argv with
                    | [v] => r ← jsonFunc t v; Ok (VString r)
                    | _ => Err (WrongNumberOfArgs "json" 1 (length argv))
                    end |}).
  cbn. unfold tmpl.safeCall. cbn. by destruct (jsonFunc t dot).
Qed.

Lemma Execute_failed {W} `{io.Writer W} stack t (writer : W) name data out e :
  rendered stack t name data = (out, Err e) ->
  Execute stack t writer name data = ((writer, []), Err e).
Proof. intros Hrendered. by rewrite Execute_unfold, Hrendered. Qed.

(** X14.  The functions are what their units render: for every input, the
    unit [{{ base64 . }}] writes the Base64 encoding of the input and the
    unit [{{ json . }}] its JSON encoding.  When the function refuses the
    input, [Execute] writes and logs nothing and returns the error of the
    function, wrapped in the name of the function and the name of the
    unit.  When [base64Func] panics, as it does in the String method of a
    nil pointer, the engine recovers the panic: [Execute] returns it as the
    error of the call, wrapped in the same way, and writes nothing. *)
Theorem Execute_function_unit (stack : nat) (t : Template) (name : string)
    (tr : tmpl.Tree) (data : value) (writer : bytes.Buffer) :
  tmpl.Lookup (template t) name = Some (name, tr) ->
  (compile name "{{ base64 . }}" = Ok tr ->
   match base64Func t data with
   | Ok text => exists log, Execute stack t writer name data = ((writer +:+ text, log), Ok tt)
   | Err e =>
       Execute stack t writer name data
       = ((writer, []), Err (ExecError name (CallError "base64" e)))
   | Panic p =>
       Execute stack t writer name data
       = ((writer, []), Err (ExecError name (CallError "base64" (RuntimeError p))))
   | _ => False
   end) /\
  (compile name "{{ json . }}" = Ok tr ->
   match jsonFunc t data with
   | Ok text => exists log, Execute stack t writer name data = ((writer +:+ text, log), Ok tt)
   | Err e =>
       Execute stack t writer name data
       = ((writer, []), Err (ExecError name (CallError "json" e)))
   | _ => False
   end).
Proof.
  intros Hlookup. split; intros Hcompile; compiled Hcompile.
  - pose proof (Execute_unit stack t writer name _ data Hlookup) as Hunit.
    unfold tmpl.Execute in Hunit.
    cbn [tmpl.walk tmpl.evalPipeline tmpl.evalCommand] in Hunit.
    rewrite evalCall_dot_base64 in Hunit.
    destruct (base64Func t data) as [text|e|p| |?] eqn:Hfunc.
    + by apply Execute_into_buffer.
    + by apply Execute_failed with "".
    + by apply Execute_failed with "".
    + unfold base64Func in Hfunc. by destruct data.
    + unfold base64Func in Hfunc. by destruct data.
  - pose proof (Execute_unit stack t writer name _ data Hlookup) as Hunit.
    unfold tmpl.Execute in Hunit.
    cbn [tmpl.walk tmpl.evalPipeline tmpl.evalCommand] in Hunit.
    rewrite evalCall_dot_json in Hunit.
    pose proof (Marshal_cases data) as Hcases. rewrite jsonFunc_Marshal in *.
    destruct (json.Marshal data) as [text|e|p| |?] eqn:Hfunc.
    + by apply Execute_into_buffer.
    + by apply Execute_failed with "".
    + destruct (serializable data); by destruct Hcases as (? & ? & ?).
    + destruct (serializable data); by destruct Hcases as (? & ? & ?).
    + destruct (serializable data); by destruct Hcases as (? & ? & ?).
Qed.

Lemma Execute_function_unit_witness :
  (exists log,
     Execute (W := bytes.Buffer) 0 nested.built "kept" "encode.tmpl" (VString "hi")
     = (("kept" +:+ "aGk=", log), Ok tt)) /\
  Execute (W := bytes.Buffer) 0 nested.built "kept" "encode.tmpl" (VNilStringer "*url.URL")
  = (("kept", []),
     Err (ExecError "encode.tmpl"
            (CallError "base64" (RuntimeError NilPointerDereference)))) /\
  Execute (W := bytes.Buffer) 0 nested.built "kept" "marshal.tmpl" (VChan "int" 4096)
  = (("kept", []),
     Err (ExecError "marshal.tmpl" (CallError "json" (UnsupportedTypeError "chan int")))).
Proof.
  split; [|split].
  - apply (proj1 (Execute_function_unit 0 nested.built "encode.tmpl"
                    [tmpl.ActionNode [[tmpl.IdentifierNode "base64"; tmpl.DotNode]]]
                    (VString "hi") "kept" eq_refl) eq_refl).
  - apply (proj1 (Execute_function_unit 0 nested.built "encode.tmpl"
                    [tmpl.ActionNode [[tmpl.IdentifierNode "base64"; tmpl.DotNode]]]
                    (VNilStringer "*url.URL") "kept" eq_refl) eq_refl).
  - apply (proj2 (Execute_function_unit 0 nested.built "marshal.tmpl"
                    [tmpl.ActionNode [[tmpl.IdentifierNode "json"; tmpl.DotNode]]]
                    (VChan "int" 4096) "kept" eq_refl) eq_refl).
Defined.

(** ** Reading back a JSON string *)

(** X15.  The JSON string that [jsonFunc] makes of a Go string that is
    valid UTF-8 loses nothing: read back after RFC 8259, escapes undone, it
    is the string byte for byte.  The escapes that HTML safety adds are
    among those undone. *)
Theorem jsonFunc_string_round_trip (t : Template) (s : string) :
  utf8.ValidString s = true ->
  exists body,
    jsonFunc t (VString s) = Ok (strs.quoted body) /\
    grammar.Chars body /\
    rfc8259.Unescape body = Some s.
Proof.
  intros Hvalid. exists (json.escape 0 0 s). split; [|split].
  - rewrite jsonFunc_Marshal. cbn [json.Marshal]. unfold json.appendString, json.quote.
    reflexivity.
  - by apply escape_Chars.
  - rewrite (proj1 (Unescape_escape s) 0 I). by rewrite replaced_valid.
Qed.

Lemma jsonFunc_string_round_trip_witness :
  exists body,
    jsonFunc example.built (VString "a<b & c") = Ok (strs.quoted body) /\
    grammar.Chars body /\
    rfc8259.Unescape body = Some "a<b & c".
Proof. apply (jsonFunc_string_round_trip example.built "a<b & c"). reflexivity. Defined.

(** ** The logger has no part in the result *)

Section morphism.
Context {S S' : Type} (f : S -> S') (fn : fs.WalkDirFunc S) (fn' : fs.WalkDirFunc S').
Hypothesis fn_morph : forall name entry err s,
  fn' name entry err (f s) = (f (fst (fn name entry err s)), snd (fn name entry err s)).

Lemma walkEntries_morph name (ses : list (string * fs.node)) :
  Forall (fun e => forall name' s,
            fs.walkDir fn' name' (snd e) (f s) = through f (fs.walkDir fn name' (snd e) s)) ses ->
  forall s,
    fs.walkEntries
      (map (fun e => (fst e, fs.walkDir fn' (fs.Join name (fst e)) (snd e))) ses) (f s)
    = through f (fs.walkEntries
              (map (fun e => (fst e, fs.walkDir fn (fs.Join name (fst e)) (snd e))) ses) s).
Proof using Type.
  induction 1 as [|e ses He _ IH]; intros s; [done|].
  cbn [map fs.walkEntries fst snd]. rewrite He.
  destruct (fs.walkDir fn _ _ s) as [[s1 evs1] [[]|e'|p| |?]]; try done.
  unfold through at 1. cbn [fst snd]. rewrite IH.
  by destruct (fs.walkEntries _ s1) as [[s2 evs2] res].
Qed.

Lemma walkDir_morph n : forall name s,
  fs.walkDir fn' name n (f s) = through f (fs.walkDir fn name n s).
Proof using fn_morph.
  induction n as [data| |es IH|] using node_ind'; intros name s.
  - cbn [fs.walkDir fs.IsDir]. rewrite fn_morph.
    by destruct (fn name (Some false) None s) as [s1 [[]|e|p| |?]].
  - cbn [fs.walkDir fs.IsDir]. rewrite fn_morph.
    by destruct (fn name (Some false) None s) as [s1 [[]|e|p| |?]].
  - rewrite !walkDir_Dir, fn_morph.
    destruct (fn name (Some true) None s) as [s1 [[]|e|p| |?]]; try done. cbn [fst snd].
    assert (Forall (fun e => forall name' s,
              fs.walkDir fn' name' (snd e) (f s) = through f (fs.walkDir fn name' (snd e) s))
              (strs.sort_by_key es)) as Hsorted by by rewrite sort_by_key_perm.
    rewrite (walkEntries_morph name _ Hsorted).
    by destruct (fs.walkEntries _ s1) as [[s2 evs2] res].
  - cbn [fs.walkDir fs.IsDir]. rewrite fn_morph.
    destruct (fn name (Some true) None s) as [s1 [[]|e|p| |?]]; try done. cbn [fst snd].
    rewrite fn_morph. by destruct (fn name (Some true) _ s1) as [s2 res].
Qed.

Lemma WalkDir_morph fsys root s :
  fs.WalkDir fsys root fn' (f s) = through f (fs.WalkDir fsys root fn s).
Proof using fn_morph.
  unfold fs.WalkDir. destruct (fs.Stat fsys root) as [n|e|p| |?]; try done.
  - rewrite walkDir_morph. by destruct (fs.walkDir fn root n s) as [[s1 evs] res].
  - rewrite fn_morph. by destruct (fn root None (Some e) s) as [s1 res].
Qed.

End morphism.

Lemma findFiles_relog l m t fsys :
  findFiles m (relog l t) fsys
  = (((fst (fst (fst (findFiles m t fsys))),
       relog l (snd (fst (fst (findFiles m t fsys))))),
      snd (fst (findFiles m t fsys))),
     snd (findFiles m t fsys)).
Proof.
  unfold findFiles.
  exact (WalkDir_morph (fun s => (fst s, relog l (snd s))) findFilesFunc findFilesFunc
           ltac:(intros name entry [e|] [m' t']; [done|];
                 destruct entry as [[]|]; try done; cbn;
                 by destruct (slices.append m' (names t') name))
           fsys "." (m, t)).
Qed.

Lemma quiet_app evs1 evs2 : quiet (evs1 ++ evs2) = (quiet evs1 ++ quiet evs2)%list.
Proof. apply List.filter_app. Qed.

Lemma parseFile_relog l t fsys name :
  fst (fst (parseFile (relog l t) fsys name)) = relog l (fst (fst (parseFile t fsys name))) /\
  quiet (snd (fst (parseFile (relog l t) fsys name)))
  = quiet (snd (fst (parseFile t fsys name))) /\
  snd (parseFile (relog l t) fsys name) = snd (parseFile t fsys name).
Proof.
  unfold parseFile. cbn [template relog logger].
  destruct (fs.ReadFile fsys name) as [text|e|p| |?]; try done.
  destruct (tmpl.Parse (template t) name text) as [tm|e|p| |?]; try done.
  cbn [fst snd]. repeat split. unfold logr.Info.
  by destruct (logr.Enabled (logr.V l 2)), (logr.Enabled (logr.V (logger t) 2)).
Qed.

Lemma parseFilesLoop_relog l fsys names : forall t,
  fst (fst (parseFilesLoop (relog l t) fsys names))
  = relog l (fst (fst (parseFilesLoop t fsys names))) /\
  quiet (snd (fst (parseFilesLoop (relog l t) fsys names)))
  = quiet (snd (fst (parseFilesLoop t fsys names))) /\
  snd (parseFilesLoop (relog l t) fsys names) = snd (parseFilesLoop t fsys names).
Proof.
  induction names as [|name names IH]; intros t; [done|]. cbn [parseFilesLoop].
  destruct (parseFile_relog l t fsys name) as (Ht & Hevs & Hres).
  destruct (parseFile (relog l t) fsys name) as [[t1' evs1'] res'].
  destruct (parseFile t fsys name) as [[t1 evs1] res]. cbn [fst snd] in *. subst t1' res'.
  destruct res as [[]|e|p| |?]; try done.
  destruct (IH t1) as (Ht & Hevs2 & Hres).
  destruct (parseFilesLoop (relog l t1) fsys names) as [[t2' evs2'] res2'].
  destruct (parseFilesLoop t1 fsys names) as [[t2 evs2] res2]. cbn [fst snd] in *.
  by rewrite !quiet_app, Hevs, Hevs2.
Qed.

Lemma quiet_walks evs : Forall walks evs -> quiet evs = evs.
Proof.
  induction 1 as [|ev evs Hev _ IH]; [done|]. unfold quiet in *. cbn. rewrite IH.
  by destruct ev.
Qed.

(** X16.  The logger decides what is logged and nothing else: builds that
    differ in their logger only, both with a sink, leave the same memory,
    make the same accesses to the filesystem in the same order, and end in
    the same way, with the same error or with templates that differ in
    their logger only. *)
Theorem Build_whatever_logger (m : slices.memory) (b : TemplateBuilder)
    (l l' : logr.Logger) :
  is_Some (logr.sink l) ->
  is_Some (logr.sink l') ->
  fst (fst (Build m (SetLogger b l'))) = fst (fst (Build m (SetLogger b l))) /\
  quiet (snd (fst (Build m (SetLogger b l')))) = quiet (snd (fst (Build m (SetLogger b l)))) /\
  snd (Build m (SetLogger b l')) = (t ← snd (Build m (SetLogger b l)); Ok (relog l' t)).
Proof.
  intros [s Hs] [s' Hs']. unfold Build, logr.GetSink. cbn [SetLogger b_logger b_fsys b_dir].
  rewrite Hs, Hs'.
  destruct (b_fsys b) as [bfs|]; [|done].
  destruct (if negb _ then _ else _) as [fsys|e|p| |?]; try done.
  pose proof (findFiles_relog l' m
                {| logger := l; names := slices.nil;
                   template := tmpl.Funcs (tmpl.New "") ["base64"; "execute"; "json"] |}
                fsys) as Hfind.
  unfold relog at 1 in Hfind. cbn [names template] in Hfind. rewrite Hfind. clear Hfind.
  destruct (findFiles m _ fsys) as [[[m1 t1] evs1] [[]|e|p| |?]]; cbn [fst snd]; try done.
  unfold parseFiles. cbn [names relog].
  destruct (parseFilesLoop_relog l' fsys (slices.contents m1 (names t1)) t1)
    as (Ht & Hevs & Hres).
  destruct (parseFilesLoop (relog l' t1) fsys _) as [[t2' evs2'] res'].
  destruct (parseFilesLoop t1 fsys _) as [[t2 evs2] res]. cbn [fst snd] in *.
  subst t2' res'. destruct res as [[]|e|p| |?]; cbn [fst snd]; by rewrite !quiet_app, Hevs.
Qed.

Lemma Build_whatever_logger_witness :
  fst (fst (Build [] (SetLogger example.builder
                        {| logr.sink := Some {| logr.verbosity := 5 |}; logr.level := 0 |})))
  = fst (fst (Build [] (SetLogger example.builder example.log))) /\
  quiet (snd (fst (Build [] (SetLogger example.builder
                               {| logr.sink := Some {| logr.verbosity := 5 |};
                                  logr.level := 0 |}))))
  = quiet (snd (fst (Build [] (SetLogger example.builder example.log)))) /\
  snd (Build [] (SetLogger example.builder
                   {| logr.sink := Some {| logr.verbosity := 5 |}; logr.level := 0 |}))
  = (t ← snd (Build [] (SetLogger example.builder example.log));
     Ok (relog {| logr.sink := Some {| logr.verbosity := 5 |}; logr.level := 0 |} t)).
Proof.
  apply (Build_whatever_logger [] example.builder example.log
           {| logr.sink := Some {| logr.verbosity := 5 |}; logr.level := 0 |});
    by eexists.
Defined.

(** ** Templates that a file defines *)

(** X17.  A template that a file defines is a unit of its own.  The build of
    the source whose one file [a.tmpl] holds
    [{{define "foo"}}bar{{end}}] succeeds; its names are the one name
    [a.tmpl]; [Execute] with the name [foo], which is not among the names,
    writes [bar], and with the name [a.tmpl] it writes nothing. *)
Theorem defined_template_is_a_unit :
  exists m t,
    Build [] defining.builder
    = ((m, [EvStat "."; EvReadDir "."; EvReadFile "a.tmpl"; EvParse "a.tmpl"]), Ok t) /\
    slices.contents m (names t) = ["a.tmpl"] /\
    Execute (W := bytes.Buffer) 0 t "" "foo" VNil = (("bar", []), Ok tt) /\
    Execute (W := bytes.Buffer) 0 t "" "a.tmpl" VNil = (("", []), Ok tt).
Proof.
  eexists _, _. split; [vm_compute; reflexivity|].
  split; [vm_compute; reflexivity|].
  split; [vm_compute; reflexivity | vm_compute; reflexivity].
Qed.
